(** * smartify-Jobs: the query parsers, the subscription callbacks and the
      daily digest of [main.py]

    The development follows [main.py] function by function.  Python's [str]
    is modelled by sequences of 8-bit characters read as code points 0..255
    (Latin-1); character classes ([\s], [\w], [str.strip], [str.lower]) are
    the ones Python uses on those code points.  The literals of message
    texts that hold characters beyond that range (the icons of the titles
    and buttons, the dash of the separator) are kept as they are in the
    source: they are only ever concatenated and compared.  What is stated
    about the country checks of the free-text parser depends on characters
    of any code point; for that the parser is embedded once more, over
    code points, in [Unicode].  The options of a message (parse mode, link
    preview, buttons of a channel post) play no part in what is stated and
    are left out. *)

From Stdlib Require Import Ascii String NArith Bool Lia.
From stdpp Require Import base list strings gmap.

Local Open Scope list_scope.

(** ** Characters *)

Module Char.

Local Open Scope N_scope.

Definition code (c : ascii) : N := N_of_ascii c.

Definition between (lo hi : N) (c : ascii) : bool :=
  (lo <=? code c) && (code c <=? hi).

(** [str.isspace] and the class [\s] on code points below 256. *)
Definition is_space (c : ascii) : bool :=
  between 9 13 c || between 28 32 c || (code c =? 133) || (code c =? 160).

Definition is_upper (c : ascii) : bool := between 65 90 c.
Definition is_lower (c : ascii) : bool := between 97 122 c.

(** The class [[A-Za-z]]. *)
Definition is_letter (c : ascii) : bool := is_upper c || is_lower c.

Definition is_digit (c : ascii) : bool := between 48 57 c.

(** The class [\w] of a [str] pattern: alphanumeric or underscore. *)
Definition is_word (c : ascii) : bool :=
  is_letter c || is_digit c || (code c =? 95)
  || (code c =? 170) || between 178 179 c || (code c =? 181)
  || between 185 186 c || between 188 190 c
  || between 192 214 c || between 216 246 c || between 248 255 c.

(** The class [[,\.;:]]. *)
Definition is_punct (c : ascii) : bool :=
  (code c =? 44) || (code c =? 46) || (code c =? 59) || (code c =? 58).

(** The class [[A-Za-z\s]]. *)
Definition is_loc_char (c : ascii) : bool := is_letter c || is_space c.

(** [str.lower] on one character. *)
Definition lower (c : ascii) : ascii :=
  if is_upper c || between 192 214 c || between 216 222 c
  then ascii_of_N (code c + 32) else c.

(** [str.upper] on one character; the source applies it to the tokens
    "au" and "in" only, so the letters a..z are all that is needed. *)
Definition upper (c : ascii) : ascii :=
  if is_lower c then ascii_of_N (code c - 32) else c.

Definition eqb (a b : ascii) : bool := Ascii.eqb a b.

End Char.

(** ** Texts *)

Abbreviation text := (list ascii).

(** A literal of the source as a text. *)
Definition T (s : string) : text := list_ascii_of_string s.

Definition text_eqb (a b : text) : bool := bool_decide (a = b).

Fixpoint lstrip (t : text) : text :=
  match t with
  | c :: t' => if Char.is_space c then lstrip t' else t
  | [] => []
  end.

Definition rstrip (t : text) : text := reverse (lstrip (reverse t)).

(** [str.strip()] *)
Definition strip (t : text) : text := rstrip (lstrip t).

(** [str.lower()], [str.upper()] *)
Definition lower (t : text) : text := map Char.lower t.
Definition upper (t : text) : text := map Char.upper t.

(** [sep.join(parts)] *)
Fixpoint join (sep : text) (parts : list text) : text :=
  match parts with
  | [] => []
  | [p] => p
  | p :: ps => p ++ sep ++ join sep ps
  end.

(** [s.startswith(p)]: the rest of [s] after the prefix [p], if any. *)
Fixpoint strip_prefix (p s : text) : option text :=
  match p, s with
  | [], _ => Some s
  | a :: p', c :: s' => if Char.eqb a c then strip_prefix p' s' else None
  | _ :: _, [] => None
  end.

Definition startswith (s p : text) : bool :=
  match strip_prefix p s with Some _ => true | None => false end.

(** [a.split("=", 1)[1]]: what follows the first "=" ([None] stands for the
    [IndexError] of a text without "="). *)
Fixpoint after_first_eq (a : text) : option text :=
  match a with
  | [] => None
  | c :: a' => if Char.eqb c "="%char then Some a' else after_first_eq a'
  end.

(** [x or d] on texts: the empty text is falsy. *)
Definition or_default (x d : text) : text :=
  match x with [] => d | _ => x end.

Definition software_engineer : text := T "software engineer".

(** ** Command arguments: [parse_jobs_args] *)

Record jobs_args_state := {
  st_country : text;
  st_location : option text;
  st_tokens : list text
}.

(** The body of the [for a in args] loop. [None] is the [IndexError] that
    [a.split("=", 1)[1]] would raise; it cannot happen, since the branch is
    taken only when the token holds an "=" (see [after_first_eq_loc]). *)
Definition arg_step (st : jobs_args_state) (a : text) : option jobs_args_state :=
  let al := lower a in
  if text_eqb al (T "au") || text_eqb al (T "in") then
    Some {| st_country := upper al;
            st_location := st_location st;
            st_tokens := st_tokens st |}
  else if startswith al (T "loc=") then
    match after_first_eq a with
    | Some l => Some {| st_country := st_country st;
                        st_location := Some l;
                        st_tokens := st_tokens st |}
    | None => None
    end
  else
    Some {| st_country := st_country st;
            st_location := st_location st;
            st_tokens := st_tokens st ++ [a] |}.

Fixpoint arg_loop (st : jobs_args_state) (args : list text)
  : option jobs_args_state :=
  match args with
  | [] => Some st
  | a :: args' =>
      match arg_step st a with
      | Some st' => arg_loop st' args'
      | None => None
      end
  end.

Definition parse_jobs_args (args : list text)
  : option (text * text * option text) :=
  match arg_loop {| st_country := T "AU"; st_location := None; st_tokens := [] |}
                 args with
  | Some st =>
      let keyword := or_default (strip (join (T " ") (st_tokens st)))
                                software_engineer in
      Some (keyword, st_country st, st_location st)
  | None => None
  end.

(** ** The regular expressions of [parse_free_text_to_query]

    A pattern is given by its matcher: from the character before the
    position (for [\b]) and the text at the position, the length of the
    match starting there, if there is one. None of the patterns of the
    source matches the empty text. *)

Definition matcher := option ascii -> text -> option nat.

(** [re.sub(pattern, repl, t)]: scan from the left; at a match, emit [repl]
    and go on after the match ([skip] counts the characters of the match
    still to pass); otherwise keep the character. *)
Fixpoint re_sub_go (m : matcher) (repl : text) (prev : option ascii)
    (skip : nat) (t : text) : text :=
  match t with
  | [] => []
  | c :: t' =>
      match skip with
      | S k => re_sub_go m repl (Some c) k t'
      | O =>
          match m prev t with
          | Some (S k) => repl ++ re_sub_go m repl (Some c) k t'
          | _ => c :: re_sub_go m repl (Some c) O t'
          end
      end
  end.

Definition re_sub (m : matcher) (repl : text) (t : text) : text :=
  re_sub_go m repl None O t.

(** [re.search(pattern, t)]: the text of the leftmost match, [m.group(0)]. *)
Fixpoint re_search_go (m : matcher) (prev : option ascii) (t : text)
  : option text :=
  match t with
  | [] => None
  | c :: t' =>
      match m prev t with
      | Some n => Some (take n t)
      | None => re_search_go m (Some c) t'
      end
  end.

Definition re_search (m : matcher) (t : text) : option text :=
  re_search_go m None t.

(** A greedy run [[class]+]. *)
Fixpoint run_length (cls : ascii -> bool) (t : text) : nat :=
  match t with
  | c :: t' => if cls c then S (run_length cls t') else O
  | [] => O
  end.

Definition m_run (cls : ascii -> bool) : matcher :=
  fun _ t => match run_length cls t with O => None | n => Some n end.

(** [[,\.;:]+] and [\s+] *)
Definition m_punct : matcher := m_run Char.is_punct.
Definition m_spaces : matcher := m_run Char.is_space.

(** [\b]: exactly one of the two neighbours is a word character. *)
Definition opt_is_word (c : option ascii) : bool :=
  match c with Some c => Char.is_word c | None => false end.

Definition word_boundary (prev : option ascii) (t : text) : bool :=
  xorb (opt_is_word prev) (opt_is_word (head t)).

(** A lower-case literal under [re.I]: the character before the end of the
    match and the rest of the text. *)
Fixpoint match_lit_ci (w : text) (prev : option ascii) (t : text)
  : option (option ascii * text) :=
  match w, t with
  | [], _ => Some (prev, t)
  | a :: w', c :: t' =>
      if Char.eqb (Char.lower c) a then match_lit_ci w' (Some c) t' else None
  | _ :: _, [] => None
  end.

(** [\b(w1|w2|...)\b] under [re.I]: the alternatives are tried in order,
    each with the closing [\b]. *)
Fixpoint match_alt (ws : list text) (prev : option ascii) (t : text)
  : option nat :=
  match ws with
  | [] => None
  | w :: ws' =>
      match match_lit_ci w prev t with
      | Some (last, rest) =>
          if word_boundary last rest then Some (length w)
          else match_alt ws' prev t
      | None => match_alt ws' prev t
      end
  end.

Definition m_words (ws : list text) : matcher :=
  fun prev t => if word_boundary prev t then match_alt ws prev t else None.

Definition au_words : list text := [T "au"; T "australia"].
Definition india_words : list text := [T "india"].

(** [\b(au|australia)\b] and [\bindia\b], both with [flags=re.I] *)
Definition m_au : matcher := m_words au_words.
Definition m_india : matcher := m_words india_words.

(** [loc=[A-Za-z\s]+], case-sensitive *)
Definition m_loc : matcher :=
  fun _ t =>
    match strip_prefix (T "loc=") t with
    | Some rest =>
        match run_length Char.is_loc_char rest with
        | O => None
        | n => Some (4 + n)%nat
        end
    | None => None
    end.

(** [m.group(1)] of [loc=([A-Za-z\s]+)]: the match without its "loc=". *)
Definition loc_group1 (m0 : text) : text := drop 4 m0.

(** ** Free text: [parse_free_text_to_query] *)

(** Lines 49-51. *)
Definition normalize (txt : text) : text :=
  let t := strip txt in
  let t := re_sub m_punct (T " ") t in
  strip (re_sub m_spaces (T " ") t).

(** Lines 56-61: the two country checks, one after the other. *)
Definition detect_country (t : text) : text * text :=
  let country := T "AU" in
  let '(country, t) :=
    match re_search m_au t with
    | Some _ => (T "AU", re_sub m_au [] t)
    | None => (country, t)
    end in
  match re_search m_india t with
  | Some _ => (T "IN", re_sub m_india [] t)
  | None => (country, t)
  end.

(** Lines 63-66. *)
Definition extract_location (t : text) : option text * text :=
  match re_search m_loc t with
  | Some m0 => (Some (strip (loc_group1 m0)), strip (re_sub m_loc [] t))
  | None => (None, t)
  end.

Definition parse_free_text_chars (txt : text) : text * text * option text :=
  let t := normalize txt in
  let '(country, t) := detect_country t in
  let '(location, t) := extract_location t in
  let keyword := match t with [] => software_engineer | _ => t end in
  (keyword, country, location).

(** The parsers on strings, as the handlers call them. *)
Definition str (t : text) : string := string_of_list_ascii t.

Definition parse_free_text_to_query (txt : string)
  : string * string * option string :=
  let '(k, c, l) := parse_free_text_chars (T txt) in (str k, str c, str <$> l).

(** ** The preference store

    [database.py] is not part of the sources at hand; the handlers use
    [get_user], [upsert_user] and [all_users] of it. A preference record
    is the Python dict of flags, a map from flag names to booleans. *)

Abbreviation prefs_t := (gmap string bool).

Record user := {
  user_id : Z;
  user_prefs : option prefs_t   (* the key "prefs" may be missing *)
}.

(** [{"jobs_au": False, "jobs_in": False, "ai_tools": False}] *)
Definition no_prefs : prefs_t :=
  <["jobs_au" := false]> (<["jobs_in" := false]> (<["ai_tools" := false]> ∅)).

(** [prefs.get(key)] as a condition: a missing key is falsy. *)
Definition flag (p : prefs_t) (key : string) : bool :=
  match p !! key with Some b => b | None => false end.

(** [any(p.values())] *)
Definition any_flag (p : prefs_t) : bool :=
  bool_decide (map_Exists (λ _ b, b = true) p).

(** Modelled from the spec: the Preference Store's [get(user_id)], which
    "returns default-false record if absent, never fails". *)
Definition get_user (db : gmap Z user) (uid : Z) : user :=
  match db !! uid with
  | Some u => u
  | None => {| user_id := uid; user_prefs := Some no_prefs |}
  end.

(** Modelled from the spec: the Preference Store's [upsert(user_id, prefs)],
    which "merges provided fields, creates record if absent": the flags
    given replace the stored ones, the other stored flags stay. *)
Definition upsert_user (db : gmap Z user) (uid : Z) (p : prefs_t)
  : gmap Z user :=
  let old := match db !! uid with
             | Some u => default ∅ (user_prefs u)
             | None => no_prefs
             end in
  <[uid := {| user_id := uid; user_prefs := Some (p ∪ old) |}]> db.

(** [user.get("prefs", {...all False...})] *)
Definition prefs_of (u : user) : prefs_t := default no_prefs (user_prefs u).

(** The stored flags of a user, as the next handler will read them. *)
Definition stored_prefs (db : gmap Z user) (uid : Z) : prefs_t :=
  prefs_of (get_user db uid).

(** What the store hands out is not visible from [main.py]: a copy of the
    record (a store on disk), or the record itself (a dict kept in memory),
    in which case an assignment to [prefs[key]] changes the stored record
    at once. Both are modelled. *)
Inductive store_mode := Copies | Shares.

(** [prefs[key] = value] seen from the store. *)
Definition assign_in_store (mode : store_mode) (db : gmap Z user) (uid : Z)
    (key : string) (value : bool) : gmap Z user :=
  match mode, db !! uid with
  | Shares, Some {| user_id := i; user_prefs := Some p |} =>
      <[uid := {| user_id := i; user_prefs := Some (<[key := value]> p) |}]> db
  | _, _ => db
  end.

(** ** The subscription keyboard and its callbacks *)

Record button := { label : string; callback_data : string }.

Abbreviation keyboard := (list (list button)).

Inductive reply :=
  | edit_message_text (msg : string) (reply_markup : option keyboard)
  | edit_message_reply_markup (reply_markup : keyboard)
  | edit_saved (enabled : gset string).
  (* [f"Saved: {pretty}."]: the names of the enabled flags; their order is
     the order of the store's dict *)

Section Subscription.

Variable daily_time : string.   (* [f"{DAILY_HOUR:02d}:{DAILY_MINUTE:02d} {DEFAULT_TZ}"] *)
Variable mode : store_mode.

Definition label_of (p : prefs_t) (key txt : string) : string :=
  (if flag p key then "✅" else "⭕️") +:+ " " +:+ txt.

Definition build_subscribe_keyboard (p : prefs_t) : keyboard :=
  [ [ {| label := label_of p "jobs_au" "Jobs AU";
         callback_data := "sub:toggle:jobs_au" |};
      {| label := label_of p "jobs_in" "Jobs IN";
         callback_data := "sub:toggle:jobs_in" |} ];
    [ {| label := label_of p "ai_tools" "AI Tools";
         callback_data := "sub:toggle:ai_tools" |} ];
    [ {| label := "✅ Done (save)"; callback_data := "sub:done" |};
      {| label := "🛑 Unsubscribe all"; callback_data := "sub:clear" |} ];
    [ {| label := "⏰ Daily at " +:+ daily_time;
         callback_data := "sub:nop" |} ] ].

Definition enabled_flags (p : prefs_t) : gset string :=
  dom (filter (λ kv, kv.2 = true) p).

(** One run of the handler on the callback [data] of user [uid]: the
    store afterwards and what is shown. Each run starts from the stored
    record. *)
Definition sub_callback (db : gmap Z user) (uid : Z) (data : string)
  : gmap Z user * option reply :=
  if bool_decide (data = "ui:open_subscribe") then
    let p := prefs_of (get_user db uid) in
    (db, Some (edit_message_text "Choose what you want to receive daily:"
                 (Some (build_subscribe_keyboard p))))
  else
    let p := prefs_of (get_user db uid) in
    if bool_decide (data = "sub:nop") then (db, None)
    else if bool_decide (data = "sub:clear") then
      let p := no_prefs in
      (upsert_user db uid p,
       Some (edit_message_text "Unsubscribed from all." None))
    else if bool_decide (data = "sub:done") then
      (upsert_user db uid p, Some (edit_saved (enabled_flags p)))
    else
      match strip_prefix (T "sub:toggle:") (T data) with
      | Some key =>
          let key := str key in
          let v := negb (flag p key) in
          let p := <[key := v]> p in
          (assign_in_store mode db uid key v,
           Some (edit_message_reply_markup (build_subscribe_keyboard p)))
      | None => (db, None)
      end.

(** A session of button presses, one handler run after the other. *)
Fixpoint run_callbacks (db : gmap Z user) (uid : Z) (presses : list string)
  : gmap Z user * list (option reply) :=
  match presses with
  | [] => (db, [])
  | d :: ds =>
      let '(db1, r) := sub_callback db uid d in
      let '(db2, rs) := run_callbacks db1 uid ds in
      (db2, r :: rs)
  end.

End Subscription.

Definition one_user (uid : Z) (p : prefs_t) : gmap Z user :=
  {[ uid := {| user_id := uid; user_prefs := Some p |} ]}.

(** ** External calls

    A handler talks to the job and tool providers and to the chat
    transport. Each call either returns or raises; the calls made are kept
    in a trace, in order. *)

Inductive dest := to_chat (uid : Z) | to_channel (id : string).

Inductive event :=
  | ev_get_jobs (keyword country : string) (location : option string)
  | ev_get_ai_tools
  | ev_send (d : dest) (msg : string).

Inductive outcome (A : Type) := returned (a : A) | raised.
Arguments returned {A} a.
Arguments raised {A}.

(** A computation: the calls it made and how it ended. *)
Definition io (A : Type) : Type := list event * outcome A.

Definition ret {A} (a : A) : io A := ([], returned a).

Definition bind {A B} (k : A -> io B) (m : io A) : io B :=
  match m with
  | (tr, returned a) => let '(tr', r) := k a in (tr ++ tr', r)
  | (tr, raised) => (tr, raised)
  end.

#[global] Instance io_ret : MRet io := @ret.
#[global] Instance io_bind : MBind io := @bind.

(** [try: m  except Exception: (log)] *)
Definition try_except (m : io unit) : io unit :=
  match m with
  | (tr, _) => (tr, returned tt)
  end.

(** [for x in xs: body(x)] *)
Fixpoint for_each {A} (xs : list A) (body : A -> io unit) : io unit :=
  match xs with
  | [] => ret tt
  | x :: xs' => body x;; for_each xs' body
  end.

Definition trace {A} (m : io A) : list event := m.1.
Definition result {A} (m : io A) : outcome A := m.2.

Definition is_send (e : event) : bool :=
  match e with ev_send _ _ => true | _ => false end.

(** The delivery attempts of a run. *)
Definition sends {A} (m : io A) : list event := filter is_send (trace m).

Definition nl : string := String (ascii_of_nat 10) EmptyString.

(** [sep.join(parts)] on strings *)
Fixpoint join_str (sep : string) (parts : list string) : string :=
  match parts with
  | [] => EmptyString
  | [p] => p
  | p :: ps => p +:+ sep +:+ join_str sep ps
  end.

(** [s.strip()] as a condition *)
Definition nonblank (s : string) : bool :=
  match strip (T s) with [] => false | _ => true end.

Definition separator : string := nl +:+ nl +:+ "—" +:+ nl +:+ nl.

Definition title_au : string := "🔥 <b>AU Jobs</b>:" +:+ nl +:+ nl.
Definition title_in : string := "🔥 <b>India Jobs</b>:" +:+ nl +:+ nl.
Definition title_tools : string := "🤖 <b>AI Tools</b>:" +:+ nl +:+ nl.

Section Handlers.

Variables job tool : Type.

(** The collaborators of [jobs_api], [ai_tools], [utils] and the bot. The
    formatters are taken to return. *)
Variable jobs_api : string -> string -> option string -> outcome (list job).
Variable ai_tools_api : outcome (list tool).
Variable format_jobs : list job -> string.
Variable format_tools : list tool -> string.
Variable delivers : dest -> string -> bool.

(** [CHANNEL_ID] of [config.py]: unset, or a string (the empty string is
    falsy as well). *)
Variable CHANNEL_ID : option string.

Definition get_jobs (keyword country : string) (location : option string)
  : io (list job) :=
  ([ev_get_jobs keyword country location], jobs_api keyword country location).

Definition get_ai_tools : io (list tool) :=
  ([ev_get_ai_tools], ai_tools_api).

(** [app.bot.send_message(chat_id=d, text=msg, ...)] *)
Definition send_message (d : dest) (msg : string) : io unit :=
  ([ev_send d msg], if delivers d msg then returned tt else raised).

(** *** [post_channel_summary] *)
Definition post_channel_summary : io unit :=
  match CHANNEL_ID with
  | None | Some EmptyString => ret tt
  | Some ch =>
      let parts := [] in
      js ← get_jobs "software engineer" "AU" None;
      let au := format_jobs js in
      let parts := if nonblank au then parts ++ [title_au +:+ au] else parts in
      js ← get_jobs "software engineer" "IN" None;
      let in_ := format_jobs js in
      let parts := if nonblank in_ then parts ++ [title_in +:+ in_] else parts in
      ts ← get_ai_tools;
      let tools := format_tools ts in
      let parts :=
        if nonblank tools then parts ++ [title_tools +:+ tools] else parts in
      match parts with
      | [] => mret tt
      | _ => try_except (send_message (to_channel ch) (join_str separator parts))
      end
  end.

(** *** [push_daily_job] *)

(** The body of [for row in all_users()]. *)
Definition push_one (row : user) : io unit :=
  let uid := user_id row in
  let p := default ∅ (user_prefs row) in
  if negb (any_flag p) then ret tt
  else
    let parts := [] in
    parts ← (if flag p "jobs_au" then
                js ← get_jobs "software engineer" "AU" None;
                mret (parts ++ [title_au +:+ format_jobs js])
              else mret parts);
    parts ← (if flag p "jobs_in" then
                js ← get_jobs "software engineer" "IN" None;
                mret (parts ++ [title_in +:+ format_jobs js])
              else mret parts);
    parts ← (if flag p "ai_tools" then
                ts ← get_ai_tools;
                mret (parts ++ [title_tools +:+ format_tools ts])
              else mret parts);
    match parts with
    | [] => ret tt
    | _ => try_except (send_message (to_chat uid) (join_str separator parts))
    end.

Definition push_daily_job (all_users : list user) : io unit :=
  for_each all_users push_one;;
  post_channel_summary.

(** *** [text_search] *)

Definition other_country (cc : string) : string :=
  if bool_decide (cc = "AU") then "IN" else "AU".

Definition header (kw cc : string) (loc : option string) : string :=
  "🔎 <b>Jobs for “" +:+ kw +:+ "” — " +:+ cc +:+ "</b>"
  +:+ match loc with
      | None | Some EmptyString => EmptyString
      | Some l => " — " +:+ l
      end.

(** [chat] is the chat the message came from; [update.message.reply_text]
    sends to it. *)
Definition text_search (chat : Z) (txt : string) : io unit :=
  let '(kw, cc, loc) := parse_free_text_to_query txt in
  results ← get_jobs kw cc loc;
  '(results, cc) ←
    match results with
    | [] =>
        let try_cc := other_country cc in
        results ← get_jobs kw try_cc loc;
        mret (results, match results with [] => cc | _ => try_cc end)
    | _ => mret (results, cc)
    end;
  let msg := header kw cc loc +:+ nl +:+ nl
             +:+ match results with
                 | [] => "No results found."
                 | _ => format_jobs results
                 end in
  send_message (to_chat chat) msg.

End Handlers.

(** ** The commands

    A command handler gets the user id, the chat the message came from and
    the arguments that followed the command. Where a handler writes to the
    store it does so first, before any other call, so the store afterwards
    is given beside the calls. *)

(** A reply with optional buttons: [update.message.reply_text(msg,
    reply_markup=...)]. *)
Record cmd_reply := { reply_msg : string; reply_keyboard : option keyboard }.

(** [", ".join([k for k, v in prefs.items() if v]) or "(none)"], for the
    dict literal of [subscribe], whose keys come in the order written. *)
Definition pretty (p : prefs_t) : string :=
  match filter (λ k, flag p k = true) ["jobs_au"; "jobs_in"; "ai_tools"] with
  | [] => "(none)"
  | ks => join_str ", " ks
  end.

(** [str(b)] of a Python bool *)
Definition py_bool (b : bool) : string := if b then "True" else "False".

(** A button of the start keyboard: with callback data, or with a link. *)
Inductive start_button :=
  | callback_button (label data : string)
  | url_button (label url : string).

(** [s.lstrip('@')] *)
Fixpoint lstrip_at (s : string) : string :=
  match s with
  | String c s' => if Char.eqb c "@"%char then lstrip_at s' else s
  | EmptyString => EmptyString
  end.

Section Commands.

Variables job tool : Type.
Variable jobs_api : string -> string -> option string -> outcome (list job).
Variable ai_tools_api : outcome (list tool).
Variable format_jobs : list job -> string.
Variable format_tools : list tool -> string.
Variable delivers : dest -> string -> bool.
Variable CHANNEL_ID : option string.
Variable daily_time : string.

(** [update.message.reply_text(msg, ...)] *)
Definition reply_text (chat : Z) (msg : string) : io unit :=
  send_message delivers (to_chat chat) msg.

Definition start_keyboard : list (list start_button) :=
  let buttons := [[callback_button "✅ Subscribe" "ui:open_subscribe"]] in
  match CHANNEL_ID with
  | None | Some EmptyString => buttons
  | Some ch =>
      buttons ++ [[url_button "📢 Open Channel" ("https://t.me/" +:+ lstrip_at ch)]]
  end.

(** [context.args] are strings; [None] of [parse_jobs_args] is its
    [IndexError]. *)
Definition jobs (chat : Z) (args : list string) : io unit :=
  match parse_jobs_args (T <$> args) with
  | None => ([], raised)
  | Some (kw, cc, loc) =>
      let '(kw, cc, loc) := (str kw, str cc, str <$> loc) in
      results ← get_jobs job jobs_api kw cc loc;
      let hd := header kw cc loc in
      match results with
      | [] => reply_text chat (hd +:+ nl +:+ nl +:+ "No results found.")
      | _ => reply_text chat (hd +:+ nl +:+ nl +:+ format_jobs results)
      end
  end.

Definition jobs_au (db : gmap Z user) (uid chat : Z) : gmap Z user * io unit :=
  (upsert_user db uid {["jobs_au" := true]},
   jobs_list ← get_jobs job jobs_api "software engineer" "AU" None;
   reply_text chat
     ("🔥 <b>Today's AU jobs</b>:" +:+ nl +:+ nl +:+ format_jobs jobs_list)).

Definition jobs_in (db : gmap Z user) (uid chat : Z) : gmap Z user * io unit :=
  (upsert_user db uid {["jobs_in" := true]},
   jobs_list ← get_jobs job jobs_api "software engineer" "IN" None;
   reply_text chat
     ("🔥 <b>Today's India jobs</b>:" +:+ nl +:+ nl +:+ format_jobs jobs_list)).

Definition aitools (db : gmap Z user) (uid chat : Z) : gmap Z user * io unit :=
  (upsert_user db uid {["ai_tools" := true]},
   tools ← get_ai_tools tool ai_tools_api;
   reply_text chat
     ("🤖 <b>Trending AI tools</b>:" +:+ nl +:+ nl +:+ format_tools tools)).

Definition both (db : gmap Z user) (uid chat : Z) : gmap Z user * io unit :=
  (upsert_user db uid (<["jobs_au" := true]> {["ai_tools" := true]}),
   jobs_list ← get_jobs job jobs_api "software engineer" "AU" None;
   tools ← get_ai_tools tool ai_tools_api;
   let msg := "🔥 <b>AU Jobs</b>:" +:+ nl +:+ nl +:+ format_jobs jobs_list
              +:+ nl +:+ nl +:+ "—" +:+ nl +:+ nl
              +:+ "🤖 <b>AI Tools</b>:" +:+ nl +:+ nl +:+ format_tools tools in
   reply_text chat msg).

Definition subscribe (db : gmap Z user) (uid : Z) (args : list string)
  : gmap Z user * cmd_reply :=
  let args := (λ a, str (lower (T a))) <$> args in
  match args with
  | _ :: _ =>
      let p := no_prefs in
      let p := if bool_decide ("jobs_au" ∈ args) then <["jobs_au" := true]> p else p in
      let p := if bool_decide ("jobs_in" ∈ args) then <["jobs_in" := true]> p else p in
      let p := if bool_decide ("ai_tools" ∈ args) then <["ai_tools" := true]> p else p in
      (upsert_user db uid p,
       {| reply_msg := "Subscribed to: " +:+ pretty p +:+ ".";
          reply_keyboard := None |})
  | [] =>
      let p := prefs_of (get_user db uid) in
      (db,
       {| reply_msg := "Choose what you want daily:";
          reply_keyboard := Some (build_subscribe_keyboard daily_time p) |})
  end.

Definition unsubscribe (db : gmap Z user) (uid : Z) : gmap Z user * cmd_reply :=
  (upsert_user db uid no_prefs,
   {| reply_msg := "Unsubscribed from all daily pushes.";
      reply_keyboard := None |}).

(** The text of the reply of [prefs]; [raised] is the [KeyError] of
    [user["prefs"]] or of [p['jobs_au']] and the like. *)
Definition prefs (db : gmap Z user) (uid : Z) : outcome string :=
  let u := get_user db uid in
  match user_prefs u with
  | None => raised
  | Some p =>
      match p !! "jobs_au", p !! "jobs_in", p !! "ai_tools" with
      | Some a, Some i, Some t =>
          returned
            ("Your preferences:" +:+ nl
             +:+ "• jobs_au: " +:+ py_bool a +:+ nl
             +:+ "• jobs_in: " +:+ py_bool i +:+ nl
             +:+ "• ai_tools: " +:+ py_bool t +:+ nl
             +:+ "Daily: " +:+ daily_time)
      | _, _, _ => raised
      end
  end.

(** [all_users] is what [all_users()] returns when the job runs. *)
Definition pushnow (chat : Z) (all_users : list user) : io unit :=
  push_daily_job job tool jobs_api ai_tools_api format_jobs format_tools
    delivers CHANNEL_ID all_users;;
  reply_text chat "Pushed now.".

Definition postchannel (chat : Z) : io unit :=
  match CHANNEL_ID with
  | None | Some EmptyString => reply_text chat "CHANNEL_ID not set in .env."
  | Some _ =>
      post_channel_summary job tool jobs_api ai_tools_api format_jobs
        format_tools delivers CHANNEL_ID;;
      reply_text chat "Posted to channel."
  end.

End Commands.

(** ** Country detection on every [str]

    Whether a word stands alone and whether it is "au", "australia" or
    "india" in some case depends on characters beyond U+00FF: the class
    [\w] that decides [\b] is Unicode's, and [re.I] lets U+0130 and U+0131
    stand for "i" and U+017F for "s". For what is stated about the country,
    [parse_free_text_to_query] is therefore embedded a second time, over
    sequences of code points, the [str] of Python as it is. The class [\w]
    comes from the Unicode data of the interpreter: it is a parameter of
    this embedding, and the table of CPython 3.11 (Unicode 14.0.0) is given
    beside it. *)

Module Unicode.

Local Open Scope N_scope.

(** A text: its code points. *)
Abbreviation utext := (list N).

(** UTF-8, to write the literals of this file as texts. *)
Fixpoint utf8 (bs : list N) : utext :=
  match bs with
  | [] => []
  | b :: bs1 =>
      if b <? 192 then b :: utf8 bs1
      else
        match bs1 with
        | [] => [b]
        | b1 :: bs2 =>
            if b <? 224 then ((b - 192) * 64 + (b1 - 128)) :: utf8 bs2
            else
              match bs2 with
              | [] => [b; b1]
              | b2 :: bs3 =>
                  if b <? 240 then
                    ((b - 224) * 4096 + (b1 - 128) * 64 + (b2 - 128))
                      :: utf8 bs3
                  else
                    match bs3 with
                    | [] => [b; b1; b2]
                    | b3 :: bs4 =>
                        ((b - 240) * 262144 + (b1 - 128) * 4096
                         + (b2 - 128) * 64 + (b3 - 128)) :: utf8 bs4
                    end
              end
        end
  end.

(** A literal of the source as a text. *)
Definition T (s : string) : utext :=
  utf8 (map N_of_ascii (list_ascii_of_string s)).

(** *** Character classes *)

Definition between (lo hi c : N) : bool := (lo <=? c) && (c <=? hi).

(** [str.isspace], the white space of [str.strip] and the class [\s]. *)
Definition is_space (c : N) : bool :=
  between 9 13 c || between 28 32 c || (c =? 133) || (c =? 160)
  || (c =? 5760) || between 8192 8202 c || between 8232 8233 c
  || (c =? 8239) || (c =? 8287) || (c =? 12288).

Definition is_upper (c : N) : bool := between 65 90 c.
Definition is_lower (c : N) : bool := between 97 122 c.

(** The class [[A-Za-z]]. *)
Definition is_letter (c : N) : bool := is_upper c || is_lower c.

(** The class [[,\.;:]]. *)
Definition is_punct (c : N) : bool :=
  (c =? 44) || (c =? 46) || (c =? 59) || (c =? 58).

(** The class [[A-Za-z\s]]. *)
Definition is_loc_char (c : N) : bool := is_letter c || is_space c.

(** [re.I] on the letters a..z of a pattern: a letter of the pattern
    matches the code points that this function sends to it, which are the
    letter, its capital and, for "i", U+0130 and U+0131, for "s", U+017F,
    for "k", U+212A. *)
Definition fold_case (c : N) : N :=
  if is_upper c then c + 32
  else if (c =? 304) || (c =? 305) then 105
  else if c =? 383 then 115
  else if c =? 8490 then 107
  else c.

Definition fold (t : utext) : utext := map fold_case t.

(** The class [\w] of CPython 3.11 (Unicode 14.0.0), alphanumeric or
    underscore, as ranges of code points. *)
Definition word_ranges : list (N * N) :=
  [(48, 57); (65, 90); (95, 95); (97, 122); (170, 170); (178, 179);
   (181, 181); (185, 186); (188, 190); (192, 214); (216, 246); (248, 705);
   (710, 721); (736, 740); (748, 748); (750, 750); (880, 884); (886, 887);
   (890, 893); (895, 895); (902, 902); (904, 906); (908, 908); (910, 929);
   (931, 1013); (1015, 1153); (1162, 1327); (1329, 1366); (1369, 1369);
   (1376, 1416); (1488, 1514); (1519, 1522); (1568, 1610); (1632, 1641);
   (1646, 1647); (1649, 1747); (1749, 1749); (1765, 1766); (1774, 1788);
   (1791, 1791); (1808, 1808); (1810, 1839); (1869, 1957); (1969, 1969);
   (1984, 2026); (2036, 2037); (2042, 2042); (2048, 2069); (2074, 2074);
   (2084, 2084); (2088, 2088); (2112, 2136); (2144, 2154); (2160, 2183);
   (2185, 2190); (2208, 2249); (2308, 2361); (2365, 2365); (2384, 2384);
   (2392, 2401); (2406, 2415); (2417, 2432); (2437, 2444); (2447, 2448);
   (2451, 2472); (2474, 2480); (2482, 2482); (2486, 2489); (2493, 2493);
   (2510, 2510); (2524, 2525); (2527, 2529); (2534, 2545); (2548, 2553);
   (2556, 2556); (2565, 2570); (2575, 2576); (2579, 2600); (2602, 2608);
   (2610, 2611); (2613, 2614); (2616, 2617); (2649, 2652); (2654, 2654);
   (2662, 2671); (2674, 2676); (2693, 2701); (2703, 2705); (2707, 2728);
   (2730, 2736); (2738, 2739); (2741, 2745); (2749, 2749); (2768, 2768);
   (2784, 2785); (2790, 2799); (2809, 2809); (2821, 2828); (2831, 2832);
   (2835, 2856); (2858, 2864); (2866, 2867); (2869, 2873); (2877, 2877);
   (2908, 2909); (2911, 2913); (2918, 2927); (2929, 2935); (2947, 2947);
   (2949, 2954); (2958, 2960); (2962, 2965); (2969, 2970); (2972, 2972);
   (2974, 2975); (2979, 2980); (2984, 2986); (2990, 3001); (3024, 3024);
   (3046, 3058); (3077, 3084); (3086, 3088); (3090, 3112); (3114, 3129);
   (3133, 3133); (3160, 3162); (3165, 3165); (3168, 3169); (3174, 3183);
   (3192, 3198); (3200, 3200); (3205, 3212); (3214, 3216); (3218, 3240);
   (3242, 3251); (3253, 3257); (3261, 3261); (3293, 3294); (3296, 3297);
   (3302, 3311); (3313, 3314); (3332, 3340); (3342, 3344); (3346, 3386);
   (3389, 3389); (3406, 3406); (3412, 3414); (3416, 3425); (3430, 3448);
   (3450, 3455); (3461, 3478); (3482, 3505); (3507, 3515); (3517, 3517);
   (3520, 3526); (3558, 3567); (3585, 3632); (3634, 3635); (3648, 3654);
   (3664, 3673); (3713, 3714); (3716, 3716); (3718, 3722); (3724, 3747);
   (3749, 3749); (3751, 3760); (3762, 3763); (3773, 3773); (3776, 3780);
   (3782, 3782); (3792, 3801); (3804, 3807); (3840, 3840); (3872, 3891);
   (3904, 3911); (3913, 3948); (3976, 3980); (4096, 4138); (4159, 4169);
   (4176, 4181); (4186, 4189); (4193, 4193); (4197, 4198); (4206, 4208);
   (4213, 4225); (4238, 4238); (4240, 4249); (4256, 4293); (4295, 4295);
   (4301, 4301); (4304, 4346); (4348, 4680); (4682, 4685); (4688, 4694);
   (4696, 4696); (4698, 4701); (4704, 4744); (4746, 4749); (4752, 4784);
   (4786, 4789); (4792, 4798); (4800, 4800); (4802, 4805); (4808, 4822);
   (4824, 4880); (4882, 4885); (4888, 4954); (4969, 4988); (4992, 5007);
   (5024, 5109); (5112, 5117); (5121, 5740); (5743, 5759); (5761, 5786);
   (5792, 5866); (5870, 5880); (5888, 5905); (5919, 5937); (5952, 5969);
   (5984, 5996); (5998, 6000); (6016, 6067); (6103, 6103); (6108, 6108);
   (6112, 6121); (6128, 6137); (6160, 6169); (6176, 6264); (6272, 6276);
   (6279, 6312); (6314, 6314); (6320, 6389); (6400, 6430); (6470, 6509);
   (6512, 6516); (6528, 6571); (6576, 6601); (6608, 6618); (6656, 6678);
   (6688, 6740); (6784, 6793); (6800, 6809); (6823, 6823); (6917, 6963);
   (6981, 6988); (6992, 7001); (7043, 7072); (7086, 7141); (7168, 7203);
   (7232, 7241); (7245, 7293); (7296, 7304); (7312, 7354); (7357, 7359);
   (7401, 7404); (7406, 7411); (7413, 7414); (7418, 7418); (7424, 7615);
   (7680, 7957); (7960, 7965); (7968, 8005); (8008, 8013); (8016, 8023);
   (8025, 8025); (8027, 8027); (8029, 8029); (8031, 8061); (8064, 8116);
   (8118, 8124); (8126, 8126); (8130, 8132); (8134, 8140); (8144, 8147);
   (8150, 8155); (8160, 8172); (8178, 8180); (8182, 8188); (8304, 8305);
   (8308, 8313); (8319, 8329); (8336, 8348); (8450, 8450); (8455, 8455);
   (8458, 8467); (8469, 8469); (8473, 8477); (8484, 8484); (8486, 8486);
   (8488, 8488); (8490, 8493); (8495, 8505); (8508, 8511); (8517, 8521);
   (8526, 8526); (8528, 8585); (9312, 9371); (9450, 9471); (10102, 10131);
   (11264, 11492); (11499, 11502); (11506, 11507); (11517, 11517);
   (11520, 11557); (11559, 11559); (11565, 11565); (11568, 11623);
   (11631, 11631); (11648, 11670); (11680, 11686); (11688, 11694);
   (11696, 11702); (11704, 11710); (11712, 11718); (11720, 11726);
   (11728, 11734); (11736, 11742); (11823, 11823); (12293, 12295);
   (12321, 12329); (12337, 12341); (12344, 12348); (12353, 12438);
   (12445, 12447); (12449, 12538); (12540, 12543); (12549, 12591);
   (12593, 12686); (12690, 12693); (12704, 12735); (12784, 12799);
   (12832, 12841); (12872, 12879); (12881, 12895); (12928, 12937);
   (12977, 12991); (13312, 19903); (19968, 42124); (42192, 42237);
   (42240, 42508); (42512, 42539); (42560, 42606); (42623, 42653);
   (42656, 42735); (42775, 42783); (42786, 42888); (42891, 42954);
   (42960, 42961); (42963, 42963); (42965, 42969); (42994, 43009);
   (43011, 43013); (43015, 43018); (43020, 43042); (43056, 43061);
   (43072, 43123); (43138, 43187); (43216, 43225); (43250, 43255);
   (43259, 43259); (43261, 43262); (43264, 43301); (43312, 43334);
   (43360, 43388); (43396, 43442); (43471, 43481); (43488, 43492);
   (43494, 43518); (43520, 43560); (43584, 43586); (43588, 43595);
   (43600, 43609); (43616, 43638); (43642, 43642); (43646, 43695);
   (43697, 43697); (43701, 43702); (43705, 43709); (43712, 43712);
   (43714, 43714); (43739, 43741); (43744, 43754); (43762, 43764);
   (43777, 43782); (43785, 43790); (43793, 43798); (43808, 43814);
   (43816, 43822); (43824, 43866); (43868, 43881); (43888, 44002);
   (44016, 44025); (44032, 55203); (55216, 55238); (55243, 55291);
   (63744, 64109); (64112, 64217); (64256, 64262); (64275, 64279);
   (64285, 64285); (64287, 64296); (64298, 64310); (64312, 64316);
   (64318, 64318); (64320, 64321); (64323, 64324); (64326, 64433);
   (64467, 64829); (64848, 64911); (64914, 64967); (65008, 65019);
   (65136, 65140); (65142, 65276); (65296, 65305); (65313, 65338);
   (65345, 65370); (65382, 65470); (65474, 65479); (65482, 65487);
   (65490, 65495); (65498, 65500); (65536, 65547); (65549, 65574);
   (65576, 65594); (65596, 65597); (65599, 65613); (65616, 65629);
   (65664, 65786); (65799, 65843); (65856, 65912); (65930, 65931);
   (66176, 66204); (66208, 66256); (66273, 66299); (66304, 66339);
   (66349, 66378); (66384, 66421); (66432, 66461); (66464, 66499);
   (66504, 66511); (66513, 66517); (66560, 66717); (66720, 66729);
   (66736, 66771); (66776, 66811); (66816, 66855); (66864, 66915);
   (66928, 66938); (66940, 66954); (66956, 66962); (66964, 66965);
   (66967, 66977); (66979, 66993); (66995, 67001); (67003, 67004);
   (67072, 67382); (67392, 67413); (67424, 67431); (67456, 67461);
   (67463, 67504); (67506, 67514); (67584, 67589); (67592, 67592);
   (67594, 67637); (67639, 67640); (67644, 67644); (67647, 67669);
   (67672, 67702); (67705, 67742); (67751, 67759); (67808, 67826);
   (67828, 67829); (67835, 67867); (67872, 67897); (67968, 68023);
   (68028, 68047); (68050, 68096); (68112, 68115); (68117, 68119);
   (68121, 68149); (68160, 68168); (68192, 68222); (68224, 68255);
   (68288, 68295); (68297, 68324); (68331, 68335); (68352, 68405);
   (68416, 68437); (68440, 68466); (68472, 68497); (68521, 68527);
   (68608, 68680); (68736, 68786); (68800, 68850); (68858, 68899);
   (68912, 68921); (69216, 69246); (69248, 69289); (69296, 69297);
   (69376, 69415); (69424, 69445); (69457, 69460); (69488, 69505);
   (69552, 69579); (69600, 69622); (69635, 69687); (69714, 69743);
   (69745, 69746); (69749, 69749); (69763, 69807); (69840, 69864);
   (69872, 69881); (69891, 69926); (69942, 69951); (69956, 69956);
   (69959, 69959); (69968, 70002); (70006, 70006); (70019, 70066);
   (70081, 70084); (70096, 70106); (70108, 70108); (70113, 70132);
   (70144, 70161); (70163, 70187); (70272, 70278); (70280, 70280);
   (70282, 70285); (70287, 70301); (70303, 70312); (70320, 70366);
   (70384, 70393); (70405, 70412); (70415, 70416); (70419, 70440);
   (70442, 70448); (70450, 70451); (70453, 70457); (70461, 70461);
   (70480, 70480); (70493, 70497); (70656, 70708); (70727, 70730);
   (70736, 70745); (70751, 70753); (70784, 70831); (70852, 70853);
   (70855, 70855); (70864, 70873); (71040, 71086); (71128, 71131);
   (71168, 71215); (71236, 71236); (71248, 71257); (71296, 71338);
   (71352, 71352); (71360, 71369); (71424, 71450); (71472, 71483);
   (71488, 71494); (71680, 71723); (71840, 71922); (71935, 71942);
   (71945, 71945); (71948, 71955); (71957, 71958); (71960, 71983);
   (71999, 71999); (72001, 72001); (72016, 72025); (72096, 72103);
   (72106, 72144); (72161, 72161); (72163, 72163); (72192, 72192);
   (72203, 72242); (72250, 72250); (72272, 72272); (72284, 72329);
   (72349, 72349); (72368, 72440); (72704, 72712); (72714, 72750);
   (72768, 72768); (72784, 72812); (72818, 72847); (72960, 72966);
   (72968, 72969); (72971, 73008); (73030, 73030); (73040, 73049);
   (73056, 73061); (73063, 73064); (73066, 73097); (73112, 73112);
   (73120, 73129); (73440, 73458); (73648, 73648); (73664, 73684);
   (73728, 74649); (74752, 74862); (74880, 75075); (77712, 77808);
   (77824, 78894); (82944, 83526); (92160, 92728); (92736, 92766);
   (92768, 92777); (92784, 92862); (92864, 92873); (92880, 92909);
   (92928, 92975); (92992, 92995); (93008, 93017); (93019, 93025);
   (93027, 93047); (93053, 93071); (93760, 93846); (93952, 94026);
   (94032, 94032); (94099, 94111); (94176, 94177); (94179, 94179);
   (94208, 100343); (100352, 101589); (101632, 101640); (110576, 110579);
   (110581, 110587); (110589, 110590); (110592, 110882); (110928, 110930);
   (110948, 110951); (110960, 111355); (113664, 113770); (113776, 113788);
   (113792, 113800); (113808, 113817); (119520, 119539); (119648, 119672);
   (119808, 119892); (119894, 119964); (119966, 119967); (119970, 119970);
   (119973, 119974); (119977, 119980); (119982, 119993); (119995, 119995);
   (119997, 120003); (120005, 120069); (120071, 120074); (120077, 120084);
   (120086, 120092); (120094, 120121); (120123, 120126); (120128, 120132);
   (120134, 120134); (120138, 120144); (120146, 120485); (120488, 120512);
   (120514, 120538); (120540, 120570); (120572, 120596); (120598, 120628);
   (120630, 120654); (120656, 120686); (120688, 120712); (120714, 120744);
   (120746, 120770); (120772, 120779); (120782, 120831); (122624, 122654);
   (123136, 123180); (123191, 123197); (123200, 123209); (123214, 123214);
   (123536, 123565); (123584, 123627); (123632, 123641); (124896, 124902);
   (124904, 124907); (124909, 124910); (124912, 124926); (124928, 125124);
   (125127, 125135); (125184, 125251); (125259, 125259); (125264, 125273);
   (126065, 126123); (126125, 126127); (126129, 126132); (126209, 126253);
   (126255, 126269); (126464, 126467); (126469, 126495); (126497, 126498);
   (126500, 126500); (126503, 126503); (126505, 126514); (126516, 126519);
   (126521, 126521); (126523, 126523); (126530, 126530); (126535, 126535);
   (126537, 126537); (126539, 126539); (126541, 126543); (126545, 126546);
   (126548, 126548); (126551, 126551); (126553, 126553); (126555, 126555);
   (126557, 126557); (126559, 126559); (126561, 126562); (126564, 126564);
   (126567, 126570); (126572, 126578); (126580, 126583); (126585, 126588);
   (126590, 126590); (126592, 126601); (126603, 126619); (126625, 126627);
   (126629, 126633); (126635, 126651); (127232, 127244); (130032, 130041);
   (131072, 173791); (173824, 177976); (177984, 178205); (178208, 183969);
   (183984, 191456); (194560, 195101); (196608, 201546)].

Definition unicode_word (c : N) : bool :=
  existsb (λ r, between r.1 r.2 c) word_ranges.

(** *** Texts and patterns *)

Fixpoint lstrip (t : utext) : utext :=
  match t with
  | c :: t' => if is_space c then lstrip t' else t
  | [] => []
  end.

Definition rstrip (t : utext) : utext := reverse (lstrip (reverse t)).

(** [str.strip()] *)
Definition strip (t : utext) : utext := rstrip (lstrip t).

Fixpoint strip_prefix (p s : utext) : option utext :=
  match p, s with
  | [], _ => Some s
  | a :: p', c :: s' => if a =? c then strip_prefix p' s' else None
  | _ :: _, [] => None
  end.

(** A pattern at a position: the character before, the text from there
    on; the length of the match. *)
Definition matcher := option N -> utext -> option nat.

(** [re.sub(pattern, repl, t)] *)
Fixpoint re_sub_go (m : matcher) (repl : utext) (prev : option N)
    (skip : nat) (t : utext) : utext :=
  match t with
  | [] => []
  | c :: t' =>
      match skip with
      | S k => re_sub_go m repl (Some c) k t'
      | O =>
          match m prev t with
          | Some (S k) => repl ++ re_sub_go m repl (Some c) k t'
          | _ => c :: re_sub_go m repl (Some c) O t'
          end
      end
  end.

Definition re_sub (m : matcher) (repl : utext) (t : utext) : utext :=
  re_sub_go m repl None O t.

(** [re.search(pattern, t)]: the text of the leftmost match. *)
Fixpoint re_search_go (m : matcher) (prev : option N) (t : utext)
  : option utext :=
  match t with
  | [] => None
  | c :: t' =>
      match m prev t with
      | Some n => Some (take n t)
      | None => re_search_go m (Some c) t'
      end
  end.

Definition re_search (m : matcher) (t : utext) : option utext :=
  re_search_go m None t.

Fixpoint run_length (cls : N -> bool) (t : utext) : nat :=
  match t with
  | c :: t' => if cls c then S (run_length cls t') else O
  | [] => O
  end.

Definition m_run (cls : N -> bool) : matcher :=
  fun _ t => match run_length cls t with O => None | n => Some n end.

(** [[,\.;:]+] and [\s+] *)
Definition m_punct : matcher := m_run is_punct.
Definition m_spaces : matcher := m_run is_space.

(** [loc=[A-Za-z\s]+], case-sensitive *)
Definition m_loc : matcher :=
  fun _ t =>
    match strip_prefix (T "loc=") t with
    | Some rest =>
        match run_length is_loc_char rest with
        | O => None
        | n => Some (4 + n)%nat
        end
    | None => None
    end.

Definition loc_group1 (m0 : utext) : utext := drop 4 m0.

(** A lower-case literal under [re.I]. *)
Fixpoint match_lit_ci (w : utext) (prev : option N) (t : utext)
  : option (option N * utext) :=
  match w, t with
  | [], _ => Some (prev, t)
  | a :: w', c :: t' =>
      if fold_case c =? a then match_lit_ci w' (Some c) t' else None
  | _ :: _, [] => None
  end.

Definition au_words : list utext := [T "au"; T "australia"].
Definition india_words : list utext := [T "india"].

(** Lines 49-51. *)
Definition normalize (txt : utext) : utext :=
  let t := strip txt in
  let t := re_sub m_punct (T " ") t in
  strip (re_sub m_spaces (T " ") t).

(** Lines 63-66. *)
Definition extract_location (t : utext) : option utext * utext :=
  match re_search m_loc t with
  | Some m0 => (Some (strip (loc_group1 m0)), strip (re_sub m_loc [] t))
  | None => (None, t)
  end.

(** *** Words in any case *)

(** [c] is the letter [a] of a..z in some case: the letter, its capital,
    or one of the characters that count as a case of it, U+0130 and U+0131
    for "i", U+017F for "s", U+212A for "k". *)
Definition in_any_case (a c : N) : bool :=
  (c =? a) || (is_lower a && (c + 32 =? a))
  || ((a =? 105) && ((c =? 304) || (c =? 305)))
  || ((a =? 115) && (c =? 383))
  || ((a =? 107) && (c =? 8490)).

(** [x] is the word [w], written in lower case, in some case. *)
Fixpoint same_word (w x : utext) : bool :=
  match w, x with
  | [], [] => true
  | a :: w', c :: x' => in_any_case a c && same_word w' x'
  | _, _ => false
  end.

Section Words.

(** The class [\w]. *)
Variable is_word : N -> bool.

(** [\b]: exactly one of the two neighbours is a word character. *)
Definition opt_is_word (c : option N) : bool :=
  match c with Some c => is_word c | None => false end.

Definition word_boundary (prev : option N) (t : utext) : bool :=
  xorb (opt_is_word prev) (opt_is_word (head t)).

(** [\b(w1|w2|...)\b] under [re.I]: the alternatives in order, each with
    the closing [\b]. *)
Fixpoint match_alt (ws : list utext) (prev : option N) (t : utext)
  : option nat :=
  match ws with
  | [] => None
  | w :: ws' =>
      match match_lit_ci w prev t with
      | Some (last, rest) =>
          if word_boundary last rest then Some (length w)
          else match_alt ws' prev t
      | None => match_alt ws' prev t
      end
  end.

Definition m_words (ws : list utext) : matcher :=
  fun prev t => if word_boundary prev t then match_alt ws prev t else None.

(** [\b(au|australia)\b] and [\bindia\b], both with [flags=re.I] *)
Definition m_au : matcher := m_words au_words.
Definition m_india : matcher := m_words india_words.

(** Lines 56-61: the two country checks, one after the other. *)
Definition detect_country (t : utext) : utext * utext :=
  let country := T "AU" in
  let '(country, t) :=
    match re_search m_au t with
    | Some _ => (T "AU", re_sub m_au [] t)
    | None => (country, t)
    end in
  match re_search m_india t with
  | Some _ => (T "IN", re_sub m_india [] t)
  | None => (country, t)
  end.

Definition parse_free_text_to_query (txt : utext)
  : utext * utext * option utext :=
  let t := normalize txt in
  let '(country, t) := detect_country t in
  let '(location, t) := extract_location t in
  let keyword := match t with [] => T "software engineer" | _ => t end in
  (keyword, country, location).

(** *** Notions used to state the property *)

(** The words of a text: its maximal runs of word characters, from left to
    right. *)
Fixpoint words (t : utext) : list utext :=
  match t with
  | [] => []
  | c :: t' =>
      if is_word c then
        match t' with
        | c' :: _ =>
            if is_word c' then
              match words t' with
              | w :: ws => (c :: w) :: ws
              | [] => [[c]]
              end
            else [c] :: words t'
        | [] => [[c]]
        end
      else words t'
  end.

(** [t] contains [w], written in lower case, as a whole word, in any
    case. *)
Definition contains_word (w : utext) (t : utext) : Prop :=
  ∃ x, x ∈ words t ∧ same_word w x = true.

Definition contains_au_word (t : utext) : Prop :=
  contains_word (T "au") t ∨ contains_word (T "australia") t.

Definition contains_india (t : utext) : Prop := contains_word (T "india") t.

(** Every code point that is a letter a..z in some case is a word
    character. *)
Definition letters_are_words : Prop :=
  ∀ a c, is_lower a = true -> in_any_case a c = true -> is_word c = true.

End Words.

(** The words that the country checks look for. *)
Definition country_words : list utext := [T "au"; T "australia"; T "india"].

(** A word is one of them, in any case. *)
Definition is_country_word (x : utext) : bool :=
  existsb (λ w, same_word w x) country_words.

(** *** Auxiliary notions of the proofs *)

Definition last_or (prev : option N) (y : utext) : option N :=
  match last y with Some c => Some c | None => prev end.

Definition is_one_of (ws : list utext) (x : utext) : bool :=
  bool_decide (fold x ∈ ws).

(** A literal of a word pattern: letters a..z, at least one. *)
Definition literal (w : utext) : Prop :=
  w ≠ [] ∧ Forall (λ a, is_lower a = true) w.

End Unicode.

(** The code points of an 8-bit text. *)
Definition code_points (t : text) : Unicode.utext := Char.code <$> t.

(** ** Notions used to state the properties *)

(** *** Words of a text *)

(** The words of a text: its maximal runs of word characters, from left to
    right. *)
Fixpoint words (t : text) : list text :=
  match t with
  | [] => []
  | c :: t' =>
      if Char.is_word c then
        match t' with
        | c' :: _ =>
            if Char.is_word c' then
              match words t' with
              | w :: ws => (c :: w) :: ws
              | [] => [[c]]
              end
            else [c] :: words t'
        | [] => [[c]]
        end
      else words t'
  end.

(** [t] contains [w], written in lower case, as a whole word, in any case. *)
Definition contains_word (w : text) (t : text) : Prop :=
  ∃ x, x ∈ words t ∧ lower x = w.

Definition contains_au_word (t : text) : Prop :=
  contains_word (T "au") t ∨ contains_word (T "australia") t.

Definition contains_india (t : text) : Prop := contains_word (T "india") t.

(** A literal of a word pattern: lower-case letters, at least one. *)
Definition literal (w : text) : Prop :=
  w ≠ [] ∧ Forall (λ a, Char.is_lower a = true) w.

(** *** The location pattern *)

(** [t] starts with "loc=" and one character of [[A-Za-z\s]]. *)
Definition starts_loc (t : text) : Prop :=
  ∃ c s, t = T "loc=" ++ c :: s ∧ Char.is_loc_char c = true.

(** [t] is [pre], then the leftmost match "loc=" [run] of the location
    pattern, then [post]: [run] is the longest run of letters and spaces
    there, and no match starts inside [pre]. *)
Definition first_loc_match (t pre run post : text) : Prop :=
  t = pre ++ T "loc=" ++ run ++ post
  ∧ run ≠ []
  ∧ Forall (λ c, Char.is_loc_char c = true) run
  ∧ (∀ c, head post = Some c → Char.is_loc_char c = false)
  ∧ (∀ p q, pre = p ++ q → q ≠ [] → ¬ starts_loc (q ++ T "loc=" ++ run ++ post)).

Definition no_loc_match (t : text) : Prop :=
  ∀ p q, t = p ++ q → ¬ starts_loc q.

(** The text that the location step of [parse_free_text_to_query] works
    on: the input after normalization and the country checks. *)
Definition text_before_location (txt : text) : text :=
  (detect_country (normalize txt)).2.

(** *** Command arguments, in the words of the specification *)

(** A command argument as the dispatcher splits them: not empty, no white
    space. *)
Definition token (a : text) : Prop :=
  a ≠ [] ∧ Forall (λ c, Char.is_space c = false) a.

Definition is_country_token (a : text) : bool :=
  text_eqb (lower a) (T "au") || text_eqb (lower a) (T "in").

Definition is_loc_token (a : text) : bool := startswith (lower a) (T "loc=").

Definition is_keyword_token (a : text) : bool :=
  negb (is_country_token a) && negb (is_loc_token a).

(** "set country to its uppercase form (last occurrence wins)" *)
Definition spec_country (args : list text) : text :=
  match last (filter (λ a, is_country_token a = true) args) with
  | Some a => upper (lower a)
  | None => T "AU"
  end.

(** "the remainder (after the first =) becomes location (last occurrence
    wins)": the token without its four characters "loc=" *)
Definition spec_location (args : list text) : option text :=
  drop 4 <$> last (filter (λ a, is_loc_token a = true) args).

(** "Otherwise append the token to a keyword-token buffer, preserving
    order": the buffer, and the keyword made of it *)
Definition keyword_tokens (args : list text) : list text :=
  filter (λ a, is_keyword_token a = true) args.

Definition spec_keyword (args : list text) : text :=
  match keyword_tokens args with
  | [] => software_engineer
  | ts => join (T " ") ts
  end.

(** *** Preference flags *)

(** toggle(key) on a snapshot *)
Definition toggle (p : prefs_t) (key : string) : prefs_t :=
  <[key := negb (flag p key)]> p.

Definition the_flags : list string := ["jobs_au"; "jobs_in"; "ai_tools"].

(** *** Digest sections *)

(** The sections of a user's digest as [push_daily_job] builds them: one
    per enabled flag, in the fixed order, whatever the content. *)
Definition user_sections (p : prefs_t) (au in_ tools : string) : list string :=
  (if flag p "jobs_au" then [title_au +:+ au] else [])
  ++ (if flag p "jobs_in" then [title_in +:+ in_] else [])
  ++ (if flag p "ai_tools" then [title_tools +:+ tools] else []).

Definition message_to (d : dest) (sections : list string) : list event :=
  match sections with
  | [] => []
  | _ => [ev_send d (join_str separator sections)]
  end.

Definition channel_of (channel_id : option string) : option string :=
  match channel_id with
  | None | Some EmptyString => None
  | Some ch => Some ch
  end.

(** *** Auxiliary notions of the proofs *)

Definition all_chars : list ascii := map ascii_of_nat (seq 0 256).

(** The character before the position after passing [y]. *)
Definition last_or (prev : option ascii) (y : text) : option ascii :=
  match last y with Some c => Some c | None => prev end.

(** Whether a word is one of the literals, in any case. *)
Definition is_one_of (ws : list text) (x : text) : bool :=
  bool_decide (lower x ∈ ws).

Definition found {A} (o : option A) : bool :=
  match o with Some _ => true | None => false end.

Abbreviation word_chars := (Forall (λ c, Char.is_word c = true)).
Abbreviation lower_chars := (Forall (λ c, Char.is_lower c = true)).
Abbreviation loc_chars := (Forall (λ c, Char.is_loc_char c = true)).

(** The fields of a parsed query. *)
Definition keyword_of (q : text * text * option text) : text := q.1.1.
Definition country_of (q : text * text * option text) : text := q.1.2.
Definition location_of (q : text * text * option text) : option text := q.2.

(** The country and the location after the loop of [parse_jobs_args] has
    passed [args], from what they were before. *)
Definition country_after (c0 : text) (args : list text) : text :=
  match last (filter (λ a, is_country_token a = true) args) with
  | Some a => upper (lower a)
  | None => c0
  end.

Definition location_after (l0 : option text) (args : list text) : option text :=
  match last (filter (λ a, is_loc_token a = true) args) with
  | Some a => Some (drop 4 a)
  | None => l0
  end.

(** The callback data of a toggle button. *)
Definition toggle_data (key : string) : string := "sub:toggle:" +:+ key.

Definition default_keyword : string := "software engineer".

(** The titled contents of a digest, in the fixed order. *)
Definition titled (au in_ tools : string) : list (string * string) :=
  [(title_au, au); (title_in, in_); (title_tools, tools)].

(** The contents the channel summary keeps: those that are not blank. *)
Definition channel_kept (au in_ tools : string) : list (string * string) :=
  filter (λ tc, nonblank tc.2 = true) (titled au in_ tools).

Definition channel_sections (au in_ tools : string) : list string :=
  map (λ tc, tc.1 +:+ tc.2) (channel_kept au in_ tools).

(** The delivery attempt for one user, given the three contents. *)
Definition digest_attempt (u : user) (au in_ tools : string) : list event :=
  let p := default ∅ (user_prefs u) in
  if any_flag p then message_to (to_chat (user_id u)) (user_sections p au in_ tools)
  else [].

(** The delivery attempt of the channel summary. *)
Definition channel_attempt (channel_id : option string) (au in_ tools : string)
  : list event :=
  match channel_of channel_id with
  | Some ch => message_to (to_channel ch) (channel_sections au in_ tools)
  | None => []
  end.

(** *** Notions for the further properties *)

(** Never two white-space characters in a row. *)
Fixpoint single_spaced (t : text) : Prop :=
  match t with
  | a :: t' =>
      match t' with
      | b :: _ => ¬ (Char.is_space a = true ∧ Char.is_space b = true)
      | [] => True
      end ∧ single_spaced t'
  | [] => True
  end.

(** No white space at either end. *)
Definition trimmed (t : text) : Prop :=
  (∀ c, head t = Some c -> Char.is_space c = false)
  ∧ (∀ c, last t = Some c -> Char.is_space c = false).

(** The shape of a normalized text: no comma, full stop, semicolon or
    colon; the only white space is the space, never two in a row, and none
    at either end. *)
Definition normalized (t : text) : Prop :=
  Forall (λ c, Char.is_punct c = false) t
  ∧ Forall (λ c, Char.is_space c = true -> c = " "%char) t
  ∧ single_spaced t
  ∧ trimmed t.

(** The calls made for one user of the digest, given the three contents:
    one fetch per enabled flag, in the fixed order, then the delivery. *)
Definition digest_calls (u : user) (au in_ tools : string) : list event :=
  let p := default ∅ (user_prefs u) in
  if any_flag p then
    (if flag p "jobs_au" then [ev_get_jobs default_keyword "AU" None] else [])
    ++ (if flag p "jobs_in" then [ev_get_jobs default_keyword "IN" None] else [])
    ++ (if flag p "ai_tools" then [ev_get_ai_tools] else [])
    ++ digest_attempt u au in_ tools
  else [].

(** The calls of the channel summary: the three fetches, then the
    delivery. *)
Definition channel_calls (channel_id : option string) (au in_ tools : string)
  : list event :=
  match channel_of channel_id with
  | Some ch =>
      [ev_get_jobs default_keyword "AU" None;
       ev_get_jobs default_keyword "IN" None;
       ev_get_ai_tools]
      ++ channel_attempt channel_id au in_ tools
  | None => []
  end.

Definition is_tools_fetch (e : event) : bool :=
  match e with ev_get_ai_tools => true | _ => false end.

(** The text of a delivery. *)
Definition sent_text (e : event) : option string :=
  match e with ev_send _ msg => Some msg | _ => None end.

(** *** Notions for the commands *)

(** The arguments grouped by kind: country arguments, then location
    arguments, then the keyword arguments, each group in its order. *)
Definition by_kind (args : list text) : list text :=
  filter (λ a, is_country_token a = true) args
  ++ filter (λ a, is_loc_token a = true) args
  ++ keyword_tokens args.

(** The names given to [subscribe], in lower case. *)
Definition lower_names (args : list string) : list string :=
  (λ a, str (lower (T a))) <$> args.

(** The text of the reply of [prefs] for three flags. *)
Definition prefs_text (daily_time : string) (a i t : bool) : string :=
  "Your preferences:" +:+ nl
  +:+ "• jobs_au: " +:+ py_bool a +:+ nl
  +:+ "• jobs_in: " +:+ py_bool i +:+ nl
  +:+ "• ai_tools: " +:+ py_bool t +:+ nl
  +:+ "Daily: " +:+ daily_time.

(** [n] times the character "@". *)
Fixpoint ats (n : nat) : string :=
  match n with
  | 0 => EmptyString
  | S n => String "@"%char (ats n)
  end.

(** The text of the reply of [both] and of the digest of a user with
    jobs_au and ai_tools alone. *)
Definition both_text (au tools : string) : string :=
  "🔥 <b>AU Jobs</b>:" +:+ nl +:+ nl +:+ au
  +:+ nl +:+ nl +:+ "—" +:+ nl +:+ nl
  +:+ "🤖 <b>AI Tools</b>:" +:+ nl +:+ nl +:+ tools.

(** *** Concrete collaborators, for the examples *)

(** Jobs and tools are their display lines; the formatter puts one per
    line. *)
Definition lines (xs : list string) : string := join_str nl xs.

Definition no_jobs : string -> string -> option string -> outcome (list string) :=
  λ _ _ _, returned [].

Definition jobs_down : string -> string -> option string -> outcome (list string) :=
  λ _ _ _, raised.

(** A provider with postings in India only. *)
Definition jobs_india_only
  : string -> string -> option string -> outcome (list string) :=
  λ _ cc _, if bool_decide (cc = "IN") then returned ["Data Engineer, Pune"]
            else returned [].

Definition always_delivers : dest -> string -> bool := λ _ _, true.
Definition never_delivers : dest -> string -> bool := λ _ _, false.

Definition prefs_au_only : prefs_t :=
  <["jobs_au" := true]> no_prefs.

Definition prefs_au_tools : prefs_t :=
  <["jobs_au" := true]> (<["ai_tools" := true]> no_prefs).

Definition row (uid : Z) (p : prefs_t) : user :=
  {| user_id := uid; user_prefs := Some p |}.

Definition tools_one : outcome (list string) := returned ["Perplexity"].
Definition no_tools : outcome (list string) := returned [].
Definition smartify_channel : option string := Some "@smartify_jobs".

Ltac io_unfold :=
  unfold mbind, io_bind, bind, mret, io_ret, ret, try_except.

(** * Properties *)

(** ** Characters, runs and words *)

Lemma all_chars_complete (P : ascii -> bool) :
  forallb P all_chars = true -> ∀ c, P c = true.
Proof.
  intros H c. rewrite forallb_forall in H. apply H.
  rewrite <- (ascii_nat_embedding c). unfold all_chars.
  apply in_map, in_seq. pose proof (nat_ascii_bounded c). lia.
Qed.

Lemma char_eqb_eq a b : Char.eqb a b = true <-> a = b.
Proof. apply Ascii.eqb_eq. Qed.

Lemma char_eqb_refl a : Char.eqb a a = true.
Proof. by apply char_eqb_eq. Qed.

Lemma lower_is_lower_word c :
  Char.is_lower (Char.lower c) = true -> Char.is_word c = true.
Proof.
  intros H.
  assert (G : ∀ c, implb (Char.is_lower (Char.lower c)) (Char.is_word c) = true).
  { apply (all_chars_complete
             (λ c, implb (Char.is_lower (Char.lower c)) (Char.is_word c))).
    vm_compute. reflexivity. }
  specialize (G c). by rewrite H in G.
Qed.

Lemma last_or_cons prev c y : last_or prev (c :: y) = last_or (Some c) y.
Proof.
  unfold last_or. destruct y as [|d y]; [done|].
  change (last (c :: d :: y)) with (last (d :: y)).
  destruct (last (d :: y)) eqn:E; [done|]. by apply last_None in E.
Qed.

Lemma last_or_nil prev : last_or prev [] = prev.
Proof. done. Qed.

Lemma last_or_word prev y :
  y ≠ [] -> Forall (λ c, Char.is_word c = true) y ->
  opt_is_word (last_or prev y) = true.
Proof.
  intros Hne Hy. unfold last_or.
  destruct (last y) as [c|] eqn:E.
  - simpl. apply last_Some_elem_of in E. rewrite Forall_forall in Hy. auto.
  - apply last_None in E. done.
Qed.

(** *** Runs of a class *)

Lemma run_take_drop cls (t : text) :
  take (run_length cls t) t ++ drop (run_length cls t) t = t.
Proof. apply take_drop. Qed.

Lemma run_take_Forall cls (t : text) :
  Forall (λ c, cls c = true) (take (run_length cls t) t).
Proof.
  induction t as [|c t IH]; simpl; [constructor|].
  destruct (cls c) eqn:E; simpl; [|constructor]. by constructor.
Qed.

Lemma run_drop_head cls (t : text) c :
  head (drop (run_length cls t) t) = Some c -> cls c = false.
Proof.
  induction t as [|d t IH]; simpl; [done|].
  destruct (cls d) eqn:E; simpl; [done|]. intros [= ->]. done.
Qed.

Lemma run_length_app cls (x rest : text) :
  Forall (λ c, cls c = true) x ->
  (∀ c, head rest = Some c -> cls c = false) ->
  run_length cls (x ++ rest) = length x.
Proof.
  intros Hx Hr. induction Hx as [|c x Hc Hx IH]; simpl.
  - destruct rest as [|c rest]; [done|]. simpl. by rewrite (Hr c).
  - by rewrite Hc, IH.
Qed.

(** Induction along the runs of word characters of a text. *)
Lemma text_runs_ind (P : text -> Prop) :
  P [] ->
  (∀ c t, Char.is_word c = false -> P t -> P (c :: t)) ->
  (∀ x rest, x ≠ [] -> Forall (λ c, Char.is_word c = true) x ->
             opt_is_word (head rest) = false -> P rest -> P (x ++ rest)) ->
  ∀ t, P t.
Proof.
  intros Hnil Hsep Hrun t.
  induction t as [t IH] using (induction_ltof1 _ (@length ascii)).
  unfold ltof in IH.
  destruct t as [|c t]; [done|].
  destruct (Char.is_word c) eqn:Hc.
  - rewrite <- (run_take_drop Char.is_word t).
    change (P ((c :: take (run_length Char.is_word t) t)
                 ++ drop (run_length Char.is_word t) t)).
    apply Hrun; [done| | |].
    + constructor; [done|]. apply run_take_Forall.
    + destruct (head _) as [d|] eqn:E; [|done]. simpl.
      by apply run_drop_head in E.
    + apply IH. simpl. rewrite length_drop. lia.
  - apply Hsep; [done|]. apply IH. simpl. lia.
Qed.

(** *** Words *)

Lemma words_sep c t : Char.is_word c = false -> words (c :: t) = words t.
Proof. intros H. simpl. by rewrite H. Qed.

Lemma words_run x rest :
  x ≠ [] -> Forall (λ c, Char.is_word c = true) x ->
  opt_is_word (head rest) = false ->
  words (x ++ rest) = x :: words rest.
Proof.
  intros Hne Hx Hr. induction Hx as [|c x Hc Hx IH]; [done|].
  destruct x as [|d x].
  - simpl. rewrite Hc. destruct rest as [|e rest]; [done|].
    simpl in Hr. rewrite Hr. done.
  - change ((c :: d :: x) ++ rest) with (c :: (d :: x) ++ rest).
    assert (Hd : Char.is_word d = true) by (by inversion Hx).
    cbn [words]. rewrite Hc. cbn [app]. rewrite Hd.
    change (d :: x ++ rest) with ((d :: x) ++ rest).
    rewrite IH; done.
Qed.

(** ** Word patterns *)

(** *** Literals *)

Lemma match_lit_ci_sound w : ∀ prev t l rest,
  lower_chars w ->
  match_lit_ci w prev t = Some (l, rest) ->
  ∃ x, t = x ++ rest ∧ lower x = w ∧ word_chars x ∧ l = last_or prev x.
Proof.
  induction w as [|a w IH]; intros prev t l rest Hw H.
  - simpl in H. destruct t; injection H as <- <-; by exists [].
  - destruct t as [|c t]; [done|]. simpl in H.
    destruct (Char.eqb (Char.lower c) a) eqn:E; [|done].
    apply char_eqb_eq in E. inversion Hw as [|? ? Ha Hw']; subst.
    destruct (IH _ _ _ _ Hw' H) as (x & -> & Hx & Hwx & ->).
    exists (c :: x). repeat split.
    + simpl. by rewrite Hx.
    + constructor; [|done]. by apply lower_is_lower_word.
    + by rewrite last_or_cons.
Qed.

Lemma match_lit_ci_complete x : ∀ prev rest,
  match_lit_ci (lower x) prev (x ++ rest) = Some (last_or prev x, rest).
Proof.
  induction x as [|c x IH]; intros prev rest.
  - simpl. by destruct rest.
  - simpl. rewrite char_eqb_refl, IH. by rewrite last_or_cons.
Qed.

(** A run of word characters that ends at a boundary is determined by the
    text. *)
Lemma word_run_unique (x y rest rest' : text) :
  x ++ rest = y ++ rest' ->
  word_chars x -> word_chars y ->
  opt_is_word (head rest) = false -> opt_is_word (head rest') = false ->
  x = y ∧ rest = rest'.
Proof.
  revert y. induction x as [|c x IH]; intros y E Hx Hy Hr Hr'.
  - destruct y as [|d y]; [done|]. simpl in E. subst rest.
    inversion Hy; subst. simpl in Hr. congruence.
  - destruct y as [|d y].
    + simpl in E. subst rest'. inversion Hx; subst. simpl in Hr'. congruence.
    + simpl in E. injection E as -> E. inversion Hx; inversion Hy; subst.
      destruct (IH y E) as [-> ->]; done.
Qed.

Lemma match_alt_run ws prev x rest :
  Forall literal ws ->
  x ≠ [] -> word_chars x -> opt_is_word (head rest) = false ->
  match_alt ws prev (x ++ rest)
  = if is_one_of ws x then Some (length x) else None.
Proof.
  intros Hws Hne Hx Hr. unfold is_one_of.
  induction Hws as [|w ws [Hwne Hw] Hws IH].
  - cbn [match_alt]. case_bool_decide as H; [by apply elem_of_nil in H|done].
  - cbn [match_alt].
    destruct (match_lit_ci w prev (x ++ rest)) as [[l rest']|] eqn:E.
    + destruct (match_lit_ci_sound _ _ _ _ _ Hw E) as (y & Ey & Hy & Hwy & ->).
      assert (Hyne : y ≠ []) by (intros ->; simpl in Hy; congruence).
      unfold word_boundary. rewrite (last_or_word _ _ Hyne Hwy).
      destruct (opt_is_word (head rest')) eqn:Hr'; simpl.
      * rewrite IH. symmetry. erewrite bool_decide_ext; [done|].
        rewrite elem_of_cons. split; [|tauto]. intros [Ex|?]; [|done].
        rewrite <- Ex, match_lit_ci_complete in E. injection E as _ <-.
        congruence.
      * destruct (word_run_unique _ _ _ _ Ey Hx Hwy Hr Hr') as [-> ->].
        rewrite bool_decide_eq_true_2; [|rewrite Hy; left].
        f_equal. rewrite <- Hy. unfold lower. by rewrite length_map.
    + rewrite IH. symmetry. erewrite bool_decide_ext; [done|].
      rewrite elem_of_cons. split; [|tauto]. intros [Ex|?]; [|done].
      rewrite <- Ex, match_lit_ci_complete in E. done.
Qed.

Lemma match_alt_sep ws prev c t :
  Forall literal ws -> Char.is_word c = false ->
  match_alt ws prev (c :: t) = None.
Proof.
  intros Hws Hc. induction Hws as [|w ws [Hwne Hw] Hws IH]; [done|].
  simpl. destruct w as [|a w]; [done|]. simpl.
  destruct (Char.eqb (Char.lower c) a) eqn:E; [|done].
  apply char_eqb_eq in E. inversion Hw; subst.
  rewrite lower_is_lower_word in Hc; done.
Qed.

(** *** The matcher of a word pattern along a text *)

Section WordPattern.

Variable ws : list text.
Hypothesis ws_literals : Forall literal ws.

Let m := m_words ws.

Lemma m_words_sep prev c t :
  Char.is_word c = false -> m prev (c :: t) = None.
Proof.
  intros Hc. unfold m, m_words. rewrite match_alt_sep by done.
  by destruct (word_boundary _ _).
Qed.

Lemma m_words_inside prev c t :
  opt_is_word prev = true -> Char.is_word c = true -> m prev (c :: t) = None.
Proof.
  intros Hp Hc. unfold m, m_words, word_boundary. simpl. by rewrite Hp, Hc.
Qed.

Lemma m_words_run prev x rest :
  opt_is_word prev = false ->
  x ≠ [] -> word_chars x -> opt_is_word (head rest) = false ->
  m prev (x ++ rest) = if is_one_of ws x then Some (length x) else None.
Proof.
  intros Hp Hne Hx Hr. unfold m, m_words, word_boundary.
  rewrite match_alt_run by done.
  destruct x as [|c x]; [done|]. inversion Hx; subst. simpl.
  rewrite Hp. by match goal with H : Char.is_word c = true |- _ => rewrite H end.
Qed.

(** [re.sub] *)

Lemma sub_skip repl : ∀ y prev rest,
  re_sub_go m repl prev (length y) (y ++ rest)
  = re_sub_go m repl (last_or prev y) 0 rest.
Proof.
  induction y as [|c y IH]; intros prev rest; [done|].
  simpl. by rewrite IH, last_or_cons.
Qed.

Lemma sub_sep prev c t :
  Char.is_word c = false ->
  re_sub_go m [] prev 0 (c :: t) = c :: re_sub_go m [] (Some c) 0 t.
Proof. intros Hc. simpl. fold m. by rewrite m_words_sep. Qed.

Lemma sub_inside : ∀ y prev rest,
  word_chars y -> opt_is_word prev = true ->
  re_sub_go m [] prev 0 (y ++ rest)
  = y ++ re_sub_go m [] (last_or prev y) 0 rest.
Proof.
  induction y as [|c y IH]; intros prev rest Hy Hp; [done|].
  inversion Hy; subst.
  change ((c :: y) ++ rest) with (c :: y ++ rest).
  cbn [re_sub_go]. rewrite m_words_inside by done.
  simpl. rewrite IH by done. by rewrite last_or_cons.
Qed.

Lemma sub_run prev x rest :
  opt_is_word prev = false ->
  x ≠ [] -> word_chars x -> opt_is_word (head rest) = false ->
  re_sub_go m [] prev 0 (x ++ rest)
  = (if is_one_of ws x then [] else x)
      ++ re_sub_go m [] (last_or prev x) 0 rest.
Proof.
  intros Hp Hne Hx Hr.
  pose proof (m_words_run prev x rest Hp Hne Hx Hr) as Hm.
  destruct x as [|c x]; [done|].
  change ((c :: x) ++ rest) with (c :: x ++ rest) in *.
  cbn [re_sub_go]. rewrite Hm.
  inversion Hx; subst.
  destruct (is_one_of ws (c :: x)).
  - simpl. by rewrite sub_skip, last_or_cons.
  - simpl. rewrite sub_inside by done. by rewrite last_or_cons.
Qed.

Lemma sub_head_sep prev rest :
  opt_is_word (head rest) = false ->
  opt_is_word (head (re_sub_go m [] prev 0 rest)) = false.
Proof.
  destruct rest as [|c rest]; [done|]. simpl. intros Hc.
  fold m. rewrite m_words_sep by done. done.
Qed.

(** The words of the text after the substitution are the words that
    are not among the literals. *)
Lemma words_sub_go t : ∀ prev,
  opt_is_word prev = false ∨ opt_is_word (head t) = false ->
  words (re_sub_go m [] prev 0 t)
  = filter (λ x, is_one_of ws x = false) (words t).
Proof.
  induction t as [|c t Hc IH|x rest Hne Hx Hr IH] using text_runs_ind;
    intros prev Hp.
  - done.
  - rewrite sub_sep, !words_sep by done. apply IH. left. simpl. done.
  - assert (Hp' : opt_is_word prev = false).
    { destruct Hp as [|Hp]; [done|]. destruct x as [|c x]; [done|].
      inversion Hx; subst. simpl in Hp. congruence. }
    rewrite sub_run, (words_run x rest) by done.
    rewrite filter_cons.
    destruct (is_one_of ws x) eqn:E.
    + rewrite decide_False by done. simpl. apply IH. by right.
    + rewrite decide_True by done.
      rewrite words_run; [|done..|by apply sub_head_sep].
      f_equal. apply IH. by right.
Qed.

Lemma words_re_sub t :
  words (re_sub m [] t) = filter (λ x, is_one_of ws x = false) (words t).
Proof. apply words_sub_go. by left. Qed.

(** [re.search] *)

Lemma search_inside : ∀ y prev rest,
  word_chars y -> opt_is_word prev = true ->
  re_search_go m prev (y ++ rest) = re_search_go m (last_or prev y) rest.
Proof.
  induction y as [|c y IH]; intros prev rest Hy Hp; [done|].
  inversion Hy; subst.
  change ((c :: y) ++ rest) with (c :: y ++ rest).
  cbn [re_search_go]. rewrite m_words_inside by done.
  rewrite IH by done. by rewrite last_or_cons.
Qed.

Lemma found_search_go t : ∀ prev,
  opt_is_word prev = false ∨ opt_is_word (head t) = false ->
  found (re_search_go m prev t) = existsb (is_one_of ws) (words t).
Proof.
  induction t as [|c t Hc IH|x rest Hne Hx Hr IH] using text_runs_ind;
    intros prev Hp.
  - done.
  - rewrite words_sep by done. cbn [re_search_go].
    rewrite m_words_sep by done. apply IH. by left.
  - assert (Hp' : opt_is_word prev = false).
    { destruct Hp as [|Hp]; [done|]. destruct x as [|c x]; [done|].
      inversion Hx; subst. simpl in Hp. congruence. }
    rewrite words_run by done. simpl.
    pose proof (m_words_run prev x rest Hp' Hne Hx Hr) as Hm.
    destruct x as [|c x]; [done|].
    change ((c :: x) ++ rest) with (c :: x ++ rest) in *.
    cbn [re_search_go]. rewrite Hm.
    destruct (is_one_of ws (c :: x)); [done|]. simpl.
    inversion Hx; subst.
    rewrite search_inside by done. apply IH. by right.
Qed.

Lemma found_re_search t :
  found (re_search m t) = existsb (is_one_of ws) (words t).
Proof. apply found_search_go. by left. Qed.

End WordPattern.

(** ** Country detection *)

Lemma au_words_literals : Forall literal au_words.
Proof. repeat constructor; try done; vm_compute; done. Qed.

Lemma india_words_literals : Forall literal india_words.
Proof. repeat constructor; try done; vm_compute; done. Qed.

Lemma existsb_is_one_of ws t :
  existsb (is_one_of ws) (words t) = true <-> ∃ w, w ∈ ws ∧ contains_word w t.
Proof.
  rewrite existsb_exists. unfold contains_word, is_one_of. split.
  - intros (x & Hx & H). apply bool_decide_eq_true in H.
    exists (lower x). split; [done|]. exists x. split; [|done].
    by apply list_elem_of_In.
  - intros (w & Hw & x & Hx & <-). exists x. split.
    + by apply list_elem_of_In.
    + by apply bool_decide_eq_true.
Qed.

Lemma found_au t : found (re_search m_au t) = true <-> contains_au_word t.
Proof.
  unfold m_au. rewrite found_re_search by apply au_words_literals.
  rewrite existsb_is_one_of. unfold contains_au_word, au_words. split.
  - intros (w & Hw & H). rewrite !elem_of_cons, elem_of_nil in Hw.
    destruct Hw as [->|[->|[]]]; auto.
  - intros [H|H]; eexists; (split; [|exact H]);
      rewrite !elem_of_cons; auto.
Qed.

Lemma found_india t : found (re_search m_india t) = true <-> contains_india t.
Proof.
  unfold m_india. rewrite found_re_search by apply india_words_literals.
  rewrite existsb_is_one_of. unfold contains_india, india_words. split.
  - intros (w & Hw & H). apply list_elem_of_singleton in Hw. by subst.
  - intros H. eexists; (split; [|exact H]). by apply list_elem_of_singleton.
Qed.

Lemma filter_none_of ws (l : list text) :
  existsb (is_one_of ws) l = false ->
  filter (λ x, is_one_of ws x = false) l = l.
Proof.
  induction l as [|x l IH]; [done|]. simpl.
  intros [Hx Hl]%orb_false_elim. rewrite filter_cons_True by done.
  by rewrite IH.
Qed.

Lemma existsb_filter_other ws ws' (l : list text) :
  (∀ x, is_one_of ws' x = true -> is_one_of ws x = false) ->
  existsb (is_one_of ws') (filter (λ x, is_one_of ws x = false) l)
  = existsb (is_one_of ws') l.
Proof.
  intros H. induction l as [|x l IH]; [done|].
  rewrite filter_cons. case_decide as E; simpl; rewrite IH; [done|].
  destruct (is_one_of ws' x) eqn:E'; [|done]. by apply H in E'.
Qed.

Lemma india_not_au x : is_one_of india_words x = true -> is_one_of au_words x = false.
Proof.
  unfold is_one_of. intros H%bool_decide_eq_true.
  apply bool_decide_eq_false. unfold india_words, au_words in *.
  apply list_elem_of_singleton in H. rewrite H.
  rewrite !elem_of_cons, elem_of_nil. intros [?|[?|[]]]; discriminate.
Qed.

(** The words left by a check, whether it fired or not. *)
Lemma words_after_check ws t :
  Forall literal ws ->
  words (match re_search (m_words ws) t with
         | Some _ => re_sub (m_words ws) [] t
         | None => t
         end)
  = filter (λ x, is_one_of ws x = false) (words t).
Proof.
  intros Hws. pose proof (found_re_search ws Hws t) as H.
  destruct (re_search (m_words ws) t).
  - by apply words_re_sub.
  - simpl in H. symmetry. by apply filter_none_of.
Qed.

Lemma detect_country_words t :
  words (detect_country t).2
  = filter (λ x, is_one_of india_words x = false)
      (filter (λ x, is_one_of au_words x = false) (words t)).
Proof.
  unfold detect_country.
  pose proof (words_after_check au_words t au_words_literals) as H1.
  fold m_au in H1.
  set (t1 := match re_search m_au t with
             | Some _ => re_sub m_au [] t | None => t end) in *.
  pose proof (words_after_check india_words t1 india_words_literals) as H2.
  fold m_india in H2. rewrite <- H1, <- H2.
  destruct (re_search m_au t); fold t1; destruct (re_search m_india t1); done.
Qed.

Lemma detect_country_india t :
  (detect_country t).1 = if found (re_search m_india t) then T "IN" else T "AU".
Proof.
  unfold detect_country.
  pose proof (words_after_check au_words t au_words_literals) as H1.
  fold m_au in H1.
  set (t1 := match re_search m_au t with
             | Some _ => re_sub m_au [] t | None => t end) in *.
  assert (E : found (re_search m_india t1) = found (re_search m_india t)).
  { unfold m_india. rewrite !found_re_search by apply india_words_literals.
    rewrite H1. apply existsb_filter_other, india_not_au. }
  rewrite <- E.
  destruct (re_search m_au t); fold t1; destruct (re_search m_india t1); done.
Qed.

Lemma parse_free_text_country txt :
  country_of (parse_free_text_chars txt) = (detect_country (normalize txt)).1.
Proof.
  unfold parse_free_text_chars, country_of.
  destruct (detect_country (normalize txt)) as [cc t].
  destruct (extract_location t). done.
Qed.

(** *** On every [str] *)

Section UnicodeCountry.

Import Unicode.

Variable is_word : N -> bool.
Hypothesis letters : letters_are_words is_word.

Local Abbreviation word_chars := (Forall (λ c, is_word c = true)).
Local Abbreviation lower_chars := (Forall (λ c, is_lower c = true)).

(** Words in any case and what [re.I] matches: *)

Lemma u_in_any_case_fold a c :
  is_lower a = true -> in_any_case a c = true <-> fold_case c = a.
Proof.
  intros Ha. unfold in_any_case. rewrite Ha. cbn [andb].
  rewrite !orb_true_iff, !andb_true_iff, !orb_true_iff, !N.eqb_eq.
  unfold is_lower, between in Ha.
  apply andb_true_iff in Ha as [Ha1 Ha2]. apply N.leb_le in Ha1, Ha2.
  unfold fold_case, is_upper, between.
  destruct (N.leb_spec 65 c), (N.leb_spec c 90); cbn [andb]; [lia|..];
    (destruct (N.eqb_spec c 304); [subst; cbn [orb]; lia|]);
    (destruct (N.eqb_spec c 305); [subst; cbn [orb]; lia|]);
    cbn [orb];
    (destruct (N.eqb_spec c 383); [subst; lia|]);
    (destruct (N.eqb_spec c 8490); [subst; lia|]); lia.
Qed.

Lemma u_fold_lower_word c : is_lower (fold_case c) = true -> is_word c = true.
Proof.
  intros H. apply (letters (fold_case c) c H). by apply u_in_any_case_fold.
Qed.

Lemma u_same_word_fold w : ∀ x,
  lower_chars w -> same_word w x = true <-> fold x = w.
Proof.
  induction w as [|a w IH]; intros x Hw.
  - destruct x; simpl; split; done.
  - inversion Hw as [|? ? Ha Hw']; subst. destruct x as [|c x]; [done|].
    cbn [same_word fold map]. rewrite andb_true_iff, IH by done.
    rewrite u_in_any_case_fold by done. unfold fold.
    split; [intros [-> ->]; done|intros [= -> ->]; done].
Qed.

Lemma u_last_or_cons prev c y : last_or prev (c :: y) = last_or (Some c) y.
Proof.
  unfold last_or. destruct y as [|d y]; [done|].
  change (last (c :: d :: y)) with (last (d :: y)).
  destruct (last (d :: y)) eqn:E; [done|]. by apply last_None in E.
Qed.

Lemma u_last_or_nil prev : last_or prev [] = prev.
Proof. done. Qed.

Lemma u_last_or_word prev y :
  y ≠ [] -> Forall (λ c, is_word c = true) y ->
  opt_is_word is_word (last_or prev y) = true.
Proof.
  intros Hne Hy. unfold last_or.
  destruct (last y) as [c|] eqn:E.
  - simpl. apply last_Some_elem_of in E. rewrite Forall_forall in Hy. auto.
  - apply last_None in E. done.
Qed.

(** Runs of a class: *)

Lemma u_run_take_drop cls (t : utext) :
  take (run_length cls t) t ++ drop (run_length cls t) t = t.
Proof. apply take_drop. Qed.

Lemma u_run_take_Forall cls (t : utext) :
  Forall (λ c, cls c = true) (take (run_length cls t) t).
Proof.
  induction t as [|c t IH]; simpl; [constructor|].
  destruct (cls c) eqn:E; simpl; [|constructor]. by constructor.
Qed.

Lemma u_run_drop_head cls (t : utext) c :
  head (drop (run_length cls t) t) = Some c -> cls c = false.
Proof.
  induction t as [|d t IH]; simpl; [done|].
  destruct (cls d) eqn:E; simpl; [done|]. intros [= ->]. done.
Qed.

Lemma u_run_length_app cls (x rest : utext) :
  Forall (λ c, cls c = true) x ->
  (∀ c, head rest = Some c -> cls c = false) ->
  run_length cls (x ++ rest) = length x.
Proof.
  intros Hx Hr. induction Hx as [|c x Hc Hx IH]; simpl.
  - destruct rest as [|c rest]; [done|]. simpl. by rewrite (Hr c).
  - by rewrite Hc, IH.
Qed.

(** Induction along the runs of word characters of a text. *)
Lemma u_text_runs_ind (P : utext -> Prop) :
  P [] ->
  (∀ c t, is_word c = false -> P t -> P (c :: t)) ->
  (∀ x rest, x ≠ [] -> Forall (λ c, is_word c = true) x ->
             opt_is_word is_word (head rest) = false -> P rest -> P (x ++ rest)) ->
  ∀ t, P t.
Proof.
  intros Hnil Hsep Hrun t.
  induction t as [t IH] using (induction_ltof1 _ (@length N)).
  unfold ltof in IH.
  destruct t as [|c t]; [done|].
  destruct (is_word c) eqn:Hc.
  - rewrite <- (u_run_take_drop is_word t).
    change (P ((c :: take (run_length is_word t) t)
                 ++ drop (run_length is_word t) t)).
    apply Hrun; [done| | |].
    + constructor; [done|]. apply u_run_take_Forall.
    + destruct (head _) as [d|] eqn:E; [|done]. simpl.
      by apply u_run_drop_head in E.
    + apply IH. simpl. rewrite length_drop. lia.
  - apply Hsep; [done|]. apply IH. simpl. lia.
Qed.

(** Words: *)

Lemma u_words_sep c t : is_word c = false -> words is_word (c :: t) = words is_word t.
Proof. intros H. simpl. by rewrite H. Qed.

Lemma u_words_run x rest :
  x ≠ [] -> Forall (λ c, is_word c = true) x ->
  opt_is_word is_word (head rest) = false ->
  words is_word (x ++ rest) = x :: words is_word rest.
Proof.
  intros Hne Hx Hr. induction Hx as [|c x Hc Hx IH]; [done|].
  destruct x as [|d x].
  - simpl. rewrite Hc. destruct rest as [|e rest]; [done|].
    simpl in Hr. rewrite Hr. done.
  - change ((c :: d :: x) ++ rest) with (c :: (d :: x) ++ rest).
    assert (Hd : is_word d = true) by (by inversion Hx).
    cbn [words]. rewrite Hc. cbn [app]. rewrite Hd.
    change (d :: x ++ rest) with ((d :: x) ++ rest).
    rewrite IH; done.
Qed.

(** Word patterns *)

(** Literals: *)

Lemma u_match_lit_ci_sound w : ∀ prev t l rest,
  lower_chars w ->
  match_lit_ci w prev t = Some (l, rest) ->
  ∃ x, t = x ++ rest ∧ fold x = w ∧ word_chars x ∧ l = last_or prev x.
Proof.
  induction w as [|a w IH]; intros prev t l rest Hw H.
  - simpl in H. destruct t; injection H as <- <-; by exists [].
  - destruct t as [|c t]; [done|]. simpl in H.
    destruct ((fold_case c =? a)%N) eqn:E; [|done].
    apply N.eqb_eq in E. inversion Hw as [|? ? Ha Hw']; subst.
    destruct (IH _ _ _ _ Hw' H) as (x & -> & Hx & Hwx & ->).
    exists (c :: x). repeat split.
    + simpl. by rewrite Hx.
    + constructor; [|done]. by apply u_fold_lower_word.
    + by rewrite u_last_or_cons.
Qed.

Lemma u_match_lit_ci_complete x : ∀ prev rest,
  match_lit_ci (fold x) prev (x ++ rest) = Some (last_or prev x, rest).
Proof.
  induction x as [|c x IH]; intros prev rest.
  - simpl. by destruct rest.
  - simpl. rewrite N.eqb_refl, IH. by rewrite u_last_or_cons.
Qed.

(** A run of word characters that ends at a boundary is determined by the
    text. *)
Lemma u_word_run_unique (x y rest rest' : utext) :
  x ++ rest = y ++ rest' ->
  word_chars x -> word_chars y ->
  opt_is_word is_word (head rest) = false -> opt_is_word is_word (head rest') = false ->
  x = y ∧ rest = rest'.
Proof.
  revert y. induction x as [|c x IH]; intros y E Hx Hy Hr Hr'.
  - destruct y as [|d y]; [done|]. simpl in E. subst rest.
    inversion Hy; subst. simpl in Hr. congruence.
  - destruct y as [|d y].
    + simpl in E. subst rest'. inversion Hx; subst. simpl in Hr'. congruence.
    + simpl in E. injection E as -> E. inversion Hx; inversion Hy; subst.
      destruct (IH y E) as [-> ->]; done.
Qed.

Lemma u_match_alt_run ws prev x rest :
  Forall literal ws ->
  x ≠ [] -> word_chars x -> opt_is_word is_word (head rest) = false ->
  match_alt is_word ws prev (x ++ rest)
  = if is_one_of ws x then Some (length x) else None.
Proof.
  intros Hws Hne Hx Hr. unfold is_one_of.
  induction Hws as [|w ws [Hwne Hw] Hws IH].
  - cbn [match_alt]. case_bool_decide as H; [by apply elem_of_nil in H|done].
  - cbn [match_alt].
    destruct (match_lit_ci w prev (x ++ rest)) as [[l rest']|] eqn:E.
    + destruct (u_match_lit_ci_sound _ _ _ _ _ Hw E) as (y & Ey & Hy & Hwy & ->).
      assert (Hyne : y ≠ []) by (intros ->; simpl in Hy; congruence).
      unfold word_boundary. rewrite (u_last_or_word _ _ Hyne Hwy).
      destruct (opt_is_word is_word (head rest')) eqn:Hr'; simpl.
      * rewrite IH. symmetry. erewrite bool_decide_ext; [done|].
        rewrite elem_of_cons. split; [|tauto]. intros [Ex|?]; [|done].
        rewrite <- Ex, u_match_lit_ci_complete in E. injection E as _ <-.
        congruence.
      * destruct (u_word_run_unique _ _ _ _ Ey Hx Hwy Hr Hr') as [-> ->].
        rewrite bool_decide_eq_true_2; [|rewrite Hy; left].
        f_equal. rewrite <- Hy. unfold fold. by rewrite length_map.
    + rewrite IH. symmetry. erewrite bool_decide_ext; [done|].
      rewrite elem_of_cons. split; [|tauto]. intros [Ex|?]; [|done].
      rewrite <- Ex, u_match_lit_ci_complete in E. done.
Qed.

Lemma u_match_alt_sep ws prev c t :
  Forall literal ws -> is_word c = false ->
  match_alt is_word ws prev (c :: t) = None.
Proof.
  intros Hws Hc. induction Hws as [|w ws [Hwne Hw] Hws IH]; [done|].
  simpl. destruct w as [|a w]; [done|]. simpl.
  destruct ((fold_case c =? a)%N) eqn:E; [|done].
  apply N.eqb_eq in E. inversion Hw; subst.
  rewrite u_fold_lower_word in Hc; done.
Qed.

(** The matcher of a word pattern along a text: *)

Section UnicodeWordPattern.

Variable ws : list utext.
Hypothesis ws_literals : Forall literal ws.

Let m := m_words is_word ws.

Lemma u_m_words_sep prev c t :
  is_word c = false -> m prev (c :: t) = None.
Proof.
  intros Hc. unfold m, m_words. rewrite u_match_alt_sep by done.
  by destruct (word_boundary is_word _ _).
Qed.

Lemma u_m_words_inside prev c t :
  opt_is_word is_word prev = true -> is_word c = true -> m prev (c :: t) = None.
Proof.
  intros Hp Hc. unfold m, m_words, word_boundary. simpl. by rewrite Hp, Hc.
Qed.

Lemma u_m_words_run prev x rest :
  opt_is_word is_word prev = false ->
  x ≠ [] -> word_chars x -> opt_is_word is_word (head rest) = false ->
  m prev (x ++ rest) = if is_one_of ws x then Some (length x) else None.
Proof.
  intros Hp Hne Hx Hr. unfold m, m_words, word_boundary.
  rewrite u_match_alt_run by done.
  destruct x as [|c x]; [done|]. inversion Hx; subst. simpl.
  rewrite Hp. by match goal with H : is_word c = true |- _ => rewrite H end.
Qed.

(** [re.sub] *)

Lemma u_sub_skip repl : ∀ y prev rest,
  re_sub_go m repl prev (length y) (y ++ rest)
  = re_sub_go m repl (last_or prev y) 0 rest.
Proof.
  induction y as [|c y IH]; intros prev rest; [done|].
  simpl. by rewrite IH, u_last_or_cons.
Qed.

Lemma u_sub_sep prev c t :
  is_word c = false ->
  re_sub_go m [] prev 0 (c :: t) = c :: re_sub_go m [] (Some c) 0 t.
Proof. intros Hc. simpl. fold m. by rewrite u_m_words_sep. Qed.

Lemma u_sub_inside : ∀ y prev rest,
  word_chars y -> opt_is_word is_word prev = true ->
  re_sub_go m [] prev 0 (y ++ rest)
  = y ++ re_sub_go m [] (last_or prev y) 0 rest.
Proof.
  induction y as [|c y IH]; intros prev rest Hy Hp; [done|].
  inversion Hy; subst.
  change ((c :: y) ++ rest) with (c :: y ++ rest).
  cbn [re_sub_go]. rewrite u_m_words_inside by done.
  simpl. rewrite IH by done. by rewrite u_last_or_cons.
Qed.

Lemma u_sub_run prev x rest :
  opt_is_word is_word prev = false ->
  x ≠ [] -> word_chars x -> opt_is_word is_word (head rest) = false ->
  re_sub_go m [] prev 0 (x ++ rest)
  = (if is_one_of ws x then [] else x)
      ++ re_sub_go m [] (last_or prev x) 0 rest.
Proof.
  intros Hp Hne Hx Hr.
  pose proof (u_m_words_run prev x rest Hp Hne Hx Hr) as Hm.
  destruct x as [|c x]; [done|].
  change ((c :: x) ++ rest) with (c :: x ++ rest) in *.
  cbn [re_sub_go]. rewrite Hm.
  inversion Hx; subst.
  destruct (is_one_of ws (c :: x)).
  - simpl. by rewrite u_sub_skip, u_last_or_cons.
  - simpl. rewrite u_sub_inside by done. by rewrite u_last_or_cons.
Qed.

Lemma u_sub_head_sep prev rest :
  opt_is_word is_word (head rest) = false ->
  opt_is_word is_word (head (re_sub_go m [] prev 0 rest)) = false.
Proof.
  destruct rest as [|c rest]; [done|]. simpl. intros Hc.
  fold m. rewrite u_m_words_sep by done. done.
Qed.

(** The words of the text after the substitution are the words that
    are not among the literals. *)
Lemma u_words_sub_go t : ∀ prev,
  opt_is_word is_word prev = false ∨ opt_is_word is_word (head t) = false ->
  words is_word (re_sub_go m [] prev 0 t)
  = filter (λ x, is_one_of ws x = false) (words is_word t).
Proof.
  induction t as [|c t Hc IH|x rest Hne Hx Hr IH] using u_text_runs_ind;
    intros prev Hp.
  - done.
  - rewrite u_sub_sep, !u_words_sep by done. apply IH. left. simpl. done.
  - assert (Hp' : opt_is_word is_word prev = false).
    { destruct Hp as [|Hp]; [done|]. destruct x as [|c x]; [done|].
      inversion Hx; subst. simpl in Hp. congruence. }
    rewrite u_sub_run, (u_words_run x rest) by done.
    rewrite filter_cons.
    destruct (is_one_of ws x) eqn:E.
    + rewrite decide_False by done. simpl. apply IH. by right.
    + rewrite decide_True by done.
      rewrite u_words_run; [|done..|by apply u_sub_head_sep].
      f_equal. apply IH. by right.
Qed.

Lemma u_words_re_sub t :
  words is_word (re_sub m [] t) = filter (λ x, is_one_of ws x = false) (words is_word t).
Proof. apply u_words_sub_go. by left. Qed.

(** [re.search] *)

Lemma u_search_inside : ∀ y prev rest,
  word_chars y -> opt_is_word is_word prev = true ->
  re_search_go m prev (y ++ rest) = re_search_go m (last_or prev y) rest.
Proof.
  induction y as [|c y IH]; intros prev rest Hy Hp; [done|].
  inversion Hy; subst.
  change ((c :: y) ++ rest) with (c :: y ++ rest).
  cbn [re_search_go]. rewrite u_m_words_inside by done.
  rewrite IH by done. by rewrite u_last_or_cons.
Qed.

Lemma u_found_search_go t : ∀ prev,
  opt_is_word is_word prev = false ∨ opt_is_word is_word (head t) = false ->
  found (re_search_go m prev t) = existsb (is_one_of ws) (words is_word t).
Proof.
  induction t as [|c t Hc IH|x rest Hne Hx Hr IH] using u_text_runs_ind;
    intros prev Hp.
  - done.
  - rewrite u_words_sep by done. cbn [re_search_go].
    rewrite u_m_words_sep by done. apply IH. by left.
  - assert (Hp' : opt_is_word is_word prev = false).
    { destruct Hp as [|Hp]; [done|]. destruct x as [|c x]; [done|].
      inversion Hx; subst. simpl in Hp. congruence. }
    rewrite u_words_run by done. simpl.
    pose proof (u_m_words_run prev x rest Hp' Hne Hx Hr) as Hm.
    destruct x as [|c x]; [done|].
    change ((c :: x) ++ rest) with (c :: x ++ rest) in *.
    cbn [re_search_go]. rewrite Hm.
    destruct (is_one_of ws (c :: x)); [done|]. simpl.
    inversion Hx; subst.
    rewrite u_search_inside by done. apply IH. by right.
Qed.

Lemma u_found_re_search t :
  found (re_search m t) = existsb (is_one_of ws) (words is_word t).
Proof. apply u_found_search_go. by left. Qed.

End UnicodeWordPattern.

Lemma u_au_words_literals : Forall literal au_words.
Proof. repeat constructor; try done; vm_compute; done. Qed.

Lemma u_india_words_literals : Forall literal india_words.
Proof. repeat constructor; try done; vm_compute; done. Qed.

Lemma u_existsb_is_one_of ws t :
  Forall literal ws ->
  existsb (is_one_of ws) (words is_word t) = true
  <-> ∃ w, w ∈ ws ∧ contains_word is_word w t.
Proof.
  intros Hws. rewrite Forall_forall in Hws.
  rewrite existsb_exists. unfold contains_word, is_one_of. split.
  - intros (x & Hx & H). apply bool_decide_eq_true in H.
    exists (fold x). split; [done|]. exists x. split.
    + by apply list_elem_of_In.
    + apply u_same_word_fold; [by apply Hws|done].
  - intros (w & Hw & x & Hx & H). exists x. split.
    + by apply list_elem_of_In.
    + apply bool_decide_eq_true.
      apply u_same_word_fold in H; [by subst|by apply Hws].
Qed.

Lemma u_found_india t :
  found (re_search (m_india is_word) t) = true <-> contains_india is_word t.
Proof.
  unfold m_india. rewrite u_found_re_search by apply u_india_words_literals.
  rewrite u_existsb_is_one_of by apply u_india_words_literals.
  unfold contains_india, india_words. split.
  - intros (w & Hw & H). apply list_elem_of_singleton in Hw. by subst.
  - intros H. eexists; (split; [|exact H]). by apply list_elem_of_singleton.
Qed.

Lemma u_filter_none_of ws (l : list utext) :
  existsb (is_one_of ws) l = false ->
  filter (λ x, is_one_of ws x = false) l = l.
Proof.
  induction l as [|x l IH]; [done|]. simpl.
  intros [Hx Hl]%orb_false_elim. rewrite filter_cons_True by done.
  by rewrite IH.
Qed.

Lemma u_existsb_filter_other ws ws' (l : list utext) :
  (∀ x, is_one_of ws' x = true -> is_one_of ws x = false) ->
  existsb (is_one_of ws') (filter (λ x, is_one_of ws x = false) l)
  = existsb (is_one_of ws') l.
Proof.
  intros H. induction l as [|x l IH]; [done|].
  rewrite filter_cons. case_decide as E; simpl; rewrite IH; [done|].
  destruct (is_one_of ws' x) eqn:E'; [|done]. by apply H in E'.
Qed.

Lemma u_india_not_au x :
  is_one_of india_words x = true -> is_one_of au_words x = false.
Proof.
  unfold is_one_of. intros H%bool_decide_eq_true.
  apply bool_decide_eq_false. unfold india_words, au_words in *.
  apply list_elem_of_singleton in H. rewrite H.
  rewrite !elem_of_cons, elem_of_nil. intros [?|[?|[]]]; discriminate.
Qed.

(** The words left by a check, whether it fired or not. *)
Lemma u_words_after_check ws t :
  Forall literal ws ->
  words is_word (match re_search (m_words is_word ws) t with
         | Some _ => re_sub (m_words is_word ws) [] t
         | None => t
         end)
  = filter (λ x, is_one_of ws x = false) (words is_word t).
Proof.
  intros Hws. pose proof (u_found_re_search ws Hws t) as H.
  destruct (re_search (m_words is_word ws) t).
  - by apply u_words_re_sub.
  - simpl in H. symmetry. by apply u_filter_none_of.
Qed.

Lemma u_detect_country_words t :
  words is_word (detect_country is_word t).2
  = filter (λ x, is_one_of india_words x = false)
      (filter (λ x, is_one_of au_words x = false) (words is_word t)).
Proof.
  unfold detect_country.
  pose proof (u_words_after_check au_words t u_au_words_literals) as H1.
  fold (m_au is_word) in H1.
  set (t1 := match re_search (m_au is_word) t with
             | Some _ => re_sub (m_au is_word) [] t | None => t end) in *.
  pose proof (u_words_after_check india_words t1 u_india_words_literals) as H2.
  fold (m_india is_word) in H2. rewrite <- H1, <- H2.
  destruct (re_search (m_au is_word) t); fold t1;
    destruct (re_search (m_india is_word) t1); done.
Qed.

Lemma u_detect_country_india t :
  (detect_country is_word t).1
  = if found (re_search (m_india is_word) t) then T "IN" else T "AU".
Proof.
  unfold detect_country.
  pose proof (u_words_after_check au_words t u_au_words_literals) as H1.
  fold (m_au is_word) in H1.
  set (t1 := match re_search (m_au is_word) t with
             | Some _ => re_sub (m_au is_word) [] t | None => t end) in *.
  assert (E : found (re_search (m_india is_word) t1)
              = found (re_search (m_india is_word) t)).
  { unfold m_india. rewrite !u_found_re_search by apply u_india_words_literals.
    rewrite H1. apply u_existsb_filter_other, u_india_not_au. }
  rewrite <- E.
  destruct (re_search (m_au is_word) t); fold t1;
    destruct (re_search (m_india is_word) t1); done.
Qed.

Lemma u_parse_free_text_country txt :
  (parse_free_text_to_query is_word txt).1.2
  = (detect_country is_word (normalize txt)).1.
Proof.
  unfold parse_free_text_to_query.
  destruct (detect_country is_word (normalize txt)) as [cc t].
  destruct (extract_location t). done.
Qed.


(** C4: the AU pattern is looked for first and the India pattern second,
    both always, on every text, whatever its characters and whatever the
    table of word characters, as long as the letters that [re.I] accepts
    are word characters. A normalized text with an AU word and the word
    "india" gives the country IN (the last check wins), one with an AU word
    only gives AU, one with "india" only gives IN; the matched words are
    removed: the text passed on holds the words of the normalized text
    that are none of "au", "australia" and "india" in any case. *)
Theorem country_detection_order txt :
  let t := normalize txt in
  let country := (parse_free_text_to_query is_word txt).1.2 in
  (contains_au_word is_word t -> contains_india is_word t -> country = T "IN")
  ∧ (contains_au_word is_word t -> ¬ contains_india is_word t ->
     country = T "AU")
  ∧ (¬ contains_au_word is_word t -> contains_india is_word t ->
     country = T "IN")
  ∧ words is_word (detect_country is_word t).2
    = filter (λ x, is_country_word x = false) (words is_word t).
Proof.
  intros t country. unfold country. rewrite u_parse_free_text_country.
  fold t. rewrite u_detect_country_india.
  pose proof (u_found_india t) as Hi.
  repeat split.
  - intros _ H. apply Hi in H. by rewrite H.
  - intros _ H. destruct (found (re_search (m_india is_word) t)); [|done].
    destruct H. by apply Hi.
  - intros _ H. apply Hi in H. by rewrite H.
  - rewrite u_detect_country_words.
    rewrite list_filter_filter. apply list_filter_iff. intros x.
    unfold is_one_of, is_country_word, country_words, au_words, india_words.
    rewrite !bool_decide_eq_false, !elem_of_cons, !elem_of_nil.
    cbn [existsb]. rewrite !orb_false_iff.
    assert (H : ∀ w, literal w -> same_word w x = false <-> fold x ≠ w).
    { intros w [_ Hw]. rewrite <- (u_same_word_fold w x Hw).
      by destruct (same_word w x). }
    rewrite !H by (repeat constructor; try done; by vm_compute). tauto.
Qed.

End UnicodeCountry.

(** The letters that [re.I] accepts are word characters of the table of
    CPython 3.11. *)
Lemma unicode_word_letters : Unicode.letters_are_words Unicode.unicode_word.
Proof.
  intros a c Ha.
  assert (Hr : ∀ lo hi, In (lo, hi) Unicode.word_ranges ->
                 Unicode.between lo hi c = true ->
                 Unicode.unicode_word c = true).
  { intros lo hi Hin Hb. apply existsb_exists. by exists (lo, hi). }
  unfold Unicode.in_any_case. rewrite Ha. cbn [andb].
  unfold Unicode.is_lower, Unicode.between in Ha.
  apply andb_true_iff in Ha as [Ha1 Ha2]. apply N.leb_le in Ha1, Ha2.
  rewrite !orb_true_iff, !andb_true_iff, !orb_true_iff, !N.eqb_eq.
  intros [[[[->|Hc]|[_ [->| ->]]]|[_ ->]]|[_ ->]].
  - apply (Hr 97%N 122%N); [do 3 right; by left|].
    unfold Unicode.between. apply andb_true_iff. split; by apply N.leb_le.
  - apply (Hr 65%N 90%N); [right; by left|].
    unfold Unicode.between. apply andb_true_iff. split; apply N.leb_le; lia.
  - by vm_compute.
  - by vm_compute.
  - by vm_compute.
  - by vm_compute.
Qed.

(** C4 at "Remote jobs in Australia or India’s tech", where the word
    "India" ends at a typographic apostrophe. *)
Lemma country_detection_order_witness :
  let txt := Unicode.T "Remote jobs in Australia or India’s tech" in
  (Unicode.parse_free_text_to_query Unicode.unicode_word txt).1.2
  = Unicode.T "IN".
Proof.
  intros txt.
  apply (proj1 (country_detection_order Unicode.unicode_word
                  unicode_word_letters txt)).
  - right. exists (Unicode.T "Australia"). split; [|by vm_compute].
    apply list_elem_of_In. vm_compute. auto 10.
  - exists (Unicode.T "India"). split; [|by vm_compute].
    apply list_elem_of_In. vm_compute. auto 10.
Defined.

(** The checks on two texts with characters beyond U+00FF: the word
    "India" before a typographic apostrophe, and "ındia" written with the
    dotless i, which [re.I] takes for "india". *)
Lemma country_detection_beyond_latin1 :
  (Unicode.parse_free_text_to_query Unicode.unicode_word
     (Unicode.T "jobs in India’s tech")).1.2 = Unicode.T "IN"
  ∧ (Unicode.parse_free_text_to_query Unicode.unicode_word
       (Unicode.T "au ındia")).1.2 = Unicode.T "IN".
Proof. by vm_compute. Qed.

(** *** The two embeddings of the parser agree on 8-bit texts *)

Lemma latin1_classes c :
  Unicode.is_space (Char.code c) = Char.is_space c
  ∧ Unicode.is_punct (Char.code c) = Char.is_punct c
  ∧ Unicode.is_loc_char (Char.code c) = Char.is_loc_char c
  ∧ Unicode.unicode_word (Char.code c) = Char.is_word c.
Proof.
  assert (G : ∀ c,
    Bool.eqb (Unicode.is_space (Char.code c)) (Char.is_space c)
    && Bool.eqb (Unicode.is_punct (Char.code c)) (Char.is_punct c)
    && Bool.eqb (Unicode.is_loc_char (Char.code c)) (Char.is_loc_char c)
    && Bool.eqb (Unicode.unicode_word (Char.code c)) (Char.is_word c) = true).
  { apply (all_chars_complete (λ c,
      Bool.eqb (Unicode.is_space (Char.code c)) (Char.is_space c)
      && Bool.eqb (Unicode.is_punct (Char.code c)) (Char.is_punct c)
      && Bool.eqb (Unicode.is_loc_char (Char.code c)) (Char.is_loc_char c)
      && Bool.eqb (Unicode.unicode_word (Char.code c)) (Char.is_word c))).
    vm_compute. reflexivity. }
  specialize (G c). rewrite !andb_true_iff in G.
  destruct G as [[[G1 G2] G3] G4].
  by apply eqb_prop in G1, G2, G3, G4.
Qed.

Lemma code_inj a b : Char.code a = Char.code b -> a = b.
Proof.
  unfold Char.code. intros H.
  by rewrite <- (ascii_N_embedding a), <- (ascii_N_embedding b), H.
Qed.

Lemma latin1_fold c a :
  Char.is_lower a = true ->
  (Unicode.fold_case (Char.code c) =? Char.code a)%N
  = Char.eqb (Char.lower c) a.
Proof.
  intros Ha.
  assert (G : ∀ c,
    implb (Char.is_lower (Char.lower c)
           || Unicode.is_lower (Unicode.fold_case (Char.code c)))
      (Unicode.fold_case (Char.code c) =? Char.code (Char.lower c))%N = true).
  { apply (all_chars_complete (λ c,
      implb (Char.is_lower (Char.lower c)
             || Unicode.is_lower (Unicode.fold_case (Char.code c)))
        (Unicode.fold_case (Char.code c) =? Char.code (Char.lower c))%N)).
    vm_compute. reflexivity. }
  specialize (G c).
  destruct (Char.eqb (Char.lower c) a) eqn:E.
  - apply char_eqb_eq in E. subst a. rewrite Ha in G. exact G.
  - apply N.eqb_neq. intros H.
    assert (Hl : Unicode.is_lower (Unicode.fold_case (Char.code c)) = true).
    { rewrite H. exact Ha. }
    rewrite Hl, orb_true_r in G. cbn [implb] in G.
    apply N.eqb_eq in G. rewrite G in H. apply code_inj in H.
    rewrite H, char_eqb_refl in E. done.
Qed.

Lemma latin1_app a b : code_points (a ++ b) = code_points a ++ code_points b.
Proof. apply fmap_app. Qed.

Lemma latin1_lstrip t : Unicode.lstrip (code_points t) = code_points (lstrip t).
Proof.
  induction t as [|c t IH]; [done|]. cbn [code_points fmap list_fmap].
  cbn [Unicode.lstrip lstrip]. rewrite (proj1 (latin1_classes c)).
  destruct (Char.is_space c); [exact IH|done].
Qed.

Lemma latin1_strip t : Unicode.strip (code_points t) = code_points (strip t).
Proof.
  unfold Unicode.strip, strip, Unicode.rstrip, rstrip.
  rewrite latin1_lstrip. unfold code_points.
  rewrite <- fmap_reverse. fold (code_points (reverse (lstrip t))).
  rewrite latin1_lstrip. unfold code_points. by rewrite fmap_reverse.
Qed.

Lemma latin1_run_length cls ucls t :
  (∀ c, ucls (Char.code c) = cls c) ->
  Unicode.run_length ucls (code_points t) = run_length cls t.
Proof.
  intros H. induction t as [|c t IH]; [done|].
  cbn [code_points fmap list_fmap Unicode.run_length run_length].
  change (Char.code <$> t) with (code_points t).
  rewrite H, IH. done.
Qed.

Lemma latin1_strip_prefix p : ∀ s,
  Unicode.strip_prefix (code_points p) (code_points s)
  = code_points <$> strip_prefix p s.
Proof.
  induction p as [|a p IH]; intros s; [done|].
  destruct s as [|c s]; [done|].
  cbn [code_points fmap list_fmap Unicode.strip_prefix strip_prefix].
  change (Char.code <$> p) with (code_points p).
  change (Char.code <$> s) with (code_points s).
  rewrite IH.
  destruct (Char.eqb a c) eqn:E.
  - apply char_eqb_eq in E. subst. by rewrite N.eqb_refl.
  - destruct (N.eqb_spec (Char.code a) (Char.code c)) as [H|H]; [|done].
    apply code_inj in H. subst. by rewrite char_eqb_refl in E.
Qed.

(** A pattern of the one embedding and the same pattern of the other. *)
Section SamePattern.

Variable m : matcher.
Variable um : Unicode.matcher.
Hypothesis same : ∀ (prev : option ascii) (t : text), um (Char.code <$> prev) (code_points t) = m prev t.

Lemma latin1_re_sub_go repl : ∀ (t : text) (prev : option ascii) skip,
  Unicode.re_sub_go um (code_points repl) (Char.code <$> prev) skip
    (code_points t)
  = code_points (re_sub_go m repl prev skip t).
Proof.
  induction t as [|c t IH]; intros prev skip; [done|].
  cbn [code_points fmap list_fmap Unicode.re_sub_go re_sub_go].
  change (Char.code <$> t) with (code_points t).
  destruct skip as [|k].
  - change (Char.code c :: code_points t) with (code_points (c :: t)).
    rewrite same. destruct (m prev (c :: t)) as [[|k]|];
      cbn [code_points fmap list_fmap];
      rewrite ?latin1_app; f_equal; apply (IH (Some c)).
  - apply (IH (Some c)).
Qed.

Lemma latin1_re_sub repl t :
  Unicode.re_sub um (code_points repl) (code_points t)
  = code_points (re_sub m repl t).
Proof. apply (latin1_re_sub_go repl t None). Qed.

Lemma latin1_re_search_go : ∀ (t : text) (prev : option ascii),
  Unicode.re_search_go um (Char.code <$> prev) (code_points t)
  = code_points <$> re_search_go m prev t.
Proof.
  induction t as [|c t IH]; intros prev; [done|].
  cbn [Unicode.re_search_go re_search_go].
  change (code_points (c :: t)) with (Char.code c :: code_points t).
  cbn [Unicode.re_search_go].
  change (Char.code c :: code_points t) with (code_points (c :: t)).
  rewrite same. destruct (m prev (c :: t)) as [n|].
  - cbn. unfold code_points. by rewrite fmap_take.
  - apply (IH (Some c)).
Qed.

Lemma latin1_re_search t :
  Unicode.re_search um (code_points t) = code_points <$> re_search m t.
Proof. apply (latin1_re_search_go t None). Qed.

End SamePattern.

Lemma latin1_m_run cls ucls prev t :
  (∀ c, ucls (Char.code c) = cls c) ->
  Unicode.m_run ucls (Char.code <$> prev) (code_points t) = m_run cls prev t.
Proof.
  intros H. unfold Unicode.m_run, m_run. by rewrite (latin1_run_length cls).
Qed.

Lemma latin1_m_loc prev t :
  Unicode.m_loc (Char.code <$> prev) (code_points t) = m_loc prev t.
Proof.
  unfold Unicode.m_loc, m_loc.
  change (Unicode.T "loc=") with (code_points (T "loc=")).
  rewrite latin1_strip_prefix. destruct (strip_prefix (T "loc=") t) as [r|]; [|done].
  cbn. rewrite (latin1_run_length Char.is_loc_char); [done|].
  intros c. apply latin1_classes.
Qed.

Lemma latin1_opt_is_word prev :
  Unicode.opt_is_word Unicode.unicode_word (Char.code <$> prev)
  = opt_is_word prev.
Proof. destruct prev as [c|]; [|done]. apply latin1_classes. Qed.

Lemma latin1_word_boundary prev t :
  Unicode.word_boundary Unicode.unicode_word (Char.code <$> prev)
    (code_points t)
  = word_boundary prev t.
Proof.
  unfold Unicode.word_boundary, word_boundary.
  rewrite latin1_opt_is_word. f_equal.
  destruct t as [|c t]; [done|]. apply (latin1_opt_is_word (Some c)).
Qed.

Lemma latin1_match_lit_ci w : ∀ (prev : option ascii) (t : text),
  Forall (λ a, Char.is_lower a = true) w ->
  Unicode.match_lit_ci (code_points w) (Char.code <$> prev) (code_points t)
  = (λ lr : option ascii * text, (Char.code <$> lr.1, code_points lr.2))
      <$> match_lit_ci w prev t.
Proof.
  induction w as [|a w IH]; intros prev t Hw.
  - by destruct t.
  - inversion Hw as [|? ? Ha Hw']; subst.
    destruct t as [|c t]; [done|].
    cbn [code_points fmap list_fmap Unicode.match_lit_ci match_lit_ci].
    change (Char.code <$> w) with (code_points w).
    change (Char.code <$> t) with (code_points t).
    rewrite latin1_fold by done.
    destruct (Char.eqb (Char.lower c) a); [|done].
    apply (IH (Some c) t Hw').
Qed.

Lemma latin1_match_alt ws : ∀ (prev : option ascii) (t : text),
  Forall literal ws ->
  Unicode.match_alt Unicode.unicode_word (code_points <$> ws)
    (Char.code <$> prev) (code_points t)
  = match_alt ws prev t.
Proof.
  induction ws as [|w ws IH]; intros prev t Hws; [done|].
  inversion Hws as [|? ? [_ Hw] Hws']; subst.
  cbn [fmap list_fmap Unicode.match_alt match_alt].
  rewrite latin1_match_lit_ci by done.
  destruct (match_lit_ci w prev t) as [[l r]|]; cbn.
  - rewrite latin1_word_boundary, IH by done.
    unfold code_points. by rewrite length_fmap.
  - by apply IH.
Qed.

Lemma latin1_m_words ws prev t :
  Forall literal ws ->
  Unicode.m_words Unicode.unicode_word (code_points <$> ws)
    (Char.code <$> prev) (code_points t)
  = m_words ws prev t.
Proof.
  intros Hws. unfold Unicode.m_words, m_words.
  by rewrite latin1_word_boundary, latin1_match_alt.
Qed.

Lemma latin1_normalize t :
  Unicode.normalize (code_points t) = code_points (normalize t).
Proof.
  unfold Unicode.normalize, normalize.
  change (Unicode.T " ") with (code_points (T " ")).
  rewrite latin1_strip.
  rewrite (latin1_re_sub m_punct Unicode.m_punct)
    by (intros; apply latin1_m_run; intros; apply latin1_classes).
  rewrite (latin1_re_sub m_spaces Unicode.m_spaces)
    by (intros; apply latin1_m_run; intros; apply latin1_classes).
  by rewrite latin1_strip.
Qed.

Lemma latin1_detect_country t :
  Unicode.detect_country Unicode.unicode_word (code_points t)
  = (code_points (detect_country t).1, code_points (detect_country t).2).
Proof.
  unfold Unicode.detect_country, detect_country.
  assert (Ha : ∀ prev t, Unicode.m_au Unicode.unicode_word
                           (Char.code <$> prev) (code_points t)
                         = m_au prev t).
  { intros. apply (latin1_m_words au_words). apply au_words_literals. }
  assert (Hi : ∀ prev t, Unicode.m_india Unicode.unicode_word
                           (Char.code <$> prev) (code_points t)
                         = m_india prev t).
  { intros. apply (latin1_m_words india_words). apply india_words_literals. }
  rewrite (latin1_re_search m_au _ Ha).
  destruct (re_search m_au t); cbn [fmap option_fmap option_map].
  - change (@nil N) with (code_points []).
    rewrite (latin1_re_sub m_au _ Ha).
    rewrite (latin1_re_search m_india _ Hi).
    destruct (re_search m_india (re_sub m_au [] t));
      cbn [fmap option_fmap option_map fst snd]; [|done].
    by rewrite (latin1_re_sub m_india _ Hi).
  - rewrite (latin1_re_search m_india _ Hi).
    destruct (re_search m_india t);
      cbn [fmap option_fmap option_map fst snd]; [|done].
    change (@nil N) with (code_points []).
    by rewrite (latin1_re_sub m_india _ Hi).
Qed.

Lemma latin1_extract_location t :
  Unicode.extract_location (code_points t)
  = (code_points <$> (extract_location t).1,
     code_points (extract_location t).2).
Proof.
  unfold Unicode.extract_location, extract_location.
  rewrite (latin1_re_search m_loc _ latin1_m_loc).
  destruct (re_search m_loc t) as [m0|];
    cbn [fmap option_fmap option_map fst snd]; [|done].
  change (@nil N) with (code_points []).
  rewrite (latin1_re_sub m_loc _ latin1_m_loc), latin1_strip.
  unfold Unicode.loc_group1, loc_group1.
  replace (drop 4 (code_points m0)) with (code_points (drop 4 m0))
    by (unfold code_points; by rewrite fmap_drop).
  by rewrite latin1_strip.
Qed.

(** On a text of code points below 256 the parser over code points, with
    the table of CPython 3.11, gives what the parser over 8-bit characters
    gives. *)
Theorem latin1_agreement t :
  Unicode.parse_free_text_to_query Unicode.unicode_word (code_points t)
  = (code_points (keyword_of (parse_free_text_chars t)),
     code_points (country_of (parse_free_text_chars t)),
     code_points <$> location_of (parse_free_text_chars t)).
Proof.
  unfold Unicode.parse_free_text_to_query, parse_free_text_chars.
  unfold keyword_of, country_of, location_of.
  rewrite latin1_normalize, latin1_detect_country.
  destruct (detect_country (normalize t)) as [cc t1]. cbn [fst snd].
  rewrite latin1_extract_location.
  destruct (extract_location t1) as [l t2]. cbn [fst snd].
  by destruct t2.
Qed.

(** *** The location pattern *)

Lemma strip_prefix_Some p : ∀ s r, strip_prefix p s = Some r <-> s = p ++ r.
Proof.
  induction p as [|a p IH]; intros s r; simpl.
  - split; [by intros [= ->]|by intros ->].
  - destruct s as [|c s]; [done|].
    destruct (Char.eqb a c) eqn:E.
    + apply char_eqb_eq in E as ->. rewrite IH. split; [by intros ->|].
      by intros [= ->].
    + split; [done|]. intros [= -> _]. by rewrite char_eqb_refl in E.
Qed.

Lemma m_loc_starts prev t : found (m_loc prev t) = true <-> starts_loc t.
Proof.
  unfold m_loc, starts_loc.
  destruct (strip_prefix (T "loc=") t) as [rest|] eqn:E.
  - apply strip_prefix_Some in E as ->.
    destruct rest as [|c s]; simpl.
    + split; [done|]. intros (c & s & H & _).
      by apply (app_inv_head (T "loc=")) in H.
    + destruct (Char.is_loc_char c) eqn:Hc; simpl.
      * split; [|done]. intros _. by exists c, s.
      * split; [done|]. intros (c' & s' & H & Hc').
        apply (app_inv_head (T "loc=")) in H. congruence.
  - split; [done|]. intros (c & s & -> & _).
    by rewrite (proj2 (strip_prefix_Some _ _ _) eq_refl) in E.
Qed.

Lemma m_loc_none prev t : ¬ starts_loc t -> m_loc prev t = None.
Proof.
  intros H. destruct (m_loc prev t) eqn:E; [|done].
  destruct H. apply (m_loc_starts prev). by rewrite E.
Qed.

Lemma m_loc_match prev run post :
  run ≠ [] -> loc_chars run ->
  (∀ c, head post = Some c -> Char.is_loc_char c = false) ->
  m_loc prev (T "loc=" ++ run ++ post) = Some (4 + length run).
Proof.
  intros Hne Hrun Hpost. unfold m_loc.
  rewrite (proj2 (strip_prefix_Some _ _ _) eq_refl).
  rewrite run_length_app by done. by destruct run.
Qed.

Lemma re_sub_skip m repl : ∀ y prev rest,
  re_sub_go m repl prev (length y) (y ++ rest)
  = re_sub_go m repl (last_or prev y) 0 rest.
Proof.
  induction y as [|c y IH]; intros prev rest; [done|].
  simpl. by rewrite IH, last_or_cons.
Qed.

Lemma re_sub_go_loc_prev repl : ∀ t prev k,
  re_sub_go m_loc repl prev k t = re_sub_go m_loc repl None k t.
Proof.
  induction t as [|c t IH]; intros prev k; [done|].
  simpl. destruct k; [|done]. done.
Qed.

Lemma re_search_loc_prefix rest : ∀ pre prev,
  (∀ p q, pre = p ++ q -> q ≠ [] -> ¬ starts_loc (q ++ rest)) ->
  re_search_go m_loc prev (pre ++ rest)
  = re_search_go m_loc (last_or prev pre) rest.
Proof.
  induction pre as [|c pre IH]; intros prev H; [done|].
  change ((c :: pre) ++ rest) with (c :: pre ++ rest).
  cbn [re_search_go].
  rewrite (m_loc_none prev (c :: pre ++ rest)) by (by apply (H [] (c :: pre))).
  rewrite IH, last_or_cons; [done|].
  intros p q -> Hq. by apply (H (c :: p)).
Qed.

Lemma re_sub_loc_prefix rest : ∀ pre prev,
  (∀ p q, pre = p ++ q -> q ≠ [] -> ¬ starts_loc (q ++ rest)) ->
  re_sub_go m_loc [] prev 0 (pre ++ rest)
  = pre ++ re_sub_go m_loc [] (last_or prev pre) 0 rest.
Proof.
  induction pre as [|c pre IH]; intros prev H; [done|].
  change ((c :: pre) ++ rest) with (c :: pre ++ rest).
  cbn [re_sub_go].
  rewrite (m_loc_none prev (c :: pre ++ rest)) by (by apply (H [] (c :: pre))).
  rewrite IH, last_or_cons; [done|].
  intros p q -> Hq. by apply (H (c :: p)).
Qed.

Lemma first_loc_match_search t pre run post :
  first_loc_match t pre run post ->
  re_search m_loc t = Some (T "loc=" ++ run)
  ∧ re_sub m_loc [] t = pre ++ re_sub m_loc [] post.
Proof.
  intros (-> & Hne & Hrun & Hpost & Hpre). unfold re_search, re_sub. split.
  - rewrite re_search_loc_prefix by done.
    pose proof (m_loc_match (last_or None pre) run post Hne Hrun Hpost) as Hm.
    change (T "loc=" ++ run ++ post)
      with ("l"%char :: T "oc=" ++ run ++ post) in *.
    cbn [re_search_go]. rewrite Hm. f_equal.
    change ("l"%char :: T "oc=" ++ run ++ post)
      with ((T "loc=" ++ run) ++ post).
    replace (4 + length run) with (length (T "loc=" ++ run)) by done.
    by rewrite take_app_length.
  - rewrite re_sub_loc_prefix by done. f_equal.
    pose proof (m_loc_match (last_or None pre) run post Hne Hrun Hpost) as Hm.
    change (T "loc=" ++ run ++ post)
      with ("l"%char :: T "oc=" ++ run ++ post) in *.
    cbn [re_sub_go]. rewrite Hm.
    change (4 + length run) with (S (length (T "oc=" ++ run))).
    cbn [app]. rewrite (app_assoc (T "oc=") run post).
    rewrite re_sub_skip. apply re_sub_go_loc_prev.
Qed.

Lemma no_loc_match_search_go : ∀ t prev,
  (∀ p q, t = p ++ q -> ¬ starts_loc q) <-> re_search_go m_loc prev t = None.
Proof.
  induction t as [|c t IH]; intros prev.
  - split; [done|]. intros _ p q E (c & s & -> & _).
    by destruct p.
  - cbn [re_search_go]. split.
    + intros H. rewrite (m_loc_none prev (c :: t)) by (by apply (H [])).
      apply IH. intros p q ->. by apply (H (c :: p)).
    + destruct (m_loc prev (c :: t)) eqn:E; [done|]. intros H p q Epq.
      destruct p as [|d p].
      * simpl in Epq. subst q. intros Hs%(m_loc_starts prev).
        by rewrite E in Hs.
      * injection Epq as -> ->. by apply (proj2 (IH (Some d)) H p).
Qed.

Lemma no_loc_match_search t : no_loc_match t <-> re_search m_loc t = None.
Proof. apply no_loc_match_search_go. Qed.

Lemma parse_free_text_unfold txt :
  parse_free_text_chars txt
  = let t := text_before_location txt in
    (match (extract_location t).2 with [] => software_engineer | k => k end,
     (detect_country (normalize txt)).1,
     (extract_location t).1).
Proof.
  unfold parse_free_text_chars, text_before_location.
  destruct (detect_country (normalize txt)) as [cc t]. cbn [fst snd].
  by destruct (extract_location t) as [l [|]].
Qed.

(** C7, amended: the location pattern is looked for in the text that
    remains after normalization and the country checks. If that text is
    [pre], then the leftmost match "loc=" [run], then [post], the location
    is [run] trimmed, and the keyword is made of [pre] and of [post] without
    its own matches, trimmed; if that text has no match, there is no
    location. The example of the specification parses to country IN,
    location "Bangalore" and the keyword "Looking for data engineer jobs
    in". *)
Theorem location_from_remaining_text :
  (∀ txt,
     let t := text_before_location txt in
     let q := parse_free_text_chars txt in
     (∀ pre run post,
        first_loc_match t pre run post ->
        location_of q = Some (strip run)
        ∧ keyword_of q
          = or_default (strip (pre ++ re_sub m_loc [] post)) software_engineer)
     ∧ (no_loc_match t -> location_of q = None))
  ∧ parse_free_text_to_query
      "Looking for data engineer jobs in India, loc=Bangalore"
    = ("Looking for data engineer jobs in", "IN", Some "Bangalore").
Proof.
  split; [|by vm_compute].
  intros txt t q. unfold q. rewrite parse_free_text_unfold. fold t.
  unfold location_of, keyword_of, extract_location. cbn [fst snd]. split.
  - intros pre run post H.
    destruct (first_loc_match_search _ _ _ _ H) as [-> ->]. cbn [fst snd].
    split; [reflexivity|]. unfold or_default. by destruct (strip _).
  - intros H. apply no_loc_match_search in H. by rewrite H.
Qed.

(** C7, amended, at "dev, loc=Perth 6000". *)
Lemma location_from_remaining_text_witness :
  let txt := T "dev, loc=Perth 6000" in
  first_loc_match (text_before_location txt) (T "dev ") (T "Perth ") (T "6000")
  ∧ location_of (parse_free_text_chars txt) = Some (T "Perth")
  ∧ keyword_of (parse_free_text_chars txt) = T "dev 6000".
Proof.
  intros txt.
  assert (H : first_loc_match (text_before_location txt)
                (T "dev ") (T "Perth ") (T "6000")).
  { split; [by vm_compute|]. split; [done|]. split.
    - repeat constructor.
    - split; [by intros c [= <-]|].
      intros p q E Hq (c & s & E' & _).
      destruct p as [|? [|? [|? [|? [|? p]]]]]; simplify_eq/=. }
  split; [exact H|].
  exact (proj1 (proj1 location_from_remaining_text txt) _ _ _ H).
Defined.

(** C7, as stated, fails: the input "loc=India" holds the pattern with the
    run "India", and gets no location (the India check removes the run
    first); the input "dev loc=,Sydney" holds no match of the pattern, and
    gets the location "Sydney" (normalization turns the comma into a
    space). *)
Lemma location_pattern_in_input_counterexample :
  (first_loc_match (T "loc=India") [] (T "India") []
   ∧ location_of (parse_free_text_chars (T "loc=India")) = None)
  ∧ (no_loc_match (T "dev loc=,Sydney")
     ∧ location_of (parse_free_text_chars (T "dev loc=,Sydney"))
       = Some (T "Sydney")).
Proof.
  split; split; try by vm_compute.
  - split; [done|]. split; [done|]. split; [repeat constructor|].
    split; [done|]. intros p q E Hq. by destruct p, q.
  - apply no_loc_match_search. by vm_compute.
Qed.

(** C5: [parse_free_text_to_query] where the text left by the country
    checks holds no location: the keyword is that text as it is, not
    trimmed. "au india" leaves one space, which is the keyword (its trimmed
    form is empty, and the default is not taken); "jobs in Australia" gives
    the keyword "jobs in " with its trailing space. The empty input gives
    the default keyword, AU and no location. *)
Theorem keyword_left_untrimmed :
  (keyword_of (parse_free_text_chars (T "au india")) = T " "
   ∧ strip (keyword_of (parse_free_text_chars (T "au india"))) = [])
  ∧ parse_free_text_to_query "au india" = (" ", "IN", None)
  ∧ parse_free_text_to_query "jobs in Australia" = ("jobs in ", "AU", None)
  ∧ parse_free_text_to_query EmptyString = ("software engineer", "AU", None).
Proof. repeat split; by vm_compute. Qed.

(** ** Command arguments *)

(** *** [strip] and [join] on tokens *)

Lemma lstrip_id t :
  (∀ c, head t = Some c -> Char.is_space c = false) -> lstrip t = t.
Proof. destruct t as [|c t]; [done|]. simpl. intros H. by rewrite (H c). Qed.

Lemma strip_id t :
  (∀ c, head t = Some c -> Char.is_space c = false) ->
  (∀ c, last t = Some c -> Char.is_space c = false) ->
  strip t = t.
Proof.
  intros Hh Hl. unfold strip, rstrip. rewrite (lstrip_id t) by done.
  rewrite lstrip_id; [apply reverse_involutive|].
  intros c. rewrite head_reverse. apply Hl.
Qed.

Lemma token_head a : token a -> ∃ c, head a = Some c ∧ Char.is_space c = false.
Proof.
  intros [Hne Ha]. destruct a as [|c a]; [done|]. exists c.
  by inversion Ha.
Qed.

Lemma token_last a : token a -> ∃ c, last a = Some c ∧ Char.is_space c = false.
Proof.
  intros [Hne Ha]. destruct (last a) as [c|] eqn:E.
  - exists c. split; [done|]. apply last_Some_elem_of in E.
    rewrite Forall_forall in Ha. by apply Ha.
  - by apply last_None in E.
Qed.

Lemma join_tokens_ends sep a ts :
  Forall token (a :: ts) ->
  head (join sep (a :: ts)) = head a
  ∧ ∃ c, last (join sep (a :: ts)) = Some c ∧ Char.is_space c = false.
Proof.
  revert a. induction ts as [|b ts IH]; intros a H.
  - inversion H; subst. split; [done|]. by apply token_last.
  - inversion H as [|? ? Ha H']; subst.
    destruct (IH b H') as [_ (c & Hc & Hs)].
    change (join sep (a :: b :: ts)) with (a ++ sep ++ join sep (b :: ts)).
    split.
    + destruct Ha as [Hne _]. by destruct a.
    + exists c. split; [|done].
      rewrite !last_app, Hc. done.
Qed.

Lemma strip_join_tokens ts :
  Forall token ts -> strip (join (T " ") ts) = join (T " ") ts.
Proof.
  intros H. destruct ts as [|a ts]; [done|].
  destruct (join_tokens_ends (T " ") a ts H) as [Hh (c & Hc & Hs)].
  apply strip_id.
  - intros d. rewrite Hh. inversion H; subst.
    destruct (token_head a) as (e & He & Hse); [done|]. congruence.
  - intros d. rewrite Hc. congruence.
Qed.

Lemma join_tokens_nonempty ts :
  Forall token ts -> ts ≠ [] -> join (T " ") ts ≠ [].
Proof.
  intros H Hne. destruct ts as [|a ts]; [done|].
  destruct (join_tokens_ends (T " ") a ts H) as [_ (c & Hc & _)].
  intros E. by rewrite E in Hc.
Qed.

(** *** The loop of [parse_jobs_args] *)

Lemma eq_sign_lower c : Char.eqb c "="%char = Char.eqb (Char.lower c) "="%char.
Proof.
  assert (G : ∀ c, Bool.eqb (Char.eqb c "="%char)
                      (Char.eqb (Char.lower c) "="%char) = true).
  { apply (all_chars_complete
             (λ c, Bool.eqb (Char.eqb c "="%char)
                     (Char.eqb (Char.lower c) "="%char))).
    vm_compute. reflexivity. }
  apply eqb_prop, G.
Qed.

(** [a.split("=", 1)[1]] of a token that starts with "loc=", in any case,
    is the token without its first four characters. *)
Lemma after_first_eq_loc a :
  is_loc_token a = true -> after_first_eq a = Some (drop 4 a).
Proof.
  unfold is_loc_token, startswith.
  destruct (strip_prefix (T "loc=") (lower a)) as [r|] eqn:E; [|done].
  intros _. apply strip_prefix_Some in E.
  destruct a as [|c0 [|c1 [|c2 [|c3 a]]]]; try done.
  injection E as E0 E1 E2 E3 _.
  cbn [after_first_eq drop].
  rewrite (eq_sign_lower c0), (eq_sign_lower c1), (eq_sign_lower c2),
    (eq_sign_lower c3), E0, E1, E2, E3. done.
Qed.

Lemma country_token_not_loc a :
  is_country_token a = true -> is_loc_token a = false.
Proof.
  unfold is_country_token, is_loc_token, text_eqb.
  intros [H|H]%orb_prop; apply bool_decide_eq_true in H; by rewrite H.
Qed.

Lemma country_token_upper a :
  is_country_token a = true ->
  upper (lower a) = T "AU" ∨ upper (lower a) = T "IN".
Proof.
  unfold is_country_token, text_eqb.
  intros [H|H]%orb_prop; apply bool_decide_eq_true in H; rewrite H; auto.
Qed.

Lemma last_filter_cons (P : text -> Prop) `{!∀ x, Decision (P x)} a args :
  last (filter P (a :: args))
  = match last (filter P args) with
    | Some b => Some b
    | None => if decide (P a) then Some a else None
    end.
Proof.
  rewrite filter_cons. case_decide; [|by destruct (last _)].
  rewrite last_cons. by destruct (last _).
Qed.

Lemma arg_loop_spec args : ∀ st,
  arg_loop st args
  = Some {| st_country := country_after (st_country st) args;
            st_location := location_after (st_location st) args;
            st_tokens := st_tokens st ++ keyword_tokens args |}.
Proof.
  induction args as [|a args IH]; intros st.
  - simpl. unfold keyword_tokens. rewrite filter_nil, app_nil_r. by destruct st.
  - cbn [arg_loop]. unfold arg_step.
    fold (is_country_token a). fold (is_loc_token a).
    unfold country_after, location_after, keyword_tokens, is_keyword_token.
    rewrite !last_filter_cons, filter_cons.
    destruct (is_country_token a) eqn:Ec.
    + rewrite (country_token_not_loc a Ec), IH. cbn [st_country st_location st_tokens].
      unfold country_after, location_after, keyword_tokens, is_keyword_token.
      rewrite (decide_True (P := true = true)) by done.
      rewrite (decide_False (P := false = true)) by done.
      rewrite decide_False by done.
      f_equal. f_equal; by destruct (last _).
    + destruct (is_loc_token a) eqn:El.
      * rewrite (after_first_eq_loc a El), IH.
        cbn [st_country st_location st_tokens].
        unfold country_after, location_after, keyword_tokens, is_keyword_token.
        rewrite (decide_True (P := true = true)) by done.
        rewrite (decide_False (P := false = true)) by done.
        rewrite decide_False by done.
        f_equal. f_equal; by destruct (last _).
      * rewrite IH. cbn [st_country st_location st_tokens].
        unfold country_after, location_after, keyword_tokens, is_keyword_token.
        rewrite (decide_False (P := false = true)) by done.
        rewrite decide_True by done.
        rewrite <- app_assoc. f_equal. f_equal; by destruct (last _).
Qed.

Lemma spec_country_cases args :
  spec_country args = T "AU" ∨ spec_country args = T "IN".
Proof.
  unfold spec_country.
  destruct (last _) as [a|] eqn:E; [|by left].
  apply last_Some_elem_of, list_elem_of_filter in E as [E _].
  by apply country_token_upper.
Qed.

Lemma or_default_nonempty x : or_default x software_engineer ≠ [].
Proof. by destruct x. Qed.

(** C6: [parse_jobs_args] returns for every sequence of arguments. The
    country is the upper case of the last argument equal to "au" or "in" in
    any case, AU without one, so always AU or IN; the location is what
    follows "loc=" in the last argument that starts with it in any case;
    the keyword is never empty, and for arguments without white space it is
    the other arguments joined by single spaces, or "software engineer"
    when there is none. ["au"; "loc=Sydney"; "data"; "engineer"] gives
    "data engineer", AU, "Sydney". *)
Theorem parse_jobs_args_spec :
  (∀ args,
     ∃ keyword,
       parse_jobs_args args
       = Some (keyword, spec_country args, spec_location args)
       ∧ keyword
         = or_default (strip (join (T " ") (keyword_tokens args)))
             software_engineer
       ∧ keyword ≠ []
       ∧ (spec_country args = T "AU" ∨ spec_country args = T "IN")
       ∧ (Forall token args -> keyword = spec_keyword args))
  ∧ parse_jobs_args [T "au"; T "loc=Sydney"; T "data"; T "engineer"]
    = Some (T "data engineer", T "AU", Some (T "Sydney")).
Proof.
  split; [|by vm_compute].
  intros args. eexists. split; [|split; [reflexivity|]].
  - unfold parse_jobs_args. rewrite arg_loop_spec.
    cbn [st_country st_location st_tokens app].
    unfold country_after, location_after, spec_country, spec_location.
    by destruct (last (filter (λ a, is_loc_token a = true) args)).
  - split; [apply or_default_nonempty|]. split; [apply spec_country_cases|].
    intros Htok. unfold spec_keyword.
    assert (Hk : Forall token (keyword_tokens args)).
    { unfold keyword_tokens. rewrite Forall_forall in *.
      intros a [_ Ha]%list_elem_of_filter. by apply Htok. }
    rewrite strip_join_tokens by done.
    destruct (keyword_tokens args) as [|a ts] eqn:E; [done|].
    pose proof (join_tokens_nonempty (a :: ts) Hk) as Hne.
    unfold or_default. destruct (join (T " ") (a :: ts)); [|done].
    by destruct Hne.
Qed.

(** C6 at ["IN"; "LOC=Pune"; "java"; "au"; "dev"]. *)
Lemma parse_jobs_args_spec_witness :
  let args := [T "IN"; T "LOC=Pune"; T "java"; T "au"; T "dev"] in
  Forall token args
  ∧ parse_jobs_args args = Some (T "java dev", T "AU", Some (T "Pune")).
Proof.
  intros args.
  assert (Htok : Forall token args).
  { repeat constructor; try done. }
  split; [exact Htok|].
  destruct (proj1 parse_jobs_args_spec args) as (k & -> & _ & _ & _ & Hk).
  rewrite (Hk Htok). by vm_compute.
Defined.

(** ** Subscription callbacks *)

Section SubscriptionFacts.

Variable daily_time : string.

Lemma stored_prefs_upsert db uid p :
  stored_prefs (upsert_user db uid p) uid
  = p ∪ match db !! uid with
        | Some u => default ∅ (user_prefs u)
        | None => no_prefs
        end.
Proof.
  unfold stored_prefs, get_user, upsert_user. by rewrite lookup_insert_eq.
Qed.

Lemma upsert_user_idemp db uid p :
  upsert_user (upsert_user db uid p) uid p = upsert_user db uid p.
Proof.
  unfold upsert_user.
  rewrite lookup_insert_eq, insert_insert_eq. cbn [user_prefs default].
  unfold id. by rewrite (assoc_L (∪)), (idemp_L (∪)).
Qed.

(** Saving what was just read changes no flag. *)
Lemma stored_prefs_resave db uid :
  stored_prefs (upsert_user db uid (stored_prefs db uid)) uid
  = stored_prefs db uid.
Proof.
  rewrite stored_prefs_upsert. unfold stored_prefs, get_user, prefs_of.
  destruct (db !! uid) as [[i [q|]]|]; cbn [user_prefs default].
  - by rewrite (idemp_L (∪)).
  - by rewrite (right_id_L ∅ (∪)).
  - by rewrite (idemp_L (∪)).
Qed.

Lemma toggle_changes p key : toggle p key ≠ p.
Proof.
  intros E. assert (H : toggle p key !! key = p !! key) by (by rewrite E).
  unfold toggle, flag in H. rewrite lookup_insert_eq in H.
  destruct (p !! key) as [[]|]; done.
Qed.

Lemma callback_open mode db uid :
  sub_callback daily_time mode db uid "ui:open_subscribe"
  = (db, Some (edit_message_text "Choose what you want to receive daily:"
                 (Some (build_subscribe_keyboard daily_time
                          (stored_prefs db uid))))).
Proof. reflexivity. Qed.

Lemma callback_clear mode db uid :
  sub_callback daily_time mode db uid "sub:clear"
  = (upsert_user db uid no_prefs,
     Some (edit_message_text "Unsubscribed from all." None)).
Proof. reflexivity. Qed.

Lemma callback_done mode db uid :
  sub_callback daily_time mode db uid "sub:done"
  = (upsert_user db uid (stored_prefs db uid),
     Some (edit_saved (enabled_flags (stored_prefs db uid)))).
Proof. reflexivity. Qed.

Lemma toggle_data_chars key : T (toggle_data key) = T "sub:toggle:" ++ T key.
Proof. reflexivity. Qed.

Lemma callback_toggle mode db uid key :
  sub_callback daily_time mode db uid (toggle_data key)
  = (assign_in_store mode db uid key (negb (flag (stored_prefs db uid) key)),
     Some (edit_message_reply_markup
             (build_subscribe_keyboard daily_time
                (toggle (stored_prefs db uid) key)))).
Proof.
  unfold sub_callback.
  rewrite !bool_decide_eq_false_2
    by (intros E; apply (f_equal T) in E; rewrite toggle_data_chars in E;
        discriminate E).
  rewrite toggle_data_chars.
  rewrite (proj2 (strip_prefix_Some _ _ _) eq_refl).
  unfold str. rewrite string_of_list_ascii_of_string. done.
Qed.

(** C8: whatever the stored record, the clear action writes the all-false
    record: the three flags read false afterwards, a second clear changes
    nothing, and the flags are the same from any other prior state. *)
Theorem clear_persists_all_false mode db uid :
  let db' := (sub_callback daily_time mode db uid "sub:clear").1 in
  db' = upsert_user db uid no_prefs
  ∧ Forall (λ k, stored_prefs db' uid !! k = Some false) the_flags
  ∧ (sub_callback daily_time mode db' uid "sub:clear").1 = db'
  ∧ ∀ db0,
      let db0' := (sub_callback daily_time mode db0 uid "sub:clear").1 in
      Forall (λ k, stored_prefs db0' uid !! k = stored_prefs db' uid !! k)
        the_flags.
Proof.
  intros db'. unfold db'. rewrite !callback_clear. cbn [fst].
  assert (H : ∀ d, Forall (λ k, stored_prefs (upsert_user d uid no_prefs) uid !! k
                               = Some false) the_flags).
  { intros d. rewrite stored_prefs_upsert.
    repeat constructor; by apply lookup_union_Some_l. }
  split; [done|]. split; [apply H|]. split; [apply upsert_user_idemp|].
  intros db0. rewrite callback_clear. cbn [fst].
  pose proof (H db) as H1. pose proof (H db0) as H2. clear H.
  unfold the_flags in *. rewrite !Forall_cons in *.
  destruct H1 as (-> & -> & -> & _), H2 as (-> & -> & -> & _). done.
Qed.

(** Open, toggle(key), done, by the way the store hands out records. With
    a store that hands out copies, the record stored after done is the one
    stored before: each run of the handler reads the stored record afresh,
    and the toggled snapshot is gone when the run ends. With a store that
    hands out the stored record itself, the toggle reaches the stored
    record, and the record stored after done is that record with the flag
    of the key flipped. *)
Lemma toggle_then_done_by_store db uid key :
  let press mode :=
    (run_callbacks daily_time mode db uid
       ["ui:open_subscribe"; toggle_data key; "sub:done"]).1 in
  stored_prefs (press Copies) uid = stored_prefs db uid
  ∧ (∀ i p, db !! uid = Some {| user_id := i; user_prefs := Some p |} ->
       stored_prefs (press Shares) uid = toggle p key).
Proof.
  intros press. unfold press. cbn [run_callbacks].
  rewrite !callback_open, !callback_toggle. split.
  - cbn [assign_in_store]. rewrite callback_done. cbn [fst].
    apply stored_prefs_resave.
  - intros i p E.
    assert (Ep : stored_prefs db uid = p).
    { unfold stored_prefs, get_user. by rewrite E. }
    rewrite Ep. unfold assign_in_store. rewrite E.
    rewrite callback_done. cbn [fst]. rewrite stored_prefs_resave.
    unfold stored_prefs, get_user. by rewrite lookup_insert_eq.
Qed.

End SubscriptionFacts.

(** ** Digest, channel summary and text search *)

Lemma sends_bind {A B} (m : io A) (k : A -> io B) a :
  result m = returned a ->
  sends (m ≫= k) = sends m ++ sends (k a)
  ∧ result (m ≫= k) = result (k a).
Proof.
  destruct m as [tr r]. unfold result, sends, trace. simpl. intros ->.
  io_unfold. destruct (k a) as [tr' r']. simpl. by rewrite filter_app.
Qed.

Lemma result_bind_raised {A B} (m : io A) (k : A -> io B) :
  result m = raised -> m ≫= k = (trace m, raised).
Proof.
  destruct m as [tr r]. unfold result, trace. simpl. intros ->. done.
Qed.

Lemma for_each_returns {A} (body : A -> io unit) xs :
  (∀ x, result (body x) = returned tt) ->
  result (for_each xs body) = returned tt
  ∧ sends (for_each xs body) = flat_map (λ x, sends (body x)) xs.
Proof.
  intros H. induction xs as [|x xs [IHr IHs]]; [done|].
  cbn [for_each flat_map].
  destruct (sends_bind (body x) (λ _, for_each xs body) tt (H x)) as [-> ->].
  by rewrite IHs.
Qed.

Lemma nonblank_nonempty s : nonblank s = true -> s ≠ EmptyString.
Proof. by intros H ->. Qed.

Lemma app_empty_r s : s +:+ EmptyString = s.
Proof.
  induction s as [|c s IH]; [done|].
  change (String c s +:+ EmptyString) with (String c (s +:+ EmptyString)). by rewrite IH.
Qed.

Section HandlerFacts.

Variables job tool : Type.
Variable jobs_api : string -> string -> option string -> outcome (list job).
Variable ai_tools_api : outcome (list tool).
Variable format_jobs : list job -> string.
Variable format_tools : list tool -> string.
Variable delivers : dest -> string -> bool.
Variable CHANNEL_ID : option string.

Local Abbreviation run_one :=
  (push_one job tool jobs_api ai_tools_api format_jobs format_tools delivers).
Local Abbreviation run_daily :=
  (push_daily_job job tool jobs_api ai_tools_api format_jobs format_tools
     delivers CHANNEL_ID).
Local Abbreviation run_channel :=
  (post_channel_summary job tool jobs_api ai_tools_api format_jobs
     format_tools delivers CHANNEL_ID).
Local Abbreviation run_search :=
  (text_search job jobs_api format_jobs delivers).

Lemma push_one_no_flag u :
  any_flag (default ∅ (user_prefs u)) = false -> run_one u = ([], returned tt).
Proof. unfold push_one. by intros ->. Qed.

Section ProvidersReturn.

Variables (ja ji : list job) (ts : list tool).
Hypothesis au_returns : jobs_api default_keyword "AU" None = returned ja.
Hypothesis in_returns : jobs_api default_keyword "IN" None = returned ji.
Hypothesis tools_return : ai_tools_api = returned ts.

Let au := format_jobs ja.
Let in_ := format_jobs ji.
Let tools := format_tools ts.

Lemma push_one_attempt u :
  result (run_one u) = returned tt
  ∧ sends (run_one u) = digest_attempt u au in_ tools.
Proof.
  unfold push_one, digest_attempt, user_sections.
  destruct (any_flag _); [|done]. cbn [negb].
  unfold get_jobs, get_ai_tools, send_message. fold default_keyword.
  rewrite au_returns, in_returns, tools_return.
  destruct (flag _ "jobs_au"), (flag _ "jobs_in"), (flag _ "ai_tools");
    io_unfold; cbn; done.
Qed.

Lemma channel_summary_attempt :
  result run_channel = returned tt
  ∧ sends run_channel = channel_attempt CHANNEL_ID au in_ tools.
Proof.
  unfold post_channel_summary, channel_attempt,
    channel_of, channel_sections, channel_kept, titled.
  destruct CHANNEL_ID as [[|c s]|]; try done.
  unfold get_jobs, get_ai_tools, send_message. fold default_keyword.
  rewrite au_returns, in_returns, tools_return.
  subst au in_ tools. rewrite !filter_cons, filter_nil. cbn [snd].
  io_unfold. cbn.
  by destruct (nonblank (format_jobs ja)), (nonblank (format_jobs ji)),
    (nonblank (format_tools ts)).
Qed.

(** The particular case of the specification: jobs_au and ai_tools enabled
    give two sections, AU jobs first, AI tools second. *)
Lemma digest_two_sections uid :
  sends (run_one (row uid prefs_au_tools))
  = [ev_send (to_chat uid)
       (title_au +:+ au +:+ separator +:+ title_tools +:+ tools)].
Proof. destruct (push_one_attempt (row uid prefs_au_tools)) as [_ ->]. done. Qed.

Lemma push_daily_job_attempts all_users :
  result (run_daily all_users) = returned tt
  ∧ sends (run_daily all_users)
    = flat_map (λ u, digest_attempt u au in_ tools) all_users
        ++ channel_attempt CHANNEL_ID au in_ tools.
Proof.
  unfold push_daily_job.
  destruct (for_each_returns run_one all_users) as [Hr Hs].
  { intros u. apply push_one_attempt. }
  destruct (sends_bind (for_each all_users run_one)
              (λ _, run_channel) tt Hr) as [-> ->].
  destruct channel_summary_attempt as [-> ->]. split; [done|].
  rewrite Hs. f_equal. apply flat_map_ext. intros u. apply push_one_attempt.
Qed.

End ProvidersReturn.

(** C1: [push_daily_job] at a user with jobs_au alone enabled, when the AU
    jobs format to the empty text: a delivery is attempted, and the message
    is the AU section with its title and no content. *)
Theorem empty_section_is_sent uid js :
  jobs_api default_keyword "AU" None = returned js ->
  format_jobs js = EmptyString ->
  sends (run_one (row uid prefs_au_only)) = [ev_send (to_chat uid) title_au].
Proof.
  intros Hjs Hfmt. unfold push_one, get_jobs, send_message. fold default_keyword.
  change (default ∅ (user_prefs (row uid prefs_au_only))) with prefs_au_only.
  change (any_flag prefs_au_only) with true.
  change (flag prefs_au_only "jobs_au") with true.
  change (flag prefs_au_only "jobs_in") with false.
  change (flag prefs_au_only "ai_tools") with false.
  rewrite Hjs. io_unfold. cbn. by rewrite Hfmt, app_empty_r.
Qed.

Lemma for_each_app {A} (body : A -> io unit) xs ys :
  for_each (xs ++ ys) body = (for_each xs body;; for_each ys body).
Proof.
  induction xs as [|x xs IH]; cbn [app for_each].
  - io_unfold. by destruct (for_each ys body).
  - rewrite IH. io_unfold.
    destruct (body x) as [tr [[]|]]; [|done].
    destruct (for_each xs body) as [tr1 [[]|]]; [|done].
    destruct (for_each ys body) as [tr2 r2]. by rewrite (assoc_L (++)).
Qed.

(** A fetch of the digest of one user that raises ends the work on that
    user there, before the delivery. *)
Lemma push_one_fetch_raises u :
  let p := default ∅ (user_prefs u) in
  flag p "jobs_au" = true ∧ jobs_api default_keyword "AU" None = raised
  ∨ flag p "jobs_in" = true ∧ jobs_api default_keyword "IN" None = raised
  ∨ flag p "ai_tools" = true ∧ ai_tools_api = raised ->
  result (run_one u) = raised ∧ sends (run_one u) = [].
Proof.
  intros p H.
  assert (Hany : any_flag p = true).
  { unfold any_flag. apply bool_decide_eq_true.
    destruct H as [[Hf _]|[[Hf _]|[Hf _]]]; unfold flag in Hf;
      [exists "jobs_au", true|exists "jobs_in", true|exists "ai_tools", true];
      by destruct (p !! _) as [[]|]. }
  unfold push_one. fold p. rewrite Hany. cbn [negb].
  unfold get_jobs, get_ai_tools. fold default_keyword.
  destruct H as [[Hf Hr]|[[Hf Hr]|[Hf Hr]]]; rewrite Hf, Hr.
  - done.
  - destruct (flag p "jobs_au"); [|done].
    by destruct (jobs_api default_keyword "AU" None).
  - destruct (flag p "jobs_au"), (flag p "jobs_in");
      repeat match goal with
             | |- context [jobs_api ?k ?c ?l] => destruct (jobs_api k c l)
             end; done.
Qed.

(** A fetch of the channel summary that raises ends it before the
    delivery. *)
Lemma channel_fetch_raises ch :
  channel_of CHANNEL_ID = Some ch ->
  jobs_api default_keyword "AU" None = raised
  ∨ jobs_api default_keyword "IN" None = raised
  ∨ ai_tools_api = raised ->
  result run_channel = raised ∧ sends run_channel = [].
Proof.
  intros Hch H. unfold post_channel_summary. unfold channel_of in Hch.
  destruct CHANNEL_ID as [[|c s]|]; try done.
  unfold get_jobs, get_ai_tools. fold default_keyword.
  destruct H as [Hr|[Hr|Hr]]; rewrite Hr.
  - done.
  - by destruct (jobs_api default_keyword "AU" None).
  - by destruct (jobs_api default_keyword "AU" None),
      (jobs_api default_keyword "IN" None).
Qed.

(** C3, amended: when the providers return, the run returns whatever
    deliveries fail: every user with an enabled flag gets one delivery
    attempt, in the order of the users, and the channel summary is attempted
    last. A fetch that raises is not caught: whichever of the three fetches
    it is and wherever the user stands, the run raises, it makes the calls
    of the users up to that one and none for a later user or for the
    channel, and its delivery attempts are those of the users before; a
    fetch of the channel summary that raises ends the run as well, with no
    delivery to the channel. *)
Theorem delivery_failures_do_not_stop_the_run :
  (∀ ja ji ts all_users,
     jobs_api default_keyword "AU" None = returned ja ->
     jobs_api default_keyword "IN" None = returned ji ->
     ai_tools_api = returned ts ->
     result (run_daily all_users) = returned tt
     ∧ sends (run_daily all_users)
       = flat_map (λ u, digest_attempt u (format_jobs ja) (format_jobs ji)
                          (format_tools ts)) all_users
           ++ channel_attempt CHANNEL_ID (format_jobs ja) (format_jobs ji)
                (format_tools ts))
  ∧ (∀ before u after,
       let p := default ∅ (user_prefs u) in
       flag p "jobs_au" = true ∧ jobs_api default_keyword "AU" None = raised
       ∨ flag p "jobs_in" = true ∧ jobs_api default_keyword "IN" None = raised
       ∨ flag p "ai_tools" = true ∧ ai_tools_api = raised ->
       result (run_daily (before ++ u :: after)) = raised
       ∧ trace (run_daily (before ++ u :: after))
         = trace (for_each (before ++ [u]) run_one)
       ∧ sends (run_daily (before ++ u :: after))
         = sends (for_each before run_one))
  ∧ (∀ ch all_users,
       channel_of CHANNEL_ID = Some ch ->
       jobs_api default_keyword "AU" None = raised
       ∨ jobs_api default_keyword "IN" None = raised
       ∨ ai_tools_api = raised ->
       result (run_daily all_users) = raised
       ∧ sends run_channel = []).
Proof.
  split; [|split].
  - intros ja ji ts all_users Ha Hi Ht.
    by apply push_daily_job_attempts.
  - intros before u after p H.
    destruct (push_one_fetch_raises u H) as [Hr Hs].
    unfold push_daily_job. rewrite !for_each_app. cbn [for_each].
    unfold sends, result, trace in *.
    destruct (run_one u) as [tru ru]. cbn [fst snd] in Hr, Hs. subst ru.
    destruct (for_each before run_one) as [trb [[]|]]; io_unfold; cbn.
    + rewrite filter_app, Hs, (right_id_L [] (++)). done.
    + done.
  - intros ch all_users Hch H.
    destruct (channel_fetch_raises ch Hch H) as [Hr Hs].
    split; [|exact Hs]. unfold push_daily_job.
    unfold result in *. destruct run_channel as [trc rc]. cbn [snd] in Hr.
    subst rc. by destruct (for_each all_users run_one) as [tr [[]|]].
Qed.

(** C9, amended: without a channel destination [post_channel_summary]
    makes no call at all. With one, and providers that return, the message is made of the
    sections whose content is not blank, in the fixed order, and every
    section kept has a content that is not empty; when the three providers
    return nothing (and the formatters give the empty text for that) no
    delivery is attempted; when only the AI tools have content, the message
    is the AI tools section alone. *)
Theorem channel_summary_sections :
  (channel_of CHANNEL_ID = None -> run_channel = ([], returned tt))
  ∧ (∀ ch ja ji ts,
       channel_of CHANNEL_ID = Some ch ->
       jobs_api default_keyword "AU" None = returned ja ->
       jobs_api default_keyword "IN" None = returned ji ->
       ai_tools_api = returned ts ->
       let kept := channel_kept (format_jobs ja) (format_jobs ji)
                     (format_tools ts) in
       sends run_channel
       = message_to (to_channel ch) (map (λ tc, tc.1 +:+ tc.2) kept)
       ∧ Forall (λ tc, tc.2 ≠ EmptyString) kept
       ∧ (format_jobs [] = EmptyString -> format_tools [] = EmptyString ->
          ja = [] -> ji = [] -> ts = [] -> sends run_channel = [])
       ∧ (format_jobs [] = EmptyString -> ja = [] -> ji = [] ->
          nonblank (format_tools ts) = true ->
          sends run_channel
          = [ev_send (to_channel ch) (title_tools +:+ format_tools ts)])).
Proof.
  split.
  - unfold channel_of, post_channel_summary.
    by destruct CHANNEL_ID as [[|c s]|].
  - intros ch ja ji ts Hch Ha Hi Ht kept.
    destruct (channel_summary_attempt ja ji ts Ha Hi Ht) as [_ Hs].
    rewrite Hs. unfold channel_attempt. rewrite Hch.
    split; [done|]. split.
    { unfold kept, channel_kept. apply Forall_forall.
      intros tc [H _]%list_elem_of_filter. by apply nonblank_nonempty. }
    unfold channel_sections, channel_kept, titled.
    rewrite !filter_cons, filter_nil. cbn [snd]. split.
    + intros Hfj Hft -> -> ->. rewrite Hfj, Hft. done.
    + intros Hfj -> -> Hnb. rewrite Hfj, Hnb. done.
Qed.

(** C10: the parsed country is AU or IN. When the provider returns
    nothing for the parsed country, it is asked once more, with the same
    keyword and location and the other country of the two; if that gives
    results, the reply carries them under a first line that reads the
    keyword, then the other country, then the location if there is one; if
    not, the first line keeps the parsed country. With results at once
    there is no second call. *)
Theorem text_search_retries_other_country chat txt :
  let q := parse_free_text_to_query txt in
  let kw := q.1.1 in
  let cc := q.1.2 in
  let loc := q.2 in
  let place := match loc with
               | None | Some EmptyString => EmptyString
               | Some l => " — " +:+ l
               end in
  let reply country body :=
    ev_send (to_chat chat)
      (("🔎 <b>Jobs for “" +:+ kw +:+ "” — " +:+ country +:+ "</b>" +:+ place)
       +:+ nl +:+ nl +:+ body) in
  ∃ retry,
    (cc = "AU" ∧ retry = "IN" ∨ cc = "IN" ∧ retry = "AU")
    ∧ (∀ r rs,
         jobs_api kw cc loc = returned [] ->
         jobs_api kw retry loc = returned (r :: rs) ->
         trace (run_search chat txt)
         = [ev_get_jobs kw cc loc; ev_get_jobs kw retry loc;
            reply retry (format_jobs (r :: rs))])
    ∧ (jobs_api kw cc loc = returned [] ->
       jobs_api kw retry loc = returned [] ->
       trace (run_search chat txt)
       = [ev_get_jobs kw cc loc; ev_get_jobs kw retry loc;
          reply cc "No results found."])
    ∧ (∀ r rs,
         jobs_api kw cc loc = returned (r :: rs) ->
         trace (run_search chat txt)
         = [ev_get_jobs kw cc loc; reply cc (format_jobs (r :: rs))]).
Proof.
  intros q kw cc loc place reply.
  assert (Hcc : cc = "AU" ∨ cc = "IN").
  { unfold cc, q, parse_free_text_to_query.
    pose proof (parse_free_text_country (T txt)) as Hc.
    rewrite detect_country_india in Hc. unfold country_of in Hc.
    destruct (parse_free_text_chars (T txt)) as [[k c] l]. cbn in Hc |- *.
    rewrite Hc. destruct (found _); auto. }
  exists (other_country cc).
  split; [destruct Hcc as [-> | ->]; auto|].
  unfold text_search. fold q.
  destruct q as [[kw0 cc0] loc0] eqn:Eq. subst kw cc loc reply place.
  cbn [fst snd]. unfold get_jobs, send_message, header.
  repeat split.
  - intros r rs H1 H2. rewrite H1. io_unfold. cbn. rewrite H2. by cbn.
  - intros H1 H2. rewrite H1. io_unfold. cbn. rewrite H2. by cbn.
  - intros r rs H1. rewrite H1. io_unfold. by cbn.
Qed.

End HandlerFacts.

(** C1 with a job provider that has nothing. *)
Lemma empty_section_is_sent_witness :
  sends (push_one string string no_jobs no_tools lines lines never_delivers
           (row 7 prefs_au_only))
  = [ev_send (to_chat 7) title_au].
Proof.
  apply (empty_section_is_sent string string no_jobs no_tools lines lines
           never_delivers 7%Z []); reflexivity.
Defined.

(** C3, as stated, fails: with a job provider that raises, the run at two
    subscribed users and a configured channel raises, and nothing is
    delivered to the second user or to the channel. *)
Lemma fetch_failure_stops_the_run_counterexample :
  let run := push_daily_job string string jobs_down tools_one lines lines
               always_delivers smartify_channel
               [row 1 prefs_au_only; row 2 prefs_au_tools] in
  result run = raised ∧ sends run = [].
Proof. by vm_compute. Qed.

(** C3, amended, with a transport that fails every delivery: three
    attempts, two users and the channel; and with an AI-tools provider that
    raises: the run ends at the second of three users, after the delivery
    to the first. *)
Lemma delivery_failures_do_not_stop_the_run_witness :
  let run := push_daily_job string string jobs_india_only tools_one lines lines
               never_delivers smartify_channel
               [row 1 prefs_au_only; row 2 no_prefs; row 3 prefs_au_tools] in
  let broken := push_daily_job string string jobs_india_only raised lines
                  lines always_delivers smartify_channel
                  [row 1 prefs_au_only; row 3 prefs_au_tools;
                   row 4 prefs_au_only] in
  result run = returned tt
  ∧ length (sends run) = 3
  ∧ result broken = raised
  ∧ sends broken = [ev_send (to_chat 1) (title_au +:+ lines [])].
Proof.
  intros run broken.
  destruct (proj1 (delivery_failures_do_not_stop_the_run string string
                     jobs_india_only tools_one lines lines never_delivers
                     smartify_channel)
              [] ["Data Engineer, Pune"] ["Perplexity"]
              [row 1 prefs_au_only; row 2 no_prefs; row 3 prefs_au_tools]
              eq_refl eq_refl eq_refl) as [Hr Hs].
  destruct (proj1 (proj2 (delivery_failures_do_not_stop_the_run string string
                            jobs_india_only raised lines lines
                            always_delivers smartify_channel))
              [row 1 prefs_au_only] (row 3 prefs_au_tools)
              [row 4 prefs_au_only]) as (Hb & _ & Hbs).
  { right. right. split; reflexivity. }
  split; [exact Hr|]. split; [unfold run; rewrite Hs; by vm_compute|].
  split; [exact Hb|]. unfold broken.
  change ([row 1 prefs_au_only; row 3 prefs_au_tools; row 4 prefs_au_only])
    with ([row 1 prefs_au_only] ++ row 3 prefs_au_tools
            :: [row 4 prefs_au_only]).
  rewrite Hbs. by vm_compute.
Defined.

(** C9 with no jobs and one tool. *)
Lemma channel_summary_sections_witness :
  sends (post_channel_summary string string no_jobs tools_one lines lines
           never_delivers smartify_channel)
  = [ev_send (to_channel "@smartify_jobs") (title_tools +:+ "Perplexity")].
Proof.
  destruct (proj2 (channel_summary_sections string string no_jobs tools_one
                     lines lines never_delivers smartify_channel)
              "@smartify_jobs" [] [] ["Perplexity"]
              eq_refl eq_refl eq_refl eq_refl) as (_ & _ & _ & H).
  apply H; reflexivity.
Defined.

(** C9, as stated, fails: an AI-tools content of one space is not empty,
    and with nothing else to post no delivery is attempted. *)
Lemma blank_section_is_not_sent_counterexample :
  let run := post_channel_summary string string no_jobs (returned [" "])
               lines lines always_delivers smartify_channel in
  lines [" "] ≠ EmptyString
  ∧ lines [] = EmptyString
  ∧ sends run = [].
Proof. by vm_compute. Qed.

(** C10 at "python developer", with postings in India only. *)
Lemma text_search_retries_other_country_witness :
  trace (text_search string jobs_india_only lines always_delivers 42
           "python developer")
  = [ev_get_jobs "python developer" "AU" None;
     ev_get_jobs "python developer" "IN" None;
     ev_send (to_chat 42)
       ("🔎 <b>Jobs for “python developer” — IN</b>" +:+ nl +:+ nl
        +:+ "Data Engineer, Pune")].
Proof.
  destruct (text_search_retries_other_country string jobs_india_only lines
              always_delivers 42%Z "python developer")
    as (retry & [[_ ->]|[Hcc _]] & H & _).
  - apply (H "Data Engineer, Pune" []); reflexivity.
  - discriminate Hcc.
Defined.

(** * Further properties of the parsers, the callbacks, the digest and
      the commands *)

(** ** Normalization *)

(** Induction along the runs of a character class. *)
Lemma class_runs_ind (cls : ascii -> bool) (P : text -> Prop) :
  P [] ->
  (∀ c t, cls c = false -> P t -> P (c :: t)) ->
  (∀ x rest, x ≠ [] -> Forall (λ c, cls c = true) x ->
             (∀ c, head rest = Some c -> cls c = false) ->
             P rest -> P (x ++ rest)) ->
  ∀ t, P t.
Proof.
  intros Hnil Hsep Hrun t.
  induction t as [t IH] using (induction_ltof1 _ (@length ascii)).
  unfold ltof in IH.
  destruct t as [|c t]; [done|].
  destruct (cls c) eqn:Hc.
  - rewrite <- (run_take_drop cls t).
    change (P ((c :: take (run_length cls t) t) ++ drop (run_length cls t) t)).
    apply Hrun; [done| | |].
    + constructor; [done|]. apply run_take_Forall.
    + intros d. apply run_drop_head.
    + apply IH. simpl. rewrite length_drop. lia.
  - apply Hsep; [done|]. apply IH. simpl. lia.
Qed.

Lemma re_sub_go_Forall (Q : ascii -> Prop) m repl : ∀ t prev k,
  Forall Q repl -> Forall Q t -> Forall Q (re_sub_go m repl prev k t).
Proof.
  induction t as [|c t IH]; intros prev k Hr Ht; [done|].
  inversion Ht; subst. simpl. destruct k as [|k]; [|by apply IH].
  destruct (m prev (c :: t)) as [[|n]|].
  - constructor; [done|]. by apply IH.
  - apply Forall_app. split; [done|]. by apply IH.
  - constructor; [done|]. by apply IH.
Qed.

Section ClassRuns.

Variable cls : ascii -> bool.
Variable repl : text.

Lemma re_sub_run_sep prev c t :
  cls c = false ->
  re_sub_go (m_run cls) repl prev 0 (c :: t)
  = c :: re_sub_go (m_run cls) repl (Some c) 0 t.
Proof. intros Hc. simpl. unfold m_run. simpl. by rewrite Hc. Qed.

Lemma re_sub_run_run prev x rest :
  x ≠ [] -> Forall (λ c, cls c = true) x ->
  (∀ c, head rest = Some c -> cls c = false) ->
  re_sub_go (m_run cls) repl prev 0 (x ++ rest)
  = repl ++ re_sub_go (m_run cls) repl (last_or prev x) 0 rest.
Proof.
  intros Hne Hx Hr. destruct x as [|c x]; [done|].
  change ((c :: x) ++ rest) with (c :: x ++ rest).
  cbn [re_sub_go]. unfold m_run at 1.
  change (c :: x ++ rest) with ((c :: x) ++ rest).
  rewrite run_length_app by done. cbn [length app].
  by rewrite re_sub_skip, last_or_cons.
Qed.

(** Where nothing matches, the substitution changes nothing. *)
Lemma re_sub_run_none : ∀ t prev,
  Forall (λ c, cls c = false) t -> re_sub_go (m_run cls) repl prev 0 t = t.
Proof.
  induction t as [|c t IH]; intros prev Ht; [done|].
  inversion Ht; subst. rewrite re_sub_run_sep by done. by rewrite IH.
Qed.

(** The replacement holds no character of the class: none is left. *)
Lemma re_sub_run_clears t : ∀ prev,
  Forall (λ c, cls c = false) repl ->
  Forall (λ c, cls c = false) (re_sub_go (m_run cls) repl prev 0 t).
Proof.
  induction t as [|c t Hc IH|x rest Hne Hx Hr IH] using (class_runs_ind cls);
    intros prev Hrepl.
  - constructor.
  - rewrite re_sub_run_sep by done. constructor; [done|]. by apply IH.
  - rewrite re_sub_run_run by done. apply Forall_app. split; [done|].
    by apply IH.
Qed.

End ClassRuns.

Lemma single_spaced_cons a t :
  (Char.is_space a = false ∨ ∀ c, head t = Some c -> Char.is_space c = false) ->
  single_spaced t -> single_spaced (a :: t).
Proof.
  intros H Ht. split; [|done]. destruct t as [|b t]; [done|].
  intros [Ha Hb]. destruct H as [H|H]; [congruence|].
  rewrite (H b) in Hb; done.
Qed.

Lemma single_spaced_app a b :
  single_spaced (a ++ b) -> single_spaced a ∧ single_spaced b.
Proof.
  induction a as [|x a IH]; [done|]. intros [H1 H2].
  destruct (IH H2) as [Ha Hb]. split; [|done]. split; [|done].
  destruct a as [|y a]; [done|]. exact H1.
Qed.

(** One space for every run of white space: what is left is single
    spaces. *)
Lemma re_sub_spaces_shape t : ∀ prev,
  Forall (λ c, Char.is_space c = true -> c = " "%char)
    (re_sub_go m_spaces (T " ") prev 0 t)
  ∧ single_spaced (re_sub_go m_spaces (T " ") prev 0 t)
  ∧ ((∀ c, head t = Some c -> Char.is_space c = false) ->
     ∀ c, head (re_sub_go m_spaces (T " ") prev 0 t) = Some c ->
          Char.is_space c = false).
Proof.
  unfold m_spaces.
  induction t as [|c t Hc IH|x rest Hne Hx Hr IH]
    using (class_runs_ind Char.is_space); intros prev.
  - done.
  - rewrite re_sub_run_sep by done.
    destruct (IH (Some c)) as (H1 & H2 & H3). split; [|split].
    + constructor; [congruence|done].
    + by apply single_spaced_cons; [left|].
    + intros _ d [= <-]. done.
  - rewrite re_sub_run_run by done.
    destruct (IH (last_or prev x)) as (H1 & H2 & H3). split; [|split].
    + constructor; [done|done].
    + apply single_spaced_cons; [right; by apply H3|done].
    + intros H d _. destruct x as [|e x]; [done|]. inversion Hx; subst.
      rewrite (H e) in *; done.
Qed.

(** *** [strip] *)

Lemma lstrip_suffix t : ∃ l, t = l ++ lstrip t.
Proof.
  induction t as [|c t [l IH]]; [by exists []|]. simpl.
  destruct (Char.is_space c); [|by exists []].
  exists (c :: l). simpl. by f_equal.
Qed.

Lemma lstrip_head t c : head (lstrip t) = Some c -> Char.is_space c = false.
Proof.
  induction t as [|d t IH]; [done|]. simpl.
  destruct (Char.is_space d) eqn:E; [done|]. by intros [= <-].
Qed.

Lemma rstrip_prefix t : ∃ r, t = rstrip t ++ r.
Proof.
  unfold rstrip. destruct (lstrip_suffix (reverse t)) as [l E].
  exists (reverse l). rewrite <- reverse_app, <- E. by rewrite reverse_involutive.
Qed.

Lemma rstrip_last t c : last (rstrip t) = Some c -> Char.is_space c = false.
Proof. unfold rstrip. rewrite last_reverse. apply lstrip_head. Qed.

Lemma strip_infix t : ∃ l r, t = l ++ strip t ++ r.
Proof.
  unfold strip. destruct (lstrip_suffix t) as [l El].
  destruct (rstrip_prefix (lstrip t)) as [r Er].
  exists l, r. by rewrite <- Er.
Qed.

Lemma strip_trimmed t : trimmed (strip t).
Proof.
  unfold strip. split; [|apply rstrip_last].
  destruct (rstrip_prefix (lstrip t)) as [r Er].
  intros c Hc. apply (lstrip_head t). rewrite Er.
  destruct (rstrip (lstrip t)); [done|]. done.
Qed.

Lemma strip_Forall (Q : ascii -> Prop) t : Forall Q t -> Forall Q (strip t).
Proof.
  destruct (strip_infix t) as (l & r & E). rewrite E at 1.
  rewrite !Forall_app. tauto.
Qed.

Lemma strip_single_spaced t : single_spaced t -> single_spaced (strip t).
Proof.
  destruct (strip_infix t) as (l & r & E). rewrite E at 1.
  intros [_ H]%single_spaced_app. by apply single_spaced_app in H as [H _].
Qed.

Lemma strip_trimmed_id t : trimmed t -> strip t = t.
Proof. intros [Hh Hl]. by apply strip_id. Qed.

Lemma normalize_shape txt : normalized (normalize txt).
Proof.
  unfold normalize, normalized, re_sub.
  set (u := strip txt).
  set (v := re_sub_go m_punct (T " ") None 0 u).
  assert (Hv : Forall (λ c, Char.is_punct c = false) v).
  { apply re_sub_run_clears. by repeat constructor. }
  destruct (re_sub_spaces_shape v None) as (H1 & H2 & _).
  set (w := re_sub_go m_spaces (T " ") None 0 v) in *.
  assert (Hw : Forall (λ c, Char.is_punct c = false) w).
  { apply re_sub_go_Forall; [by repeat constructor|done]. }
  split; [by apply strip_Forall|]. split; [by apply strip_Forall|].
  split; [by apply strip_single_spaced|apply strip_trimmed].
Qed.

(** X1: the text [parse_free_text_to_query] goes on with after its first
    three lines (lines 49-51) is normalized, for every input: it holds no
    comma, full stop, semicolon or colon, its only white space is the space
    character, never two in a row, and none at either end. *)
Theorem normalize_normalized txt : normalized (normalize txt).
Proof. apply normalize_shape. Qed.

Lemma re_sub_spaces_id : ∀ t prev,
  Forall (λ c, Char.is_space c = true -> c = " "%char) t ->
  single_spaced t ->
  re_sub_go m_spaces (T " ") prev 0 t = t.
Proof.
  induction t as [|c t IH]; intros prev Ht Hs; [done|].
  inversion Ht as [|? ? Hc Ht']; subst. destruct Hs as [Hs1 Hs2].
  destruct (Char.is_space c) eqn:E.
  - rewrite (Hc eq_refl) in *.
    change (" "%char :: t) with ([" "%char] ++ t).
    unfold m_spaces. rewrite re_sub_run_run.
    + cbn [app T list_ascii_of_string]. f_equal. by apply IH.
    + done.
    + by repeat constructor.
    + intros d Hd. destruct t as [|b t]; [done|]. injection Hd as ->.
      destruct (Char.is_space d) eqn:Ed; [|done]. destruct Hs1. done.
  - unfold m_spaces. rewrite re_sub_run_sep by done. f_equal. by apply IH.
Qed.

Theorem normalize_fixes_normalized t : normalized t -> normalize t = t.
Proof.
  intros (Hp & Hsp & Hss & Htr). unfold normalize, re_sub.
  rewrite (strip_trimmed_id t Htr).
  unfold m_punct. rewrite re_sub_run_none by done.
  rewrite re_sub_spaces_id by done. by apply strip_trimmed_id.
Qed.

(** X2: the first three lines of [parse_free_text_to_query] are
    idempotent: applied to their own result they change nothing. *)
Theorem normalize_idempotent txt : normalize (normalize txt) = normalize txt.
Proof. apply normalize_fixes_normalized, normalize_shape. Qed.

(** ** What every free-text query looks like *)

Lemma re_search_go_infix m : ∀ t prev m0,
  re_search_go m prev t = Some m0 -> ∃ p s, t = p ++ m0 ++ s.
Proof.
  induction t as [|c t IH]; intros prev m0 H; [done|].
  cbn [re_search_go] in H. destruct (m prev (c :: t)) as [n|].
  - injection H as <-. exists [], (drop n (c :: t)).
    by rewrite app_nil_l, take_drop.
  - destruct (IH _ _ H) as (p & s & ->). by exists (c :: p), s.
Qed.

Lemma re_search_go_loc_match : ∀ t prev m0,
  re_search_go m_loc prev t = Some m0 ->
  ∃ run, m0 = T "loc=" ++ run ∧ run ≠ [] ∧ loc_chars run.
Proof.
  induction t as [|c t IH]; intros prev m0 H; [done|].
  cbn [re_search_go] in H.
  destruct (m_loc prev (c :: t)) as [n|] eqn:E; [|by apply IH in H].
  injection H as <-. unfold m_loc in E.
  destruct (strip_prefix (T "loc=") (c :: t)) as [rest|] eqn:Ep; [|done].
  apply strip_prefix_Some in Ep. rewrite Ep.
  destruct (run_length Char.is_loc_char rest) as [|k] eqn:Ek; [done|].
  injection E as <-.
  exists (take (S k) rest). split; [done|]. split.
  - destruct rest; done.
  - rewrite <- Ek. apply run_take_Forall.
Qed.

Lemma detect_country_Forall (Q : ascii -> Prop) t :
  Forall Q t -> Forall Q (detect_country t).2.
Proof.
  intros H. unfold detect_country.
  assert (H1 : Forall Q (match re_search m_au t with
                         | Some _ => re_sub m_au [] t | None => t end)).
  { destruct (re_search m_au t); [|done]. by apply re_sub_go_Forall. }
  destruct (re_search m_au t); simpl in *;
    (destruct (re_search m_india _); simpl; [by apply re_sub_go_Forall|done]).
Qed.

Lemma extract_location_Forall (Q : ascii -> Prop) t :
  Forall Q t -> Forall Q (extract_location t).2.
Proof.
  intros H. unfold extract_location. destruct (re_search m_loc t); [|done].
  simpl. apply strip_Forall. by apply re_sub_go_Forall.
Qed.

Lemma keyword_Forall (Q : ascii -> Prop) txt :
  Forall Q software_engineer ->
  Forall Q (normalize txt) ->
  Forall Q (keyword_of (parse_free_text_chars txt)).
Proof.
  intros Hd Hn. rewrite parse_free_text_unfold. unfold keyword_of. cbn [fst].
  pose proof (extract_location_Forall Q _
                (detect_country_Forall Q _ Hn)) as H.
  unfold text_before_location.
  by destruct (extract_location (detect_country (normalize txt)).2).2.
Qed.

(** X3: for every text, [parse_free_text_to_query] returns the country
    "AU" or "IN" and a keyword that is not empty, holds none of the
    characters [,.;:] and no white space other than the space character. *)
Theorem free_text_query_shape txt :
  let q := parse_free_text_chars txt in
  (country_of q = T "AU" ∨ country_of q = T "IN")
  ∧ keyword_of q ≠ []
  ∧ Forall (λ c, Char.is_punct c = false) (keyword_of q)
  ∧ Forall (λ c, Char.is_space c = true -> c = " "%char) (keyword_of q).
Proof.
  intros q. unfold q.
  destruct (normalize_shape txt) as (Hp & Hs & _ & _).
  split; [|split; [|split]].
  - rewrite parse_free_text_country, detect_country_india.
    destruct (found _); auto.
  - rewrite parse_free_text_unfold. unfold keyword_of. cbn [fst].
    by destruct (extract_location _).2.
  - apply keyword_Forall; [by repeat constructor|done].
  - apply keyword_Forall; [|done]. repeat constructor; by vm_compute.
Qed.

Lemma trimmed_default : trimmed software_engineer.
Proof. split; intros c [= <-]; done. Qed.

(** X4: when [parse_free_text_to_query] returns a location, the location
    is made of ASCII letters and spaces only and has no white space at
    either end, and the keyword returned with it has no white space at
    either end. *)
Theorem free_text_location_shape txt l :
  location_of (parse_free_text_chars txt) = Some l ->
  Forall (λ c, Char.is_letter c = true ∨ c = " "%char) l
  ∧ trimmed l
  ∧ trimmed (keyword_of (parse_free_text_chars txt)).
Proof.
  rewrite parse_free_text_unfold. unfold location_of, keyword_of. cbn [fst snd].
  set (t := text_before_location txt).
  assert (Ht : Forall (λ c, Char.is_space c = true -> c = " "%char) t).
  { apply detect_country_Forall. apply normalize_shape. }
  unfold extract_location.
  destruct (re_search m_loc t) as [m0|] eqn:E; [|done].
  cbn [fst snd]. intros [= <-].
  destruct (re_search_go_loc_match _ _ _ E) as (run & -> & _ & Hrun).
  destruct (re_search_go_infix _ _ _ _ E) as (p & s & Et).
  change (loc_group1 (T "loc=" ++ run)) with run.
  split; [|split].
  - apply strip_Forall. rewrite Et in Ht.
    rewrite !Forall_app in Ht. destruct Ht as (_ & [_ Hr] & _).
    apply Forall_forall. intros c Hc.
    rewrite Forall_forall in Hrun, Hr.
    specialize (Hrun c Hc). specialize (Hr c Hc).
    unfold Char.is_loc_char in Hrun.
    destruct (Char.is_letter c); [by left|right]. by apply Hr.
  - apply strip_trimmed.
  - destruct (strip (re_sub m_loc [] t)) eqn:Ek.
    + apply trimmed_default.
    + rewrite <- Ek. apply strip_trimmed.
Qed.

Lemma free_text_location_shape_witness :
  let txt := T "dev, loc=Perth 6000" in
  location_of (parse_free_text_chars txt) = Some (T "Perth")
  ∧ trimmed (T "Perth").
Proof.
  intros txt.
  assert (H : location_of (parse_free_text_chars txt) = Some (T "Perth"))
    by (by vm_compute).
  split; [exact H|].
  exact (proj1 (proj2 (free_text_location_shape txt (T "Perth") H))).
Defined.

(** ** Command arguments: the three kinds *)

Lemma filter_filter_none {A} (P Q : A -> Prop)
    `{!∀ x, Decision (P x), !∀ x, Decision (Q x)} (l : list A) :
  (∀ x, Q x -> ¬ P x) -> filter P (filter Q l) = [].
Proof.
  intros Hno. induction l as [|x l IH]; [done|].
  rewrite (filter_cons Q). case_decide as Hq; [|done].
  rewrite filter_cons_False by auto. done.
Qed.

Lemma parse_jobs_args_eq args :
  parse_jobs_args args
  = Some (or_default (strip (join (T " ") (keyword_tokens args)))
            software_engineer,
          country_after (T "AU") args, location_after None args).
Proof. unfold parse_jobs_args. by rewrite arg_loop_spec. Qed.

Lemma keyword_token_kinds a :
  is_keyword_token a = true ->
  is_country_token a = false ∧ is_loc_token a = false.
Proof.
  unfold is_keyword_token. intros [H1 H2]%andb_prop.
  by destruct (is_country_token a), (is_loc_token a).
Qed.

Lemma loc_token_not_country a :
  is_loc_token a = true -> is_country_token a = false.
Proof.
  intros H. destruct (is_country_token a) eqn:E; [|done].
  apply country_token_not_loc in E. congruence.
Qed.



(** X5: the result of [parse_jobs_args] does not depend on where the
    country and location arguments stand among the keyword arguments: the
    arguments grouped by kind (country arguments, location arguments,
    keyword arguments, each group in its order) give the result of the
    arguments as typed. *)
Theorem parse_jobs_args_by_kind args :
  parse_jobs_args (by_kind args) = parse_jobs_args args.
Proof.
  rewrite !parse_jobs_args_eq.
  unfold by_kind, country_after, location_after, keyword_tokens.
  rewrite !filter_app.
  rewrite (list_filter_filter_r (λ a, is_country_token a = true)
             (λ a, is_country_token a = true)) by done.
  rewrite (list_filter_filter_r (λ a, is_loc_token a = true)
             (λ a, is_loc_token a = true)) by done.
  rewrite (list_filter_filter_r (λ a, is_keyword_token a = true)
             (λ a, is_keyword_token a = true)) by done.
  rewrite (filter_filter_none (λ a, is_country_token a = true)
             (λ a, is_loc_token a = true))
    by (intros x H; rewrite (loc_token_not_country x H); done).
  rewrite (filter_filter_none (λ a, is_country_token a = true)
             (λ a, is_keyword_token a = true))
    by (intros x [H _]%keyword_token_kinds; rewrite H; done).
  rewrite (filter_filter_none (λ a, is_loc_token a = true)
             (λ a, is_country_token a = true))
    by (intros x H; rewrite (country_token_not_loc x H); done).
  rewrite (filter_filter_none (λ a, is_loc_token a = true)
             (λ a, is_keyword_token a = true))
    by (intros x [_ H]%keyword_token_kinds; rewrite H; done).
  rewrite (filter_filter_none (λ a, is_keyword_token a = true)
             (λ a, is_country_token a = true)).
  2:{ intros x H. unfold is_keyword_token. rewrite H. done. }
  rewrite (filter_filter_none (λ a, is_keyword_token a = true)
             (λ a, is_loc_token a = true)).
  2:{ intros x H. unfold is_keyword_token. rewrite H.
      by destruct (is_country_token x). }
  by rewrite !app_nil_r, !app_nil_l.
Qed.

(** *** A query written as arguments parses back *)

Lemma filter_all {A} (P : A -> Prop) `{!∀ x, Decision (P x)} (l : list A) :
  Forall P l -> filter P l = l.
Proof.
  induction 1 as [|x l Hx Hl IH]; [done|].
  by rewrite filter_cons_True, IH.
Qed.

Lemma filter_none {A} (P : A -> Prop) `{!∀ x, Decision (P x)} (l : list A) :
  Forall (λ x, ¬ P x) l -> filter P l = [].
Proof.
  induction 1 as [|x l Hx Hl IH]; [done|].
  by rewrite filter_cons_False.
Qed.

Lemma loc_argument_kind x :
  is_loc_token (T "loc=" ++ x) = true
  ∧ is_country_token (T "loc=" ++ x) = false.
Proof.
  assert (H : is_loc_token (T "loc=" ++ x) = true) by done.
  split; [done|]. by apply loc_token_not_country.
Qed.

(** X6: a country argument "au" or "in", then [loc=x], then keyword
    arguments (at least one, each a token that is neither a country nor a
    location argument) are read back as they were given: the keyword is the
    keyword arguments joined by spaces, the country is the country argument
    in upper case, the location is [x] unchanged. *)
Theorem parse_jobs_args_round_trip cc x ks :
  cc = T "au" ∨ cc = T "in" ->
  ks ≠ [] ->
  Forall token ks ->
  Forall (λ k, is_keyword_token k = true) ks ->
  parse_jobs_args (cc :: (T "loc=" ++ x) :: ks)
  = Some (join (T " ") ks, upper cc, Some x).
Proof.
  intros Hcc Hne Htok Hkw. rewrite parse_jobs_args_eq.
  destruct (loc_argument_kind x) as [Hl Hc].
  assert (Hcc' : is_country_token cc = true ∧ is_loc_token cc = false
                 ∧ lower cc = cc).
  { by destruct Hcc as [-> | ->]. }
  destruct Hcc' as (Hc1 & Hc2 & Hc3).
  assert (Hk1 : Forall (λ k, ¬ is_country_token k = true) ks).
  { eapply Forall_impl; [exact Hkw|].
    intros k [H _]%keyword_token_kinds. by rewrite H. }
  assert (Hk2 : Forall (λ k, ¬ is_loc_token k = true) ks).
  { eapply Forall_impl; [exact Hkw|].
    intros k [_ H]%keyword_token_kinds. by rewrite H. }
  unfold country_after, location_after, keyword_tokens.
  rewrite !filter_cons.
  rewrite (filter_none (λ a, is_country_token a = true) ks) by done.
  rewrite (filter_none (λ a, is_loc_token a = true) ks) by done.
  rewrite (filter_all (λ a, is_keyword_token a = true) ks) by done.
  unfold is_keyword_token. rewrite Hl, Hc, Hc1, Hc2.
  cbn [negb andb].
  repeat (case_decide; try done). cbn [last]. rewrite Hc3.
  change (drop 4 (T "loc=" ++ x)) with x.
  rewrite strip_join_tokens by done.
  pose proof (join_tokens_nonempty ks Htok Hne) as Hj.
  unfold or_default. destruct (join (T " ") ks); done.
Qed.

Lemma parse_jobs_args_round_trip_witness :
  parse_jobs_args [T "in"; T "loc=Navi Mumbai"; T "data"; T "engineer"]
  = Some (T "data engineer", T "IN", Some (T "Navi Mumbai")).
Proof.
  apply (parse_jobs_args_round_trip (T "in") (T "Navi Mumbai")
           [T "data"; T "engineer"]).
  - by right.
  - done.
  - repeat constructor; done.
  - repeat constructor.
Defined.

(** ** Callbacks and the store *)

Lemma upsert_user_other db uid p uid' :
  uid' ≠ uid -> upsert_user db uid p !! uid' = db !! uid'.
Proof. intros H. unfold upsert_user. by rewrite lookup_insert_ne. Qed.

Lemma assign_in_store_other mode db uid key v uid' :
  uid' ≠ uid -> assign_in_store mode db uid key v !! uid' = db !! uid'.
Proof.
  intros H. unfold assign_in_store.
  destruct mode; [done|]. destruct (db !! uid) as [[i [p|]]|]; try done.
  by rewrite lookup_insert_ne.
Qed.

Lemma stored_prefs_lookup db db' uid :
  db' !! uid = db !! uid -> stored_prefs db' uid = stored_prefs db uid.
Proof. intros H. unfold stored_prefs, get_user. by rewrite H. Qed.

(** X7: a callback of one user leaves the stored record of every other
    user as it was, whatever the callback data and whichever way the store
    hands out records. *)
Theorem sub_callback_other_users daily_time mode db uid data uid' :
  uid' ≠ uid ->
  (sub_callback daily_time mode db uid data).1 !! uid' = db !! uid'.
Proof.
  intros H. unfold sub_callback.
  repeat case_bool_decide; cbn [fst]; try done;
    try by apply upsert_user_other.
  destruct (strip_prefix _ _); cbn [fst]; [|done].
  by apply assign_in_store_other.
Qed.

Lemma sub_callback_other_users_witness :
  (sub_callback "09:00 UTC" Shares (one_user 1 prefs_au_only) 2
     "sub:clear").1 !! 1%Z
  = one_user 1 prefs_au_only !! 1%Z.
Proof. apply sub_callback_other_users. done. Defined.

Lemma assign_in_store_shares db uid i p key v :
  db !! uid = Some {| user_id := i; user_prefs := Some p |} ->
  assign_in_store Shares db uid key v
  = <[uid := {| user_id := i; user_prefs := Some (<[key:=v]> p) |}]> db.
Proof. intros E. unfold assign_in_store. by rewrite E. Qed.

Lemma assign_in_store_idle mode db uid key v :
  (∀ i p, db !! uid ≠ Some {| user_id := i; user_prefs := Some p |}) ->
  assign_in_store mode db uid key v = db.
Proof.
  intros H. unfold assign_in_store. destruct mode; [done|].
  destruct (db !! uid) as [[i [p|]]|] eqn:E; try done. by destruct (H i p).
Qed.

(** X8: pressing the same toggle button twice leaves every stored flag of
    the user with the value it had, whichever way the store hands out
    records. *)
Theorem toggle_twice_restores_flags daily_time mode db uid key k :
  let db' := (run_callbacks daily_time mode db uid
                [toggle_data key; toggle_data key]).1 in
  flag (stored_prefs db' uid) k = flag (stored_prefs db uid) k.
Proof.
  cbn [run_callbacks]. rewrite !callback_toggle. cbn [fst].
  destruct mode; [done|].
  destruct (db !! uid) as [[i [p|]]|] eqn:E.
  - assert (E1 : stored_prefs db uid = p).
    { unfold stored_prefs, get_user. by rewrite E. }
    rewrite E1. rewrite (assign_in_store_shares db uid i p) by done.
    set (v := negb (flag p key)).
    set (db1 := <[uid := {| user_id := i; user_prefs := Some (<[key:=v]> p) |}]> db).
    assert (E2 : stored_prefs db1 uid = <[key:=v]> p).
    { unfold stored_prefs, get_user, db1. by rewrite lookup_insert_eq. }
    rewrite E2.
    rewrite (assign_in_store_shares db1 uid i (<[key:=v]> p))
      by (unfold db1; by rewrite lookup_insert_eq).
    unfold stored_prefs at 1, get_user. rewrite lookup_insert_eq.
    cbn [prefs_of user_prefs default from_option id].
    unfold flag. rewrite lookup_insert_eq. subst v. unfold flag.
    destruct (decide (k = key)) as [->|Hne].
    + rewrite lookup_insert_eq. by destruct (p !! key) as [[]|].
    + rewrite !lookup_insert_ne by done. done.
  - rewrite !(assign_in_store_idle Shares db uid)
      by (intros ? ?; by rewrite E). done.
  - rewrite !(assign_in_store_idle Shares db uid)
      by (intros ? ?; by rewrite E). done.
Qed.

(** X9: with a store that hands out copies, the only callback that changes
    the stored flags of any user is "sub:clear": after every other callback
    data (open, nop, done, a toggle, anything else) each user's stored flags
    are the ones before. *)
Theorem only_clear_changes_copied_store daily_time db uid data u :
  data ≠ "sub:clear" ->
  stored_prefs (sub_callback daily_time Copies db uid data).1 u
  = stored_prefs db u.
Proof.
  intros Hd. unfold sub_callback.
  repeat case_bool_decide; cbn [fst]; try done.
  - destruct (decide (u = uid)) as [->|Hne].
    + apply stored_prefs_resave.
    + apply stored_prefs_lookup. by apply upsert_user_other.
  - by destruct (strip_prefix _ _).
Qed.

Lemma only_clear_changes_copied_store_witness :
  stored_prefs (sub_callback "09:00 UTC" Copies (one_user 1 no_prefs) 1
                  "sub:toggle:jobs_au").1 1
  = stored_prefs (one_user 1 no_prefs) 1.
Proof. apply only_clear_changes_copied_store. done. Defined.

(** ** The calls of a digest run *)

Lemma trace_bind {A B} (m : io A) (k : A -> io B) a :
  result m = returned a -> trace (m ≫= k) = trace m ++ trace (k a).
Proof.
  destruct m as [tr r]. unfold result, trace. simpl. intros ->.
  io_unfold. by destruct (k a).
Qed.

Lemma for_each_trace {A} (body : A -> io unit) xs :
  (∀ x, result (body x) = returned tt) ->
  trace (for_each xs body) = flat_map (λ x, trace (body x)) xs.
Proof.
  intros H. induction xs as [|x xs IH]; [done|].
  cbn [for_each flat_map].
  rewrite (trace_bind (body x) (λ _, for_each xs body) tt (H x)).
  by rewrite IH.
Qed.

Lemma flag_any p k : flag p k = true -> any_flag p = true.
Proof.
  unfold flag, any_flag. intros H. apply bool_decide_eq_true.
  exists k, true. by destruct (p !! k) as [[]|].
Qed.

Lemma string_app_nonempty a b : a ≠ EmptyString -> a +:+ b ≠ EmptyString.
Proof. by destruct a. Qed.

Lemma join_str_nonempty sep s ss :
  s ≠ EmptyString -> join_str sep (s :: ss) ≠ EmptyString.
Proof.
  intros H. destruct ss as [|s' ss]; [done|].
  change (join_str sep (s :: s' :: ss))
    with (s +:+ sep +:+ join_str sep (s' :: ss)).
  by apply string_app_nonempty.
Qed.

Lemma message_to_nonempty d secs e msg :
  Forall (λ s, s ≠ EmptyString) secs ->
  e ∈ message_to d secs -> sent_text e = Some msg -> msg ≠ EmptyString.
Proof.
  intros Hs He Hm. destruct secs as [|s ss]; [by apply elem_of_nil in He|].
  apply list_elem_of_singleton in He. subst e. injection Hm as <-.
  inversion Hs; subst. by apply join_str_nonempty.
Qed.

Lemma user_sections_nonempty p au in_ tools :
  Forall (λ s, s ≠ EmptyString) (user_sections p au in_ tools).
Proof.
  unfold user_sections.
  destruct (flag p "jobs_au"), (flag p "jobs_in"), (flag p "ai_tools");
    repeat constructor; done.
Qed.

Lemma channel_sections_nonempty au in_ tools :
  Forall (λ s, s ≠ EmptyString) (channel_sections au in_ tools).
Proof.
  unfold channel_sections, channel_kept, titled.
  rewrite !filter_cons, filter_nil.
  repeat case_decide; repeat constructor; done.
Qed.

Section DigestCalls.

Variables job tool : Type.
Variable jobs_api : string -> string -> option string -> outcome (list job).
Variable ai_tools_api : outcome (list tool).
Variable format_jobs : list job -> string.
Variable format_tools : list tool -> string.
Variable delivers : dest -> string -> bool.
Variable CHANNEL_ID : option string.

Local Abbreviation run_one :=
  (push_one job tool jobs_api ai_tools_api format_jobs format_tools delivers).
Local Abbreviation run_daily :=
  (push_daily_job job tool jobs_api ai_tools_api format_jobs format_tools
     delivers CHANNEL_ID).
Local Abbreviation run_channel :=
  (post_channel_summary job tool jobs_api ai_tools_api format_jobs
     format_tools delivers CHANNEL_ID).

Variables (ja ji : list job) (ts : list tool).
Hypothesis au_returns : jobs_api default_keyword "AU" None = returned ja.
Hypothesis in_returns : jobs_api default_keyword "IN" None = returned ji.
Hypothesis tools_return : ai_tools_api = returned ts.

Local Abbreviation au := (format_jobs ja).
Local Abbreviation in_ := (format_jobs ji).
Local Abbreviation tools := (format_tools ts).

Lemma push_one_calls u : trace (run_one u) = digest_calls u au in_ tools.
Proof.
  unfold push_one, digest_calls, digest_attempt, user_sections.
  destruct (any_flag _); [|done]. cbn [negb].
  unfold get_jobs, get_ai_tools, send_message. fold default_keyword.
  rewrite au_returns, in_returns, tools_return.
  destruct (flag _ "jobs_au"), (flag _ "jobs_in"), (flag _ "ai_tools");
    io_unfold; cbn; done.
Qed.

Lemma channel_summary_calls :
  trace run_channel = channel_calls CHANNEL_ID au in_ tools.
Proof.
  unfold post_channel_summary, channel_calls, channel_attempt,
    channel_of, channel_sections, channel_kept, titled.
  destruct CHANNEL_ID as [[|c s]|]; try done.
  unfold get_jobs, get_ai_tools, send_message. fold default_keyword.
  rewrite au_returns, in_returns, tools_return.
  rewrite !filter_cons, filter_nil. cbn [snd].
  io_unfold. cbn.
  by destruct (nonblank (format_jobs ja)), (nonblank (format_jobs ji)),
    (nonblank (format_tools ts)).
Qed.

Lemma tools_fetches_of_user u :
  length (filter is_tools_fetch (digest_calls u au in_ tools))
  = if flag (default ∅ (user_prefs u)) "ai_tools" then 1 else 0.
Proof.
  unfold digest_calls, digest_attempt, user_sections, message_to.
  destruct (flag _ "ai_tools") eqn:Et.
  - rewrite (flag_any _ _ Et).
    by destruct (flag _ "jobs_au"), (flag _ "jobs_in").
  - destruct (any_flag _); [|done].
    by destruct (flag _ "jobs_au"), (flag _ "jobs_in").
Qed.

Lemma tools_fetches_of_channel :
  length (filter is_tools_fetch (channel_calls CHANNEL_ID au in_ tools))
  = match channel_of CHANNEL_ID with Some _ => 1 | None => 0 end.
Proof.
  unfold channel_calls, channel_attempt, message_to.
  destruct (channel_of CHANNEL_ID); [|done].
  by destruct (channel_sections au in_ tools).
Qed.

(** X10: when the three fetches return, the calls of [push_daily_job] are,
    in order, those of each user (one fetch per enabled flag, then the
    delivery) and then those of the channel summary; nothing is fetched
    once and shared: the AI tools are fetched once for every user with
    ai_tools enabled and once more when a channel is configured. *)
Theorem push_daily_job_calls all_users :
  trace (run_daily all_users)
  = flat_map (λ u, digest_calls u au in_ tools) all_users
      ++ channel_calls CHANNEL_ID au in_ tools
  ∧ length (filter is_tools_fetch (trace (run_daily all_users)))
    = length (filter (λ u, flag (default ∅ (user_prefs u)) "ai_tools" = true)
                all_users)
      + match channel_of CHANNEL_ID with Some _ => 1 | None => 0 end.
Proof.
  assert (Ht : trace (run_daily all_users)
               = flat_map (λ u, digest_calls u au in_ tools) all_users
                   ++ channel_calls CHANNEL_ID au in_ tools).
  { unfold push_daily_job.
    destruct (for_each_returns run_one all_users) as [Hr _].
    { intros u. by apply (push_one_attempt job tool jobs_api ai_tools_api format_jobs
                       format_tools delivers ja ji ts). }
    rewrite (trace_bind _ _ tt Hr), channel_summary_calls.
    rewrite for_each_trace
      by (intros u; by apply (push_one_attempt job tool jobs_api ai_tools_api format_jobs
                       format_tools delivers ja ji ts)).
    f_equal. apply flat_map_ext. intros u. apply push_one_calls. }
  split; [exact Ht|]. rewrite Ht, filter_app, length_app.
  rewrite tools_fetches_of_channel.
  assert (Hu : length (filter is_tools_fetch
                         (flat_map (λ u, digest_calls u au in_ tools) all_users))
               = length (filter (λ u, flag (default ∅ (user_prefs u)) "ai_tools"
                                      = true) all_users)).
  { clear Ht. induction all_users as [|u us IH]; [done|].
    cbn [flat_map]. rewrite filter_app, length_app, IH, tools_fetches_of_user.
    rewrite filter_cons. case_decide as E.
    - rewrite E. done.
    - destruct (flag _ "ai_tools"); done. }
  by rewrite Hu.
Qed.

(** X11: when the three fetches return, no message that a run of
    [push_daily_job] delivers, to a user or to the channel, is empty. *)
Theorem digest_messages_not_empty all_users e msg :
  e ∈ sends (run_daily all_users) ->
  sent_text e = Some msg ->
  msg ≠ EmptyString.
Proof.
  destruct (push_daily_job_attempts job tool jobs_api ai_tools_api format_jobs
              format_tools delivers CHANNEL_ID ja ji ts
              au_returns in_returns tools_return all_users) as [_ ->].
  rewrite elem_of_app. intros [He|He] Hm.
  - apply list_elem_of_In, in_flat_map in He as (u & _ & He).
    apply list_elem_of_In in He. unfold digest_attempt in He.
    destruct (any_flag _); [|by apply elem_of_nil in He].
    eapply message_to_nonempty; [apply user_sections_nonempty|done..].
  - unfold channel_attempt in He.
    destruct (channel_of CHANNEL_ID); [|by apply elem_of_nil in He].
    eapply message_to_nonempty; [apply channel_sections_nonempty|done..].
Qed.

End DigestCalls.

Lemma push_daily_job_calls_witness :
  let run := push_daily_job string string jobs_india_only tools_one lines lines
               never_delivers smartify_channel
               [row 1 prefs_au_only; row 2 no_prefs; row 3 prefs_au_tools] in
  length (filter is_tools_fetch (trace run)) = 2.
Proof.
  intros run.
  exact (proj2 (push_daily_job_calls string string jobs_india_only tools_one
                  lines lines never_delivers smartify_channel
                  [] ["Data Engineer, Pune"] ["Perplexity"]
                  eq_refl eq_refl eq_refl
                  [row 1 prefs_au_only; row 2 no_prefs; row 3 prefs_au_tools])).
Defined.

Lemma digest_messages_not_empty_witness :
  title_tools +:+ "Perplexity" ≠ EmptyString.
Proof.
  apply (digest_messages_not_empty string string no_jobs tools_one lines lines
           always_delivers smartify_channel [] [] ["Perplexity"]
           eq_refl eq_refl eq_refl []
           (ev_send (to_channel "@smartify_jobs")
              (title_tools +:+ "Perplexity"))).
  - apply list_elem_of_In. vm_compute. auto.
  - reflexivity.
Defined.

Lemma flag_no_prefs k : flag no_prefs k = false.
Proof.
  unfold flag, no_prefs.
  destruct (decide (k = "jobs_au")) as [->|Ha]; [done|].
  destruct (decide (k = "jobs_in")) as [->|Hi]; [done|].
  destruct (decide (k = "ai_tools")) as [->|Ht]; [done|].
  by rewrite !lookup_insert_ne, lookup_empty by done.
Qed.

(** What [upsert_user] does to a flag: the value given, or else the one
    stored. *)
Lemma flag_upsert db uid p k :
  flag (stored_prefs (upsert_user db uid p) uid) k
  = match p !! k with
    | Some b => b
    | None => flag (stored_prefs db uid) k
    end.
Proof.
  rewrite stored_prefs_upsert. unfold flag at 1.
  destruct (p !! k) as [b|] eqn:E.
  - by rewrite (lookup_union_Some_l _ _ _ _ E).
  - rewrite lookup_union_r by done.
    unfold stored_prefs, get_user, prefs_of.
    destruct (db !! uid) as [[i [q|]]|]; cbn [user_prefs default]; try done.
    by rewrite flag_no_prefs.
Qed.

Lemma subscribe_prefs_lookup (a i t : bool) :
  let p := no_prefs in
  let p := if a then <["jobs_au" := true]> p else p in
  let p := if i then <["jobs_in" := true]> p else p in
  let p := if t then <["ai_tools" := true]> p else p in
  p !! "jobs_au" = Some a ∧ p !! "jobs_in" = Some i ∧ p !! "ai_tools" = Some t
  ∧ pretty p
    = match (if a then ["jobs_au"] else []) ++ (if i then ["jobs_in"] else [])
            ++ (if t then ["ai_tools"] else []) with
      | [] => "(none)"
      | ks => join_str ", " ks
      end.
Proof. by destruct a, i, t; vm_compute. Qed.

(** X12: [subscribe] with arguments stores each of the three flags as
    "its name is among the arguments in lower case" (an unknown word alone
    switches all three off), and [prefs] right after it replies with those
    three values. *)
Theorem subscribe_sets_flags daily_time db uid args :
  args ≠ [] ->
  let db' := (subscribe daily_time db uid args).1 in
  Forall (λ k, stored_prefs db' uid !! k
               = Some (bool_decide (k ∈ lower_names args))) the_flags
  ∧ prefs daily_time db' uid
    = returned (prefs_text daily_time
                  (bool_decide ("jobs_au" ∈ lower_names args))
                  (bool_decide ("jobs_in" ∈ lower_names args))
                  (bool_decide ("ai_tools" ∈ lower_names args))).
Proof.
  intros Hne. unfold subscribe. fold (lower_names args).
  destruct (lower_names args) as [|n ns] eqn:E.
  { destruct args; done. }
  rewrite <- E. clear E. cbn [fst].
  destruct (subscribe_prefs_lookup
              (bool_decide ("jobs_au" ∈ lower_names args))
              (bool_decide ("jobs_in" ∈ lower_names args))
              (bool_decide ("ai_tools" ∈ lower_names args)))
    as (Ha & Hi & Ht & _).
  cbn zeta in Ha, Hi, Ht.
  set (p := if bool_decide ("ai_tools" ∈ lower_names args) then _ else _) in *.
  assert (Hs : ∀ k b, p !! k = Some b ->
                 stored_prefs (upsert_user db uid p) uid !! k = Some b).
  { intros k b Hk. rewrite stored_prefs_upsert.
    by apply lookup_union_Some_l. }
  split.
  - repeat constructor; by apply Hs.
  - unfold prefs, get_user, upsert_user. rewrite lookup_insert_eq.
    cbn [user_prefs].
    pose proof (Hs _ _ Ha) as Ha'. pose proof (Hs _ _ Hi) as Hi'.
    pose proof (Hs _ _ Ht) as Ht'.
    rewrite stored_prefs_upsert in Ha', Hi', Ht'.
    by rewrite Ha', Hi', Ht'.
Qed.

Lemma subscribe_sets_flags_witness :
  prefs "09:00 UTC" (subscribe "09:00 UTC" (one_user 5 prefs_au_only) 5
                       ["AI_Tools"; "weather"]).1 5
  = returned (prefs_text "09:00 UTC" false false true).
Proof.
  apply (proj2 (subscribe_sets_flags "09:00 UTC" (one_user 5 prefs_au_only) 5
                  ["AI_Tools"; "weather"] ltac:(done))).
Defined.

Section CommandFacts.

Variables job tool : Type.
Variable jobs_api : string -> string -> option string -> outcome (list job).
Variable ai_tools_api : outcome (list tool).
Variable format_jobs : list job -> string.
Variable format_tools : list tool -> string.
Variable delivers : dest -> string -> bool.
Variable CHANNEL_ID : option string.

Local Abbreviation run_one :=
  (push_one job tool jobs_api ai_tools_api format_jobs format_tools delivers).

(** X13: [unsubscribe] leaves the store as the "Unsubscribe all" button
    does, with the three flags of the user stored as false; the digest then
    makes no call and no delivery for that user's record. *)
Theorem unsubscribe_silences_digest daily_time mode db uid :
  let db' := (unsubscribe db uid).1 in
  (sub_callback daily_time mode db uid "sub:clear").1 = db'
  ∧ Forall (λ k, stored_prefs db' uid !! k = Some false) the_flags
  ∧ db' !! uid = Some (row uid (stored_prefs db' uid))
  ∧ run_one (row uid (stored_prefs db' uid)) = ([], returned tt).
Proof.
  cbn [unsubscribe fst]. split; [done|].
  assert (H : Forall (λ k, stored_prefs (upsert_user db uid no_prefs) uid !! k
                           = Some false) the_flags).
  { rewrite stored_prefs_upsert.
    repeat constructor; by apply lookup_union_Some_l. }
  split; [exact H|]. split.
  { unfold stored_prefs, get_user, upsert_user. by rewrite lookup_insert_eq. }
  unfold the_flags in H. rewrite !Forall_cons in H.
  destruct H as (Ha & Hi & Ht & _).
  unfold push_one. cbn [row user_prefs user_id default from_option id].
  unfold flag. rewrite Ha, Hi, Ht.
  destruct (any_flag _); done.
Qed.

Lemma flag_after_content_command db uid k :
  flag (stored_prefs (upsert_user db uid {["jobs_au" := true]}) uid) k
  = bool_decide (k = "jobs_au") || flag (stored_prefs db uid) k
  ∧ flag (stored_prefs (upsert_user db uid {["jobs_in" := true]}) uid) k
    = bool_decide (k = "jobs_in") || flag (stored_prefs db uid) k
  ∧ flag (stored_prefs (upsert_user db uid {["ai_tools" := true]}) uid) k
    = bool_decide (k = "ai_tools") || flag (stored_prefs db uid) k
  ∧ flag (stored_prefs
            (upsert_user db uid (<["jobs_au" := true]> {["ai_tools" := true]}))
            uid) k
    = bool_decide (k = "jobs_au") || bool_decide (k = "ai_tools")
      || flag (stored_prefs db uid) k.
Proof.
  rewrite !flag_upsert. repeat split.
  - case_bool_decide as E; [subst; by rewrite lookup_singleton_eq|].
    by rewrite lookup_singleton_ne.
  - case_bool_decide as E; [subst; by rewrite lookup_singleton_eq|].
    by rewrite lookup_singleton_ne.
  - case_bool_decide as E; [subst; by rewrite lookup_singleton_eq|].
    by rewrite lookup_singleton_ne.
  - case_bool_decide as E; [subst; by rewrite lookup_insert_eq|].
    rewrite lookup_insert_ne by done.
    case_bool_decide as E'; [subst; by rewrite lookup_singleton_eq|].
    by rewrite lookup_singleton_ne.
Qed.

(** X14: the content commands subscribe as a side effect: after
    [jobs_au], [jobs_in], [aitools] and [both] the flag(s) of the command
    (for [both]: jobs_au and ai_tools) are on and every other flag of the
    user reads as before. *)
Theorem content_commands_subscribe db uid chat k :
  flag (stored_prefs (jobs_au job jobs_api format_jobs delivers db uid chat).1
          uid) k
  = bool_decide (k = "jobs_au") || flag (stored_prefs db uid) k
  ∧ flag (stored_prefs (jobs_in job jobs_api format_jobs delivers db uid chat).1
            uid) k
    = bool_decide (k = "jobs_in") || flag (stored_prefs db uid) k
  ∧ flag (stored_prefs
            (aitools tool ai_tools_api format_tools delivers db uid chat).1
            uid) k
    = bool_decide (k = "ai_tools") || flag (stored_prefs db uid) k
  ∧ flag (stored_prefs
            (both job tool jobs_api ai_tools_api format_jobs format_tools
               delivers db uid chat).1 uid) k
    = bool_decide (k = "jobs_au") || bool_decide (k = "ai_tools")
      || flag (stored_prefs db uid) k.
Proof. apply flag_after_content_command. Qed.

(** X15: a failing provider leaves the user without a reply: [jobs_au]
    raises after its fetch with the jobs_au flag already stored as on, and
    [text_search] raises after its first fetch, or after the retry with the
    other country, without sending anything. *)
Theorem failed_fetch_leaves_no_reply db uid chat :
  (jobs_api default_keyword "AU" None = raised ->
   (jobs_au job jobs_api format_jobs delivers db uid chat).2
   = ([ev_get_jobs default_keyword "AU" None], raised)
   ∧ flag (stored_prefs
             (jobs_au job jobs_api format_jobs delivers db uid chat).1 uid)
       "jobs_au" = true)
  ∧ (∀ txt,
       let q := parse_free_text_to_query txt in
       jobs_api q.1.1 q.1.2 q.2 = raised ->
       text_search job jobs_api format_jobs delivers chat txt
       = ([ev_get_jobs q.1.1 q.1.2 q.2], raised))
  ∧ (∀ txt,
       let q := parse_free_text_to_query txt in
       jobs_api q.1.1 q.1.2 q.2 = returned [] ->
       jobs_api q.1.1 (other_country q.1.2) q.2 = raised ->
       text_search job jobs_api format_jobs delivers chat txt
       = ([ev_get_jobs q.1.1 q.1.2 q.2;
           ev_get_jobs q.1.1 (other_country q.1.2) q.2], raised)).
Proof.
  split; [|split].
  - intros H. split.
    + unfold jobs_au, get_jobs. cbn [snd]. fold default_keyword. rewrite H.
      done.
    + unfold jobs_au. cbn [fst]. rewrite flag_upsert.
      by rewrite lookup_singleton_eq.
  - intros txt q H. unfold text_search. fold q.
    destruct q as [[kw cc] loc]. cbn [fst snd] in *.
    unfold get_jobs. rewrite H. done.
  - intros txt q H1 H2. unfold text_search. fold q.
    destruct q as [[kw cc] loc]. cbn [fst snd] in *.
    unfold get_jobs. rewrite H1. io_unfold. cbn. rewrite H2. done.
Qed.

(** X16: [jobs] never fails on its arguments and makes exactly one fetch,
    with the parsed query: results are sent under the header, no result
    gives the header and "No results found." with no retry for the other
    country, and a failing fetch leaves no reply. *)
Theorem jobs_makes_one_call chat args :
  ∃ kw cc loc,
    parse_jobs_args (T <$> args) = Some (kw, cc, loc)
    ∧ (∀ r rs,
         jobs_api (str kw) (str cc) (str <$> loc) = returned (r :: rs) ->
         trace (jobs job jobs_api format_jobs delivers chat args)
         = [ev_get_jobs (str kw) (str cc) (str <$> loc);
            ev_send (to_chat chat)
              (header (str kw) (str cc) (str <$> loc) +:+ nl +:+ nl
               +:+ format_jobs (r :: rs))])
    ∧ (jobs_api (str kw) (str cc) (str <$> loc) = returned [] ->
       trace (jobs job jobs_api format_jobs delivers chat args)
       = [ev_get_jobs (str kw) (str cc) (str <$> loc);
          ev_send (to_chat chat)
            (header (str kw) (str cc) (str <$> loc) +:+ nl +:+ nl
             +:+ "No results found.")])
    ∧ (jobs_api (str kw) (str cc) (str <$> loc) = raised ->
       jobs job jobs_api format_jobs delivers chat args
       = ([ev_get_jobs (str kw) (str cc) (str <$> loc)], raised)).
Proof.
  unfold jobs. rewrite parse_jobs_args_eq.
  eexists _, _, _. split; [reflexivity|].
  unfold get_jobs, reply_text, send_message. split; [|split].
  - intros r rs H. rewrite H. io_unfold. by cbn.
  - intros H. rewrite H. io_unfold. by cbn.
  - intros H. rewrite H. done.
Qed.

End CommandFacts.

Lemma string_app_assoc (a b c : string) : (a +:+ b) +:+ c = a +:+ (b +:+ c).
Proof.
  induction a as [|x a IH]; [done|].
  change (String x a +:+ b) with (String x (a +:+ b)).
  change (String x (a +:+ b) +:+ c) with (String x ((a +:+ b) +:+ c)).
  by rewrite IH.
Qed.

Lemma both_text_join au tools :
  join_str separator [title_au +:+ au; title_tools +:+ tools]
  = both_text au tools.
Proof.
  unfold both_text, title_au, title_tools, separator. cbn [join_str].
  by rewrite !string_app_assoc.
Qed.

Lemma lstrip_at_spec s :
  ∃ n, s = ats n +:+ lstrip_at s ∧ ∀ rest, lstrip_at s ≠ String "@"%char rest.
Proof.
  induction s as [|c s (n & Hs & Hn)].
  - by exists 0.
  - cbn [lstrip_at]. destruct (Char.eqb c "@"%char) eqn:E.
    + exists (S n). split; [|done].
      apply Ascii.eqb_eq in E. subst c.
      change (ats (S n) +:+ lstrip_at s) with (String "@"%char (ats n +:+ lstrip_at s)).
      by rewrite <- Hs.
    + exists 0. split; [done|]. intros rest [= -> _].
      by rewrite Ascii.eqb_refl in E.
Qed.

Section MoreCommandFacts.

Variables job tool : Type.
Variable jobs_api : string -> string -> option string -> outcome (list job).
Variable ai_tools_api : outcome (list tool).
Variable format_jobs : list job -> string.
Variable format_tools : list tool -> string.
Variable delivers : dest -> string -> bool.
Variable CHANNEL_ID : option string.

Local Abbreviation run_one :=
  (push_one job tool jobs_api ai_tools_api format_jobs format_tools delivers).
Local Abbreviation run_daily :=
  (push_daily_job job tool jobs_api ai_tools_api format_jobs format_tools
     delivers CHANNEL_ID).
Local Abbreviation run_channel :=
  (post_channel_summary job tool jobs_api ai_tools_api format_jobs
     format_tools delivers CHANNEL_ID).
Local Abbreviation run_pushnow :=
  (pushnow job tool jobs_api ai_tools_api format_jobs format_tools delivers
     CHANNEL_ID).
Local Abbreviation run_postchannel :=
  (postchannel job tool jobs_api ai_tools_api format_jobs format_tools
     delivers CHANNEL_ID).
Local Abbreviation run_both :=
  (both job tool jobs_api ai_tools_api format_jobs format_tools delivers).

(** X17: for a user whose jobs_in flag is off, the reply of [both] and the
    message the next digest sends to that user are the same text (AU jobs,
    separator, AI tools), when the two fetches return the same data. *)
Theorem both_reply_is_next_digest db uid chat ja ts :
  jobs_api default_keyword "AU" None = returned ja ->
  ai_tools_api = returned ts ->
  flag (stored_prefs db uid) "jobs_in" = false ->
  let msg := both_text (format_jobs ja) (format_tools ts) in
  sends (run_both db uid chat).2 = [ev_send (to_chat chat) msg]
  ∧ sends (run_one (get_user (run_both db uid chat).1 uid))
    = [ev_send (to_chat uid) msg].
Proof.
  intros Hja Hts Hin msg. split.
  - unfold both, get_jobs, get_ai_tools, reply_text, send_message. cbn [snd].
    fold default_keyword. rewrite Hja, Hts. io_unfold. by cbn.
  - destruct (flag_after_content_command db uid "jobs_au") as (_ & _ & _ & Ha).
    destruct (flag_after_content_command db uid "jobs_in") as (_ & _ & _ & Hi).
    destruct (flag_after_content_command db uid "ai_tools") as (_ & _ & _ & Ht).
    rewrite Hin in Hi.
    change (flag (stored_prefs (run_both db uid chat).1 uid) "jobs_au" = true)
      in Ha.
    change (flag (stored_prefs (run_both db uid chat).1 uid) "jobs_in" = false)
      in Hi.
    change (flag (stored_prefs (run_both db uid chat).1 uid) "ai_tools" = true)
      in Ht.
    set (db' := (run_both db uid chat).1) in *.
    assert (Hu : get_user db' uid = row uid (stored_prefs db' uid)).
    { unfold db', both, stored_prefs, get_user, upsert_user. cbn [fst].
      by rewrite lookup_insert_eq. }
    clearbody db'.
    rewrite Hu. unfold push_one.
    cbn [row user_prefs user_id default from_option id].
    rewrite (flag_any _ _ Ha), Ha, Hi, Ht. cbn [negb].
    unfold get_jobs, get_ai_tools, send_message. fold default_keyword.
    rewrite Hja, Hts. io_unfold. cbn -[join_str separator title_au title_tools].
    rewrite both_text_join. fold msg. by destruct (delivers (to_chat uid) msg).
Qed.

(** X18: with a channel configured and the fetches returning,
    [postchannel] attempts the channel delivery of [post_channel_summary]
    and then replies "Posted to channel." whether or not that delivery went
    through; when the three contents are blank that reply is the only
    message sent. *)
Theorem postchannel_reports_posted chat ch ja ji ts :
  channel_of CHANNEL_ID = Some ch ->
  jobs_api default_keyword "AU" None = returned ja ->
  jobs_api default_keyword "IN" None = returned ji ->
  ai_tools_api = returned ts ->
  sends (run_postchannel chat)
  = channel_attempt CHANNEL_ID (format_jobs ja) (format_jobs ji)
      (format_tools ts)
    ++ [ev_send (to_chat chat) "Posted to channel."]
  ∧ (nonblank (format_jobs ja) = false -> nonblank (format_jobs ji) = false ->
     nonblank (format_tools ts) = false ->
     sends (run_postchannel chat)
     = [ev_send (to_chat chat) "Posted to channel."]).
Proof.
  intros Hch Hja Hji Hts.
  destruct (channel_summary_attempt job tool jobs_api ai_tools_api format_jobs
              format_tools delivers CHANNEL_ID ja ji ts Hja Hji Hts)
    as [Hr Hs].
  assert (H : sends (run_postchannel chat)
              = channel_attempt CHANNEL_ID (format_jobs ja) (format_jobs ji)
                  (format_tools ts)
                ++ [ev_send (to_chat chat) "Posted to channel."]).
  { unfold postchannel. unfold channel_of in Hch.
    destruct CHANNEL_ID as [[|c s]|] eqn:E; try done. rewrite <- E in *.
    destruct (sends_bind run_channel
                (λ _, reply_text delivers chat "Posted to channel.") tt Hr)
      as [-> _].
    by rewrite Hs. }
  split; [exact H|]. intros Ba Bi Bt. rewrite H.
  unfold channel_attempt, channel_sections, channel_kept, titled.
  rewrite Hch, !filter_cons, filter_nil. cbn [snd]. by rewrite Ba, Bi, Bt.
Qed.

Lemma unconfigured_postchannel chat :
  channel_of CHANNEL_ID = None ->
  run_postchannel chat
  = reply_text delivers chat "CHANNEL_ID not set in .env.".
Proof. unfold postchannel, channel_of. by destruct CHANNEL_ID as [[|c s]|]. Qed.

(** X19: with a channel configured, a failing AU fetch makes every run of
    [push_daily_job] raise, whoever the users are; [pushnow] then makes the
    calls of the run and no reply, and nothing is sent to the channel. *)
Theorem au_failure_fails_the_run chat ch all_users :
  channel_of CHANNEL_ID = Some ch ->
  jobs_api default_keyword "AU" None = raised ->
  result (run_daily all_users) = raised
  ∧ run_pushnow chat all_users = (trace (run_daily all_users), raised)
  ∧ ∀ msg, ev_send (to_channel ch) msg ∉ trace run_channel.
Proof.
  intros Hch Hau.
  assert (Hc : run_channel = ([ev_get_jobs default_keyword "AU" None], raised)).
  { unfold post_channel_summary. unfold channel_of in Hch.
    destruct CHANNEL_ID as [[|c s]|]; try done.
    unfold get_jobs. fold default_keyword. by rewrite Hau. }
  assert (Hr : result (run_daily all_users) = raised).
  { unfold push_daily_job. rewrite Hc.
    destruct (for_each all_users run_one) as [tr [[]|]]; done. }
  split; [exact Hr|]. split.
  - unfold pushnow. by apply result_bind_raised.
  - intros msg. rewrite Hc. cbn. by intros [=]%list_elem_of_singleton.
Qed.

(** X20: with a channel configured, the start keyboard has the subscribe
    button and a second row with the link [https://t.me/] followed by the
    channel id without any of its leading "@" characters. *)
Theorem start_keyboard_link ch :
  channel_of CHANNEL_ID = Some ch ->
  ∃ n target,
    ch = ats n +:+ target
    ∧ (∀ rest, target ≠ String "@"%char rest)
    ∧ start_keyboard CHANNEL_ID
      = [[callback_button "✅ Subscribe" "ui:open_subscribe"];
         [url_button "📢 Open Channel" ("https://t.me/" +:+ target)]].
Proof.
  intros Hch. destruct (lstrip_at_spec ch) as (n & Hn & Ht).
  exists n, (lstrip_at ch). split; [exact Hn|]. split; [exact Ht|].
  unfold start_keyboard. unfold channel_of in Hch.
  by destruct CHANNEL_ID as [[|c s]|]; simplify_eq.
Qed.

End MoreCommandFacts.

(** X21: [prefs] raises exactly when the record it reads lacks the flags
    or one of the three of them; for a user the store does not know it
    replies with three times False. *)
Theorem prefs_replies_iff daily_time db uid :
  (prefs daily_time db uid = raised
   <-> ¬ ∃ p, user_prefs (get_user db uid) = Some p
              ∧ Forall (λ k, is_Some (p !! k)) the_flags)
  ∧ (db !! uid = None ->
     prefs daily_time db uid
     = returned (prefs_text daily_time false false false)).
Proof.
  split.
  - unfold prefs. destruct (user_prefs (get_user db uid)) as [p|];
      [|split; [by intros _ (q & [=] & _)|done]].
    split.
    + intros Hr (q & [= <-] & Hq). unfold the_flags in Hq.
      rewrite !Forall_cons in Hq.
      destruct Hq as ([a Ha] & [i Hi] & [t Ht] & _).
      by rewrite Ha, Hi, Ht in Hr.
    + intros Hn.
      destruct (p !! "jobs_au") as [a|] eqn:Ea; [|done].
      destruct (p !! "jobs_in") as [i|] eqn:Ei; [|done].
      destruct (p !! "ai_tools") as [t|] eqn:Et; [|done].
      exfalso. apply Hn. exists p. split; [done|]. unfold the_flags.
      apply List.Forall_cons; [rewrite Ea; by eexists|].
      apply List.Forall_cons; [rewrite Ei; by eexists|].
      apply List.Forall_cons; [rewrite Et; by eexists|].
      apply List.Forall_nil.
  - intros Hn. unfold prefs, get_user. by rewrite Hn.
Qed.

Lemma failed_fetch_leaves_no_reply_witness :
  (jobs_au string jobs_down lines always_delivers ∅ 7 7).2
  = ([ev_get_jobs default_keyword "AU" None], raised)
  ∧ text_search string jobs_down lines always_delivers 7 "python india"
    = ([ev_get_jobs "python " "IN" None], raised).
Proof.
  pose proof (failed_fetch_leaves_no_reply string jobs_down lines
                always_delivers ∅ 7 7) as (Hau & Hsearch & _).
  split.
  - apply Hau. reflexivity.
  - apply (Hsearch "python india"). reflexivity.
Defined.

Lemma jobs_makes_one_call_witness :
  trace (jobs string jobs_india_only lines always_delivers 7 ["python"; "au"])
  = [ev_get_jobs "python" "AU" None;
     ev_send (to_chat 7)
       (header "python" "AU" None +:+ nl +:+ nl +:+ "No results found.")].
Proof.
  destruct (jobs_makes_one_call string jobs_india_only lines always_delivers 7
              ["python"; "au"]) as (kw & cc & loc & Hq & _ & Hnone & _).
  vm_compute in Hq. injection Hq as <- <- <-.
  apply Hnone. reflexivity.
Defined.

Lemma both_reply_is_next_digest_witness :
  sends (push_one string string no_jobs tools_one lines lines always_delivers
           (get_user
              (both string string no_jobs tools_one lines lines
                 always_delivers ∅ 7 7).1 7))
  = [ev_send (to_chat 7) (both_text (lines []) (lines ["Perplexity"]))].
Proof.
  apply (both_reply_is_next_digest string string no_jobs tools_one lines lines
           always_delivers ∅ 7 7 [] ["Perplexity"]); reflexivity.
Defined.

Lemma postchannel_reports_posted_witness :
  sends (postchannel string string no_jobs no_tools lines lines never_delivers
           smartify_channel 7)
  = [ev_send (to_chat 7) "Posted to channel."].
Proof.
  apply (postchannel_reports_posted string string no_jobs no_tools lines lines
           never_delivers smartify_channel 7 "@smartify_jobs" [] [] []);
    reflexivity.
Defined.

Lemma au_failure_fails_the_run_witness :
  pushnow string string jobs_down tools_one lines lines always_delivers
    smartify_channel 7 [row 2 no_prefs]
  = (trace (push_daily_job string string jobs_down tools_one lines lines
              always_delivers smartify_channel [row 2 no_prefs]), raised).
Proof.
  apply (au_failure_fails_the_run string string jobs_down tools_one lines lines
           always_delivers smartify_channel 7 "@smartify_jobs"
           [row 2 no_prefs]); reflexivity.
Defined.

Lemma start_keyboard_link_witness :
  ∃ n target,
    "@smartify_jobs" = ats n +:+ target
    ∧ (∀ rest, target ≠ String "@"%char rest)
    ∧ start_keyboard smartify_channel
      = [[callback_button "✅ Subscribe" "ui:open_subscribe"];
         [url_button "📢 Open Channel" ("https://t.me/" +:+ target)]].
Proof. apply (start_keyboard_link smartify_channel "@smartify_jobs"). reflexivity. Defined.

Lemma prefs_replies_iff_witness :
  prefs "09:00 UTC" ∅ 7
  = returned (prefs_text "09:00 UTC" false false false).
Proof. apply (proj2 (prefs_replies_iff "09:00 UTC" ∅ 7)). reflexivity. Defined.
